(** * beautiful-noise: the media server (server.js)

    A shallow embedding of the Express handlers of [server.js] and of the
    parts of the JavaScript runtime they call (Part I), the notions the
    statements are written with (Part II), the properties of the handlers
    (Part III), and how the handlers work together and what they do on
    stores and requests that are out of the ordinary (Part IV).

    [server.js] holds the handlers twice.  The two copies differ in the one
    line that names the thumbnail of an upload; the embedding has one
    definition of each handler, and the upload handler takes the [copy] it
    stands for.

    Conventions of the embedding.
    - A JavaScript string is a [string]; a character is one code unit in the
      range 0..255 (Latin-1).  Text outside that range is not modelled.
    - A JavaScript number is a safe integer (a [Z] of at most 2^53 - 1 in
      magnitude): the only numbers the server makes are [Date.now()]
      readings.  Fractions, exponents and larger numbers are not modelled.
    - A reading of the clock is an argument of the handler that takes it;
      the statements that depend on it ask it to be a time value.
    - A parsed JSON document is a [json] value.  An object is the list of its
      members in property order (array-index keys ascending, then the other
      keys in order of creation), as [JSON.stringify] walks them.
    - Handlers run in a state-and-exception monad over the [World]: the
      files (the two JSON documents, what lies below [uploads/], the files
      of the front end) and the console.  A run ends with a value, with a
      throw, or [Beyond] what the embedding holds.
    - The file system is one where a write or a move happens as a whole or
      not at all; its directories are there and can be written.
    - A text field of a form and the query of a search are strings in
      [upload] and [search]; [POST_upload] and [GET_search] take the arrays
      and objects that the parsers make of repeated or bracketed fields.
    - Paths are written relative to [__dirname].
    - [JSON.stringify], [JSON.parse] and Node's [path] module are not part
      of the repository; they follow ECMAScript's algorithms and Node's
      POSIX implementation. *)

From Stdlib Require Import ZArith String Ascii List Lia Bool.
From Stdlib Require Import DecimalString DecimalN DecimalFacts.
From Stdlib Require Import Sorting.Sorted Sorting.Permutation.
From stdpp Require Import gmap strings.
Import ListNotations.
Open Scope string_scope.
Open Scope list_scope.
Open Scope Z_scope.

#[global] Arguments String.append !s1 s2 : simpl nomatch.

(* ================================================================= *)
(** * Part I: the embedding *)
(* ================================================================= *)

(** ** Characters and strings *)

Definition QUOTE : ascii := "034"%char.
Definition BACKSLASH : ascii := "092"%char.
Definition LF : ascii := "010"%char.

Definition code (c : ascii) : N := N_of_ascii c.

(** [String.prototype.startsWith]. *)
Definition startsWith (s p : string) : bool := String.prefix p s.

(** [String.prototype.includes]: [sub] occurs in [s] at some position. *)
Fixpoint includes (s sub : string) : bool :=
  String.prefix sub s ||
  match s with
  | EmptyString => false
  | String _ s' => includes s' sub
  end.

(** [String.prototype.toLowerCase] on Latin-1: A-Z, and the accented
    capitals U+00C0..U+00DE except the multiplication sign U+00D7. *)
Definition lower_char (c : ascii) : ascii :=
  let n := code c in
  if ((65 <=? n) && (n <=? 90))%N then ascii_of_N (n + 32)
  else if ((192 <=? n) && (n <=? 222) && negb (n =? 215))%N
       then ascii_of_N (n + 32)
  else c.

Fixpoint toLowerCase (s : string) : string :=
  match s with
  | EmptyString => EmptyString
  | String c s' => String (lower_char c) (toLowerCase s')
  end.

(** White space of [String.prototype.trim] in Latin-1: TAB, LF, VT, FF, CR,
    SPACE and NO-BREAK SPACE. *)
Definition is_space (c : ascii) : bool :=
  let n := code c in
  (((9 <=? n) && (n <=? 13)) || (n =? 32) || (n =? 160))%N.

Fixpoint trimStart (s : string) : string :=
  match s with
  | EmptyString => EmptyString
  | String c s' => if is_space c then trimStart s' else s
  end.

Fixpoint trimEnd (s : string) : string :=
  match s with
  | EmptyString => EmptyString
  | String c s' =>
      match trimEnd s' with
      | EmptyString => if is_space c then EmptyString else String c EmptyString
      | t => String c t
      end
  end.

Definition trim (s : string) : string := trimEnd (trimStart s).

(** Truthiness of a string: only the empty string is falsy. *)
Definition truthy (s : string) : bool :=
  match s with EmptyString => false | _ => true end.

(** [x || d] where [x] is a string or [undefined]. *)
Definition or_default (x : option string) (d : string) : string :=
  match x with
  | Some s => if truthy s then s else d
  | None => d
  end.

(** [Number.isSafeInteger]: the integers a JavaScript number holds
    exactly.  The numbers of the model are these. *)
Definition MAX_SAFE_INTEGER : Z := 9007199254740991.

Definition isSafeInteger (n : Z) : bool :=
  (- MAX_SAFE_INTEGER <=? n) && (n <=? MAX_SAFE_INTEGER).

(** A reading of [Date.now()] is a time value: an integer of at most
    8.64e15 in magnitude. *)
Definition time_value (t : Z) : bool :=
  (- 8640000000000000 <=? t) && (t <=? 8640000000000000).

(** [Number.prototype.toString] of a safe integer, as a template literal
    and [JSON.stringify] print it: the decimal digits. *)
Definition digits_of_N (n : N) : string :=
  NilZero.string_of_uint (N.to_uint n).

Definition Number_toString (z : Z) : string :=
  match z with
  | Z0 => "0"
  | Zpos p => digits_of_N (Npos p)
  | Zneg p => String "-" (digits_of_N (Npos p))
  end.

(** ** JSON values *)

#[warnings="-register-all"]
Inductive json : Type :=
| JNull
| JBool (b : bool)
| JNum (n : Z)
| JStr (s : string)
| JArr (items : list json)
| JObj (members : list (string * json)).

(** A property read [o.k]: [None] is [undefined]. *)
Fixpoint assoc (k : string) (ms : list (string * json)) : option json :=
  match ms with
  | [] => None
  | (k', v) :: ms' => if (k' =? k)%string then Some v else assoc k ms'
  end.

(** *** Property order of an object

    An array index is a canonical numeric string below 2^32 - 1.  The own
    keys of an object are its array indices in ascending order, then the
    other keys in order of creation. *)

Fixpoint all_digits (s : string) : bool :=
  match s with
  | EmptyString => true
  | String c s' => ((48 <=? code c) && (code c <=? 57))%N && all_digits s'
  end.

Definition array_index (k : string) : option N :=
  match k with
  | EmptyString => None
  | String c r =>
      if all_digits k && ((negb (c =? "0")%char) || (r =? "")%string) then
        match NilZero.uint_of_string k with
        | Some d => if (N.of_uint d <? 4294967295)%N
                    then Some (N.of_uint d) else None
        | None => None
        end
      else None
  end.

(** [goes_before k k']: a new key [k] is enumerated before the key [k']. *)
Definition goes_before (k k' : string) : bool :=
  match array_index k, array_index k' with
  | Some i, Some j => (i <? j)%N
  | Some _, None => true
  | None, _ => false
  end.

(** [CreateDataProperty(o, k, v)]: an existing key keeps its place and
    takes the new value, a new key is put at its place in property order. *)
Fixpoint obj_define (k : string) (v : json) (o : list (string * json))
  : list (string * json) :=
  match o with
  | [] => [(k, v)]
  | (k', v') :: o' =>
      if (k' =? k)%string then (k, v) :: o'
      else if goes_before k k' then (k, v) :: (k', v') :: o'
      else (k', v') :: obj_define k v o'
  end.

Definition build_object (ms : list (string * json)) : list (string * json) :=
  fold_left (fun o m => obj_define (fst m) (snd m) o) ms [].

(** ** JSON.stringify(value, null, 2) *)

Definition hex_digit (n : N) : ascii :=
  if (n <? 10)%N then ascii_of_N (48 + n) else ascii_of_N (87 + n).

(** One character of QuoteJSONString. *)
Definition quote_char (c : ascii) : string :=
  if (c =? QUOTE)%char then String BACKSLASH (String QUOTE "")
  else if (c =? BACKSLASH)%char then String BACKSLASH (String BACKSLASH "")
  else if (c =? "008")%char then String BACKSLASH "b"
  else if (c =? "009")%char then String BACKSLASH "t"
  else if (c =? "010")%char then String BACKSLASH "n"
  else if (c =? "012")%char then String BACKSLASH "f"
  else if (c =? "013")%char then String BACKSLASH "r"
  else if (code c <? 32)%N then
    String BACKSLASH
      (String "u" (String "0" (String "0"
        (String (hex_digit (code c / 16))
          (String (hex_digit (code c mod 16)) "")))))
  else String c "".

Fixpoint quote_chars (s : string) : string :=
  match s with
  | EmptyString => EmptyString
  | String c s' => quote_char c +:+ quote_chars s'
  end.

Definition QuoteJSONString (s : string) : string :=
  String QUOTE (quote_chars s +:+ String QUOTE "").

Fixpoint join (sep : string) (parts : list string) : string :=
  match parts with
  | [] => ""
  | [p] => p
  | p :: ps => p +:+ sep +:+ join sep ps
  end.

Definition gap : string := "  ".
Definition NL : string := String LF "".

(** The text between two elements or members. *)
Definition separator (indent : string) : string := "," +:+ NL +:+ indent.

(** The text of a member: its quoted key, a colon and a space, its value. *)
Definition member (key value : string) : string :=
  QuoteJSONString key +:+ ": " +:+ value.

(** SerializeJSONProperty with the current indentation [indent]. *)
Fixpoint SerializeJSONProperty (indent : string) (v : json) : string :=
  match v with
  | JNull => "null"
  | JBool true => "true"
  | JBool false => "false"
  | JNum n => Number_toString n
  | JStr s => QuoteJSONString s
  | JArr [] => "[]"
  | JArr items =>
      let stepback := indent in
      let indent := indent +:+ gap in
      "[" +:+ NL +:+ indent +:+
      join (separator indent) (map (SerializeJSONProperty indent) items) +:+
      NL +:+ stepback +:+ "]"
  | JObj [] => "{}"
  | JObj members =>
      let stepback := indent in
      let indent := indent +:+ gap in
      "{" +:+ NL +:+ indent +:+
      join (separator indent)
           (map (fun m => member (fst m)
                            (SerializeJSONProperty indent (snd m)))
                members) +:+
      NL +:+ stepback +:+ "}"
  end.

Definition JSON_stringify (v : json) : string := SerializeJSONProperty "" v.

(** ** How a computation ends *)

Inductive exn : Type :=
| TypeError
| SyntaxError
| SystemError.

(** With a value, with a thrown exception, or [Beyond] the modelled part
    of JavaScript: a text that [JSON.parse] is given and the model cannot
    hold (see [parsed]), operands the model cannot subtract (see
    [subtract]).  Nothing is stated about a run that ends [Beyond]. *)
Inductive result (A : Type) : Type :=
| Ok (a : A)
| Throw (e : exn)
| Beyond.
Arguments Ok {A} a.
Arguments Throw {A} e.
Arguments Beyond {A}.

Definition rbind {A B} (r : result A) (k : A -> result B) : result B :=
  match r with
  | Ok a => k a
  | Throw e => Throw e
  | Beyond => Beyond
  end.

(** ** JSON.parse *)

(** What reading a piece of the text gives: a value and the rest of the
    text; [Reject], for a text that is not JSON; or [Outside], for a text
    that leaves what the model holds: a number with a fraction or an
    exponent or beyond the safe integers, an escaped character above
    U+00FF. *)
Inductive parsed (A : Type) : Type :=
| Parsed (a : A) (rest : string)
| Reject
| Outside.
Arguments Parsed {A} a rest.
Arguments Reject {A}.
Arguments Outside {A}.

Definition pbind {A B} (p : parsed A) (k : A -> string -> parsed B)
  : parsed B :=
  match p with
  | Parsed a rest => k a rest
  | Reject => Reject
  | Outside => Outside
  end.

(** White space of the JSON grammar. *)
Definition is_ws (c : ascii) : bool :=
  ((c =? " ") || (c =? "009") || (c =? "010") || (c =? "013"))%char.

Fixpoint skip_ws (s : string) : string :=
  match s with
  | EmptyString => EmptyString
  | String c s' => if is_ws c then skip_ws s' else s
  end.

Definition is_digit (c : ascii) : bool :=
  ((48 <=? code c) && (code c <=? 57))%N.

(** The longest prefix of digits, and what follows it. *)
Fixpoint span_digits (s : string) : string * string :=
  match s with
  | EmptyString => (EmptyString, EmptyString)
  | String c s' =>
      if is_digit c then
        let (ds, rest) := span_digits s' in (String c ds, rest)
      else (EmptyString, s)
  end.

Definition starts_fraction_or_exponent (s : string) : bool :=
  match s with
  | String c _ => ((c =? ".") || (c =? "e") || (c =? "E"))%char
  | EmptyString => false
  end.

(** A number literal: an optional minus sign, then [0] or a digit string
    without a leading zero.  A literal that goes on with a fraction or an
    exponent, or whose digits are not those of a safe integer, is
    [Outside].  ([-0] reads as [0]: the server never tells them apart.) *)
Definition parse_digits (neg : bool) (s : string) : parsed Z :=
  let (ds, rest) := span_digits s in
  match ds with
  | EmptyString => Reject
  | String c more =>
      if (c =? "0")%char && negb (more =? "")%string then Reject
      else if starts_fraction_or_exponent rest then Outside
      else
        match NilZero.uint_of_string ds with
        | Some d =>
            let n := Z.of_N (N.of_uint d) in
            if isSafeInteger n then Parsed (if neg then (- n)%Z else n) rest
            else Outside
        | None => Reject
        end
  end.

Definition parse_number (s : string) : parsed Z :=
  match s with
  | String c s' =>
      if (c =? "-")%char then parse_digits true s' else parse_digits false s
  | EmptyString => Reject
  end.

Definition hex_value (c : ascii) : option N :=
  let n := code c in
  if ((48 <=? n) && (n <=? 57))%N then Some (n - 48)%N
  else if ((97 <=? n) && (n <=? 102))%N then Some (n - 87)%N
  else if ((65 <=? n) && (n <=? 70))%N then Some (n - 55)%N
  else None.

Definition hex4 (a b c d : ascii) : option N :=
  match hex_value a, hex_value b, hex_value c, hex_value d with
  | Some x, Some y, Some z, Some w =>
      Some (((x * 16 + y) * 16 + z) * 16 + w)%N
  | _, _, _, _ => None
  end.

Definition cons_char (c : ascii) (r : parsed string) : parsed string :=
  pbind r (fun s rest => Parsed (String c s) rest).

(** The characters of a string literal after its opening quote, up to and
    including the closing quote.  An escape above U+00FF is [Outside]. *)
Fixpoint parse_chars (s : string) : parsed string :=
  match s with
  | EmptyString => Reject
  | String c r =>
      if (c =? QUOTE)%char then Parsed EmptyString r
      else if (c =? BACKSLASH)%char then
        match r with
        | EmptyString => Reject
        | String e r1 =>
            if (e =? QUOTE)%char then cons_char QUOTE (parse_chars r1)
            else if (e =? BACKSLASH)%char then cons_char BACKSLASH (parse_chars r1)
            else if (e =? "/")%char then cons_char "/" (parse_chars r1)
            else if (e =? "b")%char then cons_char "008" (parse_chars r1)
            else if (e =? "f")%char then cons_char "012" (parse_chars r1)
            else if (e =? "n")%char then cons_char "010" (parse_chars r1)
            else if (e =? "r")%char then cons_char "013" (parse_chars r1)
            else if (e =? "t")%char then cons_char "009" (parse_chars r1)
            else if (e =? "u")%char then
              match r1 with
              | String h1 (String h2 (String h3 (String h4 r2))) =>
                  match hex4 h1 h2 h3 h4 with
                  | Some n =>
                      if (n <? 256)%N
                      then cons_char (ascii_of_N n) (parse_chars r2)
                      else Outside
                  | None => Reject
                  end
              | _ => Reject
              end
            else Reject
        end
      else if (code c <? 32)%N then Reject
      else cons_char c (parse_chars r)
  end.

(** [expect w v s]: the value [v] once the word [w] is taken off the front
    of [s]. *)
Fixpoint expect (w : string) (v : json) (s : string) : parsed json :=
  match w with
  | EmptyString => Parsed v s
  | String c w' =>
      match s with
      | String c' s' => if (c =? c')%char then expect w' v s' else Reject
      | EmptyString => Reject
      end
  end.

(** The recursive-descent parser.  [fuel] bounds the nesting of calls;
    [JSON_parse] gives it more than any text can use. *)
Fixpoint parse_value (fuel : nat) (s : string) : parsed json :=
  match fuel with
  | O => Reject
  | S fuel =>
      match skip_ws s with
      | EmptyString => Reject
      | String c r =>
          if (c =? "n")%char then expect "ull" JNull r
          else if (c =? "t")%char then expect "rue" (JBool true) r
          else if (c =? "f")%char then expect "alse" (JBool false) r
          else if (c =? QUOTE)%char then
            pbind (parse_chars r) (fun str r' => Parsed (JStr str) r')
          else if (c =? "[")%char then
            match skip_ws r with
            | String c' r' =>
                if (c' =? "]")%char then Parsed (JArr []) r'
                else
                  pbind (parse_elements fuel r) (fun items r'' =>
                  Parsed (JArr items) r'')
            | EmptyString => Reject
            end
          else if (c =? "{")%char then
            match skip_ws r with
            | String c' r' =>
                if (c' =? "}")%char then Parsed (JObj []) r'
                else
                  pbind (parse_members fuel r) (fun ms r'' =>
                  Parsed (JObj (build_object ms)) r'')
            | EmptyString => Reject
            end
          else
            pbind (parse_number (String c r)) (fun n r' =>
            Parsed (JNum n) r')
      end
  end
with parse_elements (fuel : nat) (s : string) : parsed (list json) :=
  match fuel with
  | O => Reject
  | S fuel =>
      pbind (parse_value fuel s) (fun v r =>
      match skip_ws r with
      | String c r' =>
          if (c =? ",")%char then
            pbind (parse_elements fuel r') (fun vs r'' =>
            Parsed (v :: vs) r'')
          else if (c =? "]")%char then Parsed [v] r'
          else Reject
      | EmptyString => Reject
      end)
  end
with parse_members (fuel : nat) (s : string)
  : parsed (list (string * json)) :=
  match fuel with
  | O => Reject
  | S fuel =>
      match skip_ws s with
      | String q r =>
          if (q =? QUOTE)%char then
            pbind (parse_chars r) (fun k r1 =>
            match skip_ws r1 with
            | String colon r2 =>
                if (colon =? ":")%char then
                  pbind (parse_value fuel r2) (fun v r3 =>
                  match skip_ws r3 with
                  | String c r4 =>
                      if (c =? ",")%char then
                        pbind (parse_members fuel r4) (fun ms r5 =>
                        Parsed ((k, v) :: ms) r5)
                      else if (c =? "}")%char then Parsed [(k, v)] r4
                      else Reject
                  | EmptyString => Reject
                  end)
                else Reject
            | EmptyString => Reject
            end)
          else Reject
      | EmptyString => Reject
      end
  end.

(** [JSON.parse]: a value; the SyntaxError it throws on a text that is
    not JSON; [Beyond] on a text that is [Outside]. *)
Definition JSON_parse (s : string) : result json :=
  match parse_value (2 * String.length s + 2) s with
  | Parsed v rest =>
      match skip_ws rest with
      | EmptyString => Ok v
      | _ => Throw SyntaxError
      end
  | Reject => Throw SyntaxError
  | Outside => Beyond
  end.

(** ** path.extname and path.parse (POSIX)

    Node's [path] module is not part of the repository; these follow its
    POSIX implementation, one backward scan of the path that records where
    the last component, its last dot and its end are. *)

Record scan : Type := mkScan {
  startDot : Z;
  startPart : Z;
  endPos : Z;
  matchedSlash : bool;
  preDotState : Z
}.

Definition scan_init : scan :=
  {| startDot := -1; startPart := 0; endPos := -1;
     matchedSlash := true; preDotState := 0 |}.

(** The loop body at index [i]; the boolean is the [break]. *)
Definition scan_step (i : Z) (c : ascii) (st : scan) : scan * bool :=
  if (c =? "/")%char then
    if negb (matchedSlash st) then
      (mkScan (startDot st) (i + 1) (endPos st) (matchedSlash st)
              (preDotState st), true)
    else (st, false)
  else
    let st1 :=
      if endPos st =? -1
      then mkScan (startDot st) (startPart st) (i + 1) false (preDotState st)
      else st in
    if (c =? ".")%char then
      if startDot st1 =? -1 then
        (mkScan i (startPart st1) (endPos st1) (matchedSlash st1)
                (preDotState st1), false)
      else if negb (preDotState st1 =? 1) then
        (mkScan (startDot st1) (startPart st1) (endPos st1)
                (matchedSlash st1) 1, false)
      else (st1, false)
    else if negb (startDot st1 =? -1) then
      (mkScan (startDot st1) (startPart st1) (endPos st1)
              (matchedSlash st1) (-1), false)
    else (st1, false).

(** [for (i = ...; i >= start; --i)] over the characters in reverse. *)
Fixpoint scan_loop (rev_chars : list ascii) (i : Z) (st : scan) : scan :=
  match rev_chars with
  | [] => st
  | c :: rest =>
      let (st', stop) := scan_step i c st in
      if stop then st' else scan_loop rest (i - 1) st'
  end.

(** [String.prototype.slice(a, b)] for [0 <= a]. *)
Definition slice (s : string) (a b : Z) : string :=
  String.substring (Z.to_nat a) (Z.to_nat (b - a)) s.

Definition no_extension (st : scan) : bool :=
  (startDot st =? -1) || (preDotState st =? 0) ||
  ((preDotState st =? 1) && (startDot st =? endPos st - 1) &&
   (startDot st =? startPart st + 1)).

Definition path_extname (path : string) : string :=
  let st := scan_loop (rev (list_ascii_of_string path))
                      (Z.of_nat (String.length path) - 1) scan_init in
  if no_extension st || (endPos st =? -1) then ""
  else slice path (startDot st) (endPos st).

(** [path.parse(path).name]. *)
Definition path_parse_name (path : string) : string :=
  match path with
  | EmptyString => ""
  | String c0 rest =>
      let isAbsolute := (c0 =? "/")%char in
      let chars := if isAbsolute then list_ascii_of_string rest
                   else list_ascii_of_string path in
      let st := scan_loop (rev chars) (Z.of_nat (String.length path) - 1)
                          scan_init in
      if endPos st =? -1 then ""
      else
        let start := if (startPart st =? 0) && isAbsolute then 1
                     else startPart st in
        if no_extension st then slice path start (endPos st)
        else slice path start (startDot st)
  end.

(** [path.join] of segments that need no normalisation: the server joins
    fixed directory names with a file name that holds no slash. *)
Definition path_join (segments : list string) : string := join "/" segments.

(** ** The world of the server and the handler monad *)

(** A node of the file system: a file that can be read, or something at
    that path whose read fails (a directory, a file without permission). *)
Inductive node : Type :=
| File (text : string)
| Unreadable.

Record World : Type := mkWorld {
  fs : gmap string node;
  console : list string
}.

Definition M (A : Type) : Type := World -> result A * World.

Definition ret {A} (a : A) : M A := fun w => (Ok a, w).
Definition throw {A} (e : exn) : M A := fun w => (Throw e, w).
Definition lift {A} (r : result A) : M A := fun w => (r, w).

Definition bind {A B} (m : M A) (k : A -> M B) : M B :=
  fun w =>
    match m w with
    | (Ok a, w') => k a w'
    | (Throw e, w') => (Throw e, w')
    | (Beyond, w') => (Beyond, w')
    end.

(** [try { m } catch (e) { h e }]: the effects of [m] up to the throw stay. *)
Definition try_catch {A} (m : M A) (h : exn -> M A) : M A :=
  fun w =>
    match m w with
    | (Throw e, w') => h e w'
    | other => other
    end.

Declare Scope js_scope.
Delimit Scope js_scope with js.
Notation "x <- m ;; k" := (bind m (fun x => k))
  (at level 100, m at next level, k at level 200, right associativity)
  : js_scope.
Notation "m ;; k" := (bind m (fun _ => k))
  (at level 100, k at level 200, right associativity) : js_scope.
Open Scope js_scope.

(** *** The file system calls *)

Definition metadataFile : string := "media-metadata.json".
Definition supportersFile : string := "supporters.json".

Definition existsSync (p : string) : M bool :=
  fun w => (Ok (bool_decide (is_Some (fs w !! p))), w).

Definition readFileSync (p : string) : M string :=
  fun w =>
    match fs w !! p with
    | Some (File text) => (Ok text, w)
    | Some Unreadable => (Throw SystemError, w)
    | None => (Throw SystemError, w)
    end.

(** Writing over something that cannot be read (a directory, a file
    without permission) fails when the file is opened, before anything is
    changed.  Not modelled: a file that can be written and not read, and a
    write that fails part-way (a full disk, a crash) and leaves the file
    cut short. *)
Definition writeFileSync (p text : string) : M unit :=
  fun w =>
    match fs w !! p with
    | Some Unreadable => (Throw SystemError, w)
    | _ => (Ok tt, mkWorld (<[p := File text]> (fs w)) (console w))
    end.

(** The bytes of a name as the file system gets it, in UTF-8: one for a
    character below U+0080, two for the others of Latin-1. *)
Fixpoint utf8_length (s : string) : nat :=
  match s with
  | EmptyString => O
  | String c s' => ((if (code c <? 128)%N then 1 else 2) + utf8_length s')%nat
  end.

(** The components of a path, between its slashes. *)
Fixpoint components (p : string) : list string :=
  match p with
  | EmptyString => [EmptyString]
  | String c p' =>
      if (c =? "/")%char then EmptyString :: components p'
      else
        match components p' with
        | [] => [String c EmptyString]
        | s :: rest => String c s :: rest
        end
  end.

(** A path the file system takes: no component is longer than [NAME_MAX]
    bytes (255 on the file systems of Linux). *)
Definition NAME_MAX : nat := 255.

Definition name_fits (s : string) : bool := (utf8_length s <=? NAME_MAX)%nat.

Definition path_fits (p : string) : bool := forallb name_fits (components p).

(** Node refuses a path that holds a null character. *)
Definition has_nul (p : string) : bool :=
  existsb (fun c => (code c =? 0)%N) (list_ascii_of_string p).

(** Moving a file.  A null character in either path is a TypeError of
    Node's; a source that is not there, or a destination with a name too
    long, is an error of the file system; nothing is moved then.  What
    the move does over, or with, a node that may be a directory is not
    modelled.  The directories of the destination are there and can be
    written (the server makes them when it starts), on one file system
    with the staging directory. *)
Definition renameSync (src dst : string) : M unit :=
  fun w =>
    if has_nul src || has_nul dst then (Throw TypeError, w)
    else
      match fs w !! src with
      | None => (Throw SystemError, w)
      | Some n =>
          if negb (path_fits dst) then (Throw SystemError, w)
          else
            match fs w !! dst, n with
            | Some Unreadable, _ => (Beyond, w)
            | Some (File _), Unreadable => (Beyond, w)
            | _, _ =>
                (Ok tt,
                 mkWorld (<[dst := n]> (delete src (fs w))) (console w))
            end
      end.

Definition console_error (line : string) : M unit :=
  fun w => (Ok tt, mkWorld (fs w) (console w ++ [line])).

(** *** Operations on values *)

(** [v.k] for the keys the server reads ([type], [videoName], [username],
    [uploadedAt]): reading a property of [null] throws; a string, number,
    boolean or array has none of these properties. *)
Definition prop (v : json) (k : string) : result (option json) :=
  match v with
  | JNull => Throw TypeError
  | JObj ms => Ok (assoc k ms)
  | _ => Ok None
  end.

(** [x === s] for a string [s]. *)
Definition is_string (x : option json) (s : string) : bool :=
  match x with
  | Some (JStr t) => (t =? s)%string
  | _ => false
  end.

(** [x.toLowerCase()]: only a string has the method. *)
Definition call_toLowerCase (x : option json) : result string :=
  match x with
  | Some (JStr t) => Ok (toLowerCase t)
  | _ => Throw TypeError
  end.

(** JavaScript's truthiness of a value. *)
Definition truthy_value (v : json) : bool :=
  match v with
  | JNull => false
  | JBool b => b
  | JNum n => negb (n =? 0)
  | JStr s => truthy s
  | JArr _ => true
  | JObj _ => true
  end.

(** [x || d] where [x] is any value or [undefined]. *)
Definition or_value (x : option json) (d : json) : json :=
  match x with
  | Some v => if truthy_value v then v else d
  | None => d
  end.

(** [x - y] on numbers.  The difference of two safe integers may be
    rounded by the engine; its sign, which is all that [sort] looks at, is
    that of the exact difference.  On anything but numbers the operator
    coerces its operands and may give NaN, which leaves the order of
    [sort] to the engine: that is [Beyond] the model. *)
Definition subtract (x y : option json) : result Z :=
  match x, y with
  | Some (JNum a), Some (JNum b) => Ok (a - b)
  | _, _ => Beyond
  end.

Fixpoint filter_items (f : json -> result bool) (l : list json)
  : result (list json) :=
  match l with
  | [] => Ok []
  | x :: l' =>
      rbind (f x) (fun keep =>
      rbind (filter_items f l') (fun rest =>
      Ok (if keep then x :: rest else rest)))
  end.

(** [a.filter(f)]: only an array has the method. *)
Definition Array_filter (f : json -> result bool) (a : json)
  : result (list json) :=
  match a with
  | JArr l => filter_items f l
  | _ => Throw TypeError
  end.

(** [a.push(x)]: only an array has the method. *)
Definition Array_push (a : json) (x : json) : result json :=
  match a with
  | JArr l => Ok (JArr (l ++ [x]))
  | _ => Throw TypeError
  end.

(** [Array.prototype.sort] is stable; it is modelled by insertion from the
    right, each element going in front of the first one it does not
    follow. *)
Fixpoint insert_sorted (cmp : json -> json -> result Z) (x : json)
  (l : list json) : result (list json) :=
  match l with
  | [] => Ok [x]
  | y :: l' =>
      rbind (cmp x y) (fun d =>
      if 0 <? d then rbind (insert_sorted cmp x l') (fun r => Ok (y :: r))
      else Ok (x :: l))
  end.

Fixpoint Array_sort (cmp : json -> json -> result Z) (l : list json)
  : result (list json) :=
  match l with
  | [] => Ok []
  | x :: l' => rbind (Array_sort cmp l') (insert_sorted cmp x)
  end.

(** ** Requests and responses *)

(** What a response carries: a text, a JSON value, the bytes of a file,
    or the HTML page that Express makes around a message when no route
    answers. *)
Inductive body : Type :=
| Text (s : string)
| Json (v : json)
| Bytes (b : string)
| ErrorPage (message : string).

Record response : Type := mkResponse {
  status : nat;
  payload : body
}.

(** A file as multer hands it over: staged in [uploads/temp/] under a
    name of multer's choice. *)
Record UploadedFile : Type := mkUploadedFile {
  originalname : string;
  mimetype : string;
  filename : string
}.

Definition path (f : UploadedFile) : string :=
  path_join ["uploads/temp"; filename f].

(** [req.files.media[0]], [req.files.thumbnail[0]] and the text fields of
    [req.body], each sent at most once, which makes it a string; [None] is
    [undefined]. *)
Record UploadRequest : Type := mkUploadRequest {
  media : option UploadedFile;
  thumbnail : option UploadedFile;
  videoName : option string;
  username : option string
}.

(** A request whatever its text fields are: multer makes an array or an
    object of a field that is sent several times or has brackets in its
    name. *)
Record RawUploadRequest : Type := mkRawUploadRequest {
  files_media : option UploadedFile;
  files_thumbnail : option UploadedFile;
  body_videoName : option json;
  body_username : option json
}.

(** A request of strings as a request of values. *)
Definition raw (req : UploadRequest) : RawUploadRequest :=
  mkRawUploadRequest (media req) (thumbnail req)
    (option_map JStr (videoName req)) (option_map JStr (username req)).

(** The source file holds the handlers twice; the two copies differ in
    how the upload handler names the thumbnail. *)
Inductive copy : Type :=
| FirstCopy
| SecondCopy.

(** ** The handlers *)

Definition readMetadata : M json :=
  present <- existsSync metadataFile ;;
  if negb present then ret (JArr [])
  else
    try_catch
      (text <- readFileSync metadataFile ;; lift (JSON_parse text))
      (fun _ => ret (JArr [])).

Definition saveMetadata (data : json) : M unit :=
  writeFileSync metadataFile (JSON_stringify data).

Definition mediaType (mediaFile : UploadedFile) : string :=
  if startsWith (mimetype mediaFile) "video" then "videos" else "audios".

Definition mediaFilename (now : Z) (mediaFile : UploadedFile) : string :=
  Number_toString now +:+ path_extname (originalname mediaFile).

Definition thumbFilename (c : copy) (mediaFilename : string)
  (thumbFile : UploadedFile) : string :=
  let thumbExt := path_extname (originalname thumbFile) in
  match c with
  | FirstCopy => mediaFilename +:+ thumbExt
  | SecondCopy =>
      let baseName := path_parse_name mediaFilename in
      baseName +:+ thumbExt
  end.

Definition metadataEntry (name title uploader type : string)
  (thumb : json) (uploadedAt : Z) : json :=
  JObj [("filename", JStr name);
        ("videoName", JStr title);
        ("username", JStr uploader);
        ("type", JStr type);
        ("thumbnail", thumb);
        ("uploadedAt", JNum uploadedAt)].

(** [POST /upload] on a request whose text fields are strings.  [now1]
    and [now2] are the two readings of [Date.now()], for the file name and
    for [uploadedAt]. *)
Definition upload (c : copy) (req : UploadRequest) (now1 now2 : Z)
  : M response :=
  match media req with
  | None => ret (mkResponse 400 (Text "No media file uploaded."))
  | Some mediaFile =>
      let type := mediaType mediaFile in
      let name := mediaFilename now1 mediaFile in
      let mediaPath := path_join ["uploads"; type; name] in
      renameSync (path mediaFile) mediaPath ;;
      thumb <-
        match thumbnail req with
        | None => ret JNull
        | Some thumbFile =>
            let thumbName := thumbFilename c name thumbFile in
            let thumbPath := path_join ["uploads/thumbnails"; thumbName] in
            renameSync (path thumbFile) thumbPath ;;
            ret (JStr ("/media/thumbnails/" +:+ thumbName))
        end ;;
      let entry :=
        metadataEntry name
          (or_default (videoName req) (originalname mediaFile))
          (or_default (username req) "Unknown")
          type thumb now2 in
      allMetadata <- readMetadata ;;
      allMetadata <- lift (Array_push allMetadata entry) ;;
      saveMetadata allMetadata ;;
      ret (mkResponse 200
             (Json (JObj [("message", JStr "Upload successful.")])))
  end.

(** The record of [POST /upload] whatever the title and the uploader
    name are. *)
Definition metadataEntry_of (name : string) (title uploader : json)
  (type : string) (thumb : json) (uploadedAt : Z) : json :=
  JObj [("filename", JStr name);
        ("videoName", title);
        ("username", uploader);
        ("type", JStr type);
        ("thumbnail", thumb);
        ("uploadedAt", JNum uploadedAt)].

(** [POST /upload] on any request: a title or an uploader name that is an
    array or an object is truthy and goes into the record as it is. *)
Definition POST_upload (c : copy) (req : RawUploadRequest) (now1 now2 : Z)
  : M response :=
  match files_media req with
  | None => ret (mkResponse 400 (Text "No media file uploaded."))
  | Some mediaFile =>
      let type := mediaType mediaFile in
      let name := mediaFilename now1 mediaFile in
      let mediaPath := path_join ["uploads"; type; name] in
      renameSync (path mediaFile) mediaPath ;;
      thumb <-
        match files_thumbnail req with
        | None => ret JNull
        | Some thumbFile =>
            let thumbName := thumbFilename c name thumbFile in
            let thumbPath := path_join ["uploads/thumbnails"; thumbName] in
            renameSync (path thumbFile) thumbPath ;;
            ret (JStr ("/media/thumbnails/" +:+ thumbName))
        end ;;
      let entry :=
        metadataEntry_of name
          (or_value (body_videoName req) (JStr (originalname mediaFile)))
          (or_value (body_username req) (JStr "Unknown"))
          type thumb now2 in
      allMetadata <- readMetadata ;;
      allMetadata <- lift (Array_push allMetadata entry) ;;
      saveMetadata allMetadata ;;
      ret (mkResponse 200
             (Json (JObj [("message", JStr "Upload successful.")])))
  end.

(** [GET /media/:type]. *)
Definition listing (type : string) : M response :=
  if negb ((type =? "videos")%string || (type =? "audios")%string) then
    ret (mkResponse 400 (Json (JObj [("error", JStr "Invalid media type")])))
  else
    all <- readMetadata ;;
    kept <- lift (Array_filter
                    (fun item => rbind (prop item "type") (fun t =>
                                 Ok (is_string t type))) all) ;;
    mediaList <- lift (Array_sort
                         (fun a b =>
                            rbind (prop b "uploadedAt") (fun tb =>
                            rbind (prop a "uploadedAt") (fun ta =>
                            subtract tb ta))) kept) ;;
    ret (mkResponse 200 (Json (JArr mediaList))).

(** The predicate of the search filter, with the short circuits of [&&]
    and [||]. *)
Definition matches (query : string) (item : json) : result bool :=
  rbind (prop item "type") (fun t =>
  if is_string t "videos" then
    rbind (prop item "videoName") (fun vn =>
    rbind (call_toLowerCase vn) (fun title =>
    if includes title query then Ok true
    else
      rbind (prop item "username") (fun un =>
      rbind (call_toLowerCase un) (fun uploader =>
      Ok (includes uploader query)))))
  else Ok false).

(** [GET /media/videos/search?q=...] where [req.query.q] is a string or
    [undefined]. *)
Definition search (q : option string) : M response :=
  let query := trim (toLowerCase (or_default q "")) in
  if negb (truthy query) then ret (mkResponse 200 (Json (JArr [])))
  else
    allMetadata <- readMetadata ;;
    results <- lift (Array_filter (matches query) allMetadata) ;;
    ret (mkResponse 200 (Json (JArr results))).

(** [GET /media/videos/search] whatever [req.query.q] is: the query
    parser makes an array or an object of [?q=a&q=b] or [?q[x]=1], which
    is truthy and has no [toLowerCase]. *)
Definition GET_search (q : option json) : M response :=
  match or_value q (JStr "") with
  | JStr s => search (Some s)
  | _ => throw TypeError
  end.

(** A segment of a URL path that stands for itself, needs no decoding and
    names no dot file: letters, digits, [-], [_] and, after the first
    character, dots. *)
Definition url_plain (c : ascii) : bool :=
  let n := code c in
  (((48 <=? n) && (n <=? 57)) || ((65 <=? n) && (n <=? 90)) ||
   ((97 <=? n) && (n <=? 122)) || (n =? 45) || (n =? 95))%N.

Definition plain_segment (s : string) : bool :=
  match s with
  | EmptyString => false
  | String c rest =>
      url_plain c &&
      forallb (fun x => url_plain x || (x =? ".")%char)
              (list_ascii_of_string rest)
  end.

(** The paths [/media/<rel>] that reach the static mount of [uploads/]
    as they are: two segments or more (one segment is a listing), all
    plain, and not the path of the search, which Express matches in any
    case of its letters. *)
Definition static_rel (rel : string) : bool :=
  (2 <=? length (components rel))%nat &&
  forallb plain_segment (components rel) &&
  negb (toLowerCase rel =? "videos/search")%string.

(** [GET /media/<rel>] for such a path.  The static mount of the front
    end, which is first in line, serves the file of that path if it has
    one; then [express.static] mounted at [/media] serves the file below
    [uploads/]; if there is none the request falls through every route
    and Express answers 404.  Other paths, and what is served for a node
    that may be a directory, are not modelled. *)
Definition serve_media (rel : string) : M response :=
  fun w =>
    if negb (static_rel rel) then (Beyond, w)
    else
      match fs w !! path_join ["../frontend"; "media"; rel] with
      | Some (File b) => (Ok (mkResponse 200 (Bytes b)), w)
      | Some Unreadable => (Beyond, w)
      | None =>
          match fs w !! path_join ["uploads"; rel] with
          | Some (File b) => (Ok (mkResponse 200 (Bytes b)), w)
          | Some Unreadable => (Beyond, w)
          | None =>
              (Ok (mkResponse 404 (ErrorPage ("Cannot GET /media/" +:+ rel))),
               w)
          end
      end.

(** [GET /support].  The message is the text of the source without its
    four characters that lie outside Latin-1 (two emoji, an apostrophe and
    a dash). *)
Definition support : M response :=
  ret (mkResponse 200
         (Json (JObj [("phone", JStr "+250783144083");
                      ("message", JStr " Your support keeps this platform alive and growing! If youve enjoyed the content, consider sending a token of appreciation. Every contribution helps  no matter the size. Thank you! ")]))).

(** [GET /supporters]. *)
Definition supporters : M response :=
  try_catch
    (present <- existsSync supportersFile ;;
     if negb present then ret (mkResponse 200 (Json (JArr [])))
     else
       data <- readFileSync supportersFile ;;
       v <- lift (JSON_parse data) ;;
       ret (mkResponse 200 (Json v)))
    (fun err =>
       console_error "Error reading supporters file:" ;;
       ret (mkResponse 500 (Json (JArr [])))).

(* ================================================================= *)
(** * Part II: the notions of the statements *)
(* ================================================================= *)

(** ** Notions for the round trip of JSON texts *)

(** [number_end rest]: a number literal may stop in front of [rest]. *)
Definition number_end (rest : string) : Prop :=
  span_digits rest = (EmptyString, rest) /\
  starts_fraction_or_exponent rest = false.

(** [blank s]: [s] is white space for the JSON grammar. *)
Fixpoint blank (s : string) : bool :=
  match s with
  | EmptyString => true
  | String c s' => is_ws c && blank s'
  end.

(** [normalize v]: [v] with the members of every object put in property
    order, which is how [JSON.parse] builds it. *)
Fixpoint normalize (v : json) : json :=
  match v with
  | JArr items => JArr (map normalize items)
  | JObj members =>
      JObj (build_object (map (fun m => (fst m, normalize (snd m))) members))
  | _ => v
  end.

(** The fuel that parsing the text of [v] takes. *)
Fixpoint weight (v : json) : nat :=
  match v with
  | JArr items => S (fold_right (fun x n => S (weight x + n)) O items)
  | JObj members =>
      S (fold_right (fun m n => S (weight (snd m) + n)) O members)
  | _ => 1
  end.

(** Induction on a value, with the property at hand for every element of
    an array and every member of an object. *)
Section json_induction.
Variable P : json -> Prop.
Hypothesis Hnull : P JNull.
Hypothesis Hbool : forall b, P (JBool b).
Hypothesis Hnum : forall n, P (JNum n).
Hypothesis Hstr : forall s, P (JStr s).
Hypothesis Harr : forall items, Forall P items -> P (JArr items).
Hypothesis Hobj :
  forall members, Forall (fun m => P (snd m)) members -> P (JObj members).

Fixpoint json_induction (v : json) : P v :=
  match v with
  | JNull => Hnull
  | JBool b => Hbool b
  | JNum n => Hnum n
  | JStr s => Hstr s
  | JArr items =>
      Harr items
        ((fix go (l : list json) : Forall P l :=
            match l with
            | [] => List.Forall_nil P
            | x :: l0 => List.Forall_cons P x l0 (json_induction x) (go l0)
            end) items)
  | JObj members =>
      Hobj members
        ((fix go (l : list (string * json))
            : Forall (fun m => P (snd m)) l :=
            match l with
            | [] => List.Forall_nil _
            | m :: l0 =>
                List.Forall_cons _ m l0 (json_induction (snd m)) (go l0)
            end) members)
  end.
End json_induction.

(** [safe_numbers v]: every number in [v] is a safe integer. *)
Fixpoint safe_numbers (v : json) : bool :=
  match v with
  | JNum n => isSafeInteger n
  | JArr items => forallb safe_numbers items
  | JObj members => forallb (fun m => safe_numbers (snd m)) members
  | _ => true
  end.

(** [round_trips v]: the parser reads the text of [v], at any indentation
    and in front of any text a value may stop at, back as [v] in property
    order. *)
Definition round_trips (v : json) : Prop :=
  forall indent fuel rest,
    blank indent = true ->
    (weight v <= fuel)%nat ->
    number_end rest ->
    parse_value fuel (SerializeJSONProperty indent v +:+ rest)
    = Parsed (normalize v) rest.

(** [precedes k k']: the key [k] may stand before the key [k']. *)
Definition precedes (k k' : string) : bool :=
  match array_index k, array_index k' with
  | Some i, Some j => (i <? j)%N
  | Some _, None => true
  | None, Some _ => false
  | None, None => negb (k =? k')%string
  end.

(** [ordered_keys ks]: every key may stand before all the keys after it. *)
Fixpoint ordered_keys (ks : list string) : bool :=
  match ks with
  | [] => true
  | k :: ks' => forallb (precedes k) ks' && ordered_keys ks'
  end.

(** [canonical v]: [v] is a value as JavaScript holds it: every number is
    a safe integer and every object has its members in property order,
    each key once. *)
Fixpoint canonical (v : json) : bool :=
  match v with
  | JNum n => isSafeInteger n
  | JArr items => forallb canonical items
  | JObj members =>
      ordered_keys (map fst members) &&
      forallb (fun m => canonical (snd m)) members
  | _ => true
  end.

(** ** Notions for the metadata store *)

(** What a JSON document holds: nothing at its path, something whose read
    fails, a text that is not JSON, a value, or a text that is outside
    the model. *)
Inductive document : Type :=
| Absent
| ReadFails
| Malformed
| Holds (v : json)
| Unmodelled.

(** What the document at path [p] holds. *)
Definition document_at (p : string) (w : World) : document :=
  match fs w !! p with
  | None => Absent
  | Some Unreadable => ReadFails
  | Some (File text) =>
      match JSON_parse text with
      | Ok v => Holds v
      | Throw _ => Malformed
      | Beyond => Unmodelled
      end
  end.

(** The collection the store gives for a document. *)
Definition collection_of (d : document) : result json :=
  match d with
  | Holds v => Ok v
  | Unmodelled => Beyond
  | _ => Ok (JArr [])
  end.

(** The collection of the metadata store in the world [w]. *)
Definition collection (w : World) : result json :=
  collection_of (document_at metadataFile w).

(** ** Notions for the upload handler *)

(** The files after [renameSync src dst] has succeeded. *)
Definition renamed (src dst : string) (n : node)
  (files : gmap string node) : gmap string node :=
  <[dst := n]> (delete src files).

(** Where the media file and the thumbnail are moved to. *)
Definition mediaPath (now1 : Z) (f : UploadedFile) : string :=
  path_join ["uploads"; mediaType f; mediaFilename now1 f].

Definition thumbPath (c : copy) (now1 : Z) (f tf : UploadedFile) : string :=
  path_join ["uploads/thumbnails";
             thumbFilename c (mediaFilename now1 f) tf].

(** The value of the [thumbnail] field of the new record. *)
Definition thumbnail_field (c : copy) (now1 : Z) (f : UploadedFile)
  (thumb : option UploadedFile) : json :=
  match thumb with
  | None => JNull
  | Some tf =>
      JStr ("/media/thumbnails/" +:+
            thumbFilename c (mediaFilename now1 f) tf)
  end.

(** The record the upload handler appends. *)
Definition new_entry (c : copy) (req : UploadRequest) (f : UploadedFile)
  (now1 now2 : Z) : json :=
  metadataEntry (mediaFilename now1 f)
    (or_default (videoName req) (originalname f))
    (or_default (username req) "Unknown")
    (mediaType f)
    (thumbnail_field c now1 f (thumbnail req))
    now2.

(** [takes files src dst n]: [renameSync src dst] moves the node [n] of
    [src] among [files]: the paths hold no null character, the
    destination fits, and neither end may be a directory in the way. *)
Definition takes (files : gmap string node) (src dst : string) (n : node)
  : bool :=
  negb (has_nul src || has_nul dst) && path_fits dst &&
  match files !! dst, n with
  | Some Unreadable, _ => false
  | Some (File _), Unreadable => false
  | _, _ => true
  end.

(** The files once the media file, and the thumbnail if there is one,
    have been moved. *)
Definition files_moved (c : copy) (req : UploadRequest) (f : UploadedFile)
  (now1 : Z) (staged : node) (files : gmap string node)
  : option (gmap string node) :=
  if takes files (path f) (mediaPath now1 f) staged then
    let files1 := renamed (path f) (mediaPath now1 f) staged files in
    match thumbnail req with
    | None => Some files1
    | Some tf =>
        match files1 !! path tf with
        | Some n =>
            if takes files1 (path tf) (thumbPath c now1 f tf) n
            then Some (renamed (path tf) (thumbPath c now1 f tf) n files1)
            else None
        | None => None
        end
    end
  else None.

(** ** Notions for media records, listing and search *)

(** The value of the field [k] of a record, if it has one. *)
Definition field (k : string) (v : json) : option json :=
  match v with
  | JObj ms => assoc k ms
  | _ => None
  end.

Definition is_text (x : option json) : bool :=
  match x with Some (JStr _) => true | _ => false end.

Definition is_number (x : option json) : bool :=
  match x with Some (JNum _) => true | _ => false end.

Definition is_text_or_null (x : option json) : bool :=
  match x with Some (JStr _) => true | Some JNull => true | _ => false end.

(** A media record of the data model: an object whose file name, title,
    uploader name and kind are strings, whose thumbnail path is a string or
    null and whose upload time is a number. *)
Definition media_record (v : json) : bool :=
  match v with
  | JObj _ =>
      is_text (field "filename" v) && is_text (field "videoName" v) &&
      is_text (field "username" v) && is_text (field "type" v) &&
      is_text_or_null (field "thumbnail" v) &&
      is_number (field "uploadedAt" v)
  | _ => false
  end.

Definition text_of (x : option json) : string :=
  match x with Some (JStr s) => s | _ => "" end.

Definition kind_of (v : json) : string := text_of (field "type" v).
Definition title_of (v : json) : string := text_of (field "videoName" v).
Definition uploader_of (v : json) : string := text_of (field "username" v).

Definition uploadedAt_of (v : json) : Z :=
  match field "uploadedAt" v with Some (JNum t) => t | _ => 0 end.

(** [newer_first]: upload times never increase along the list. *)
Definition newer_first (l : list json) : Prop :=
  StronglySorted (fun a b => uploadedAt_of b <= uploadedAt_of a) l.

(** The filter and the sort of the listing handler on media records. *)
Definition of_kind (type : string) (r : json) : bool :=
  (kind_of r =? type)%string.

Fixpoint insert_newer (x : json) (l : list json) : list json :=
  match l with
  | [] => [x]
  | y :: l' =>
      if 0 <? uploadedAt_of y - uploadedAt_of x
      then y :: insert_newer x l' else x :: l
  end.

Definition sort_newer (l : list json) : list json :=
  fold_right insert_newer [] l.

Definition compare_uploadedAt (a b : json) : result Z :=
  rbind (prop b "uploadedAt") (fun tb =>
  rbind (prop a "uploadedAt") (fun ta => subtract tb ta)).

(** The query as the handler uses it. *)
Definition normalized (q : option string) : string :=
  trim (toLowerCase (or_default q "")).

(** [contains_ci hay needle]: some substring of [hay] is [needle] up to
    the case of its letters. *)
Definition contains_ci (hay needle : string) : Prop :=
  exists pre mid post,
    hay = pre +:+ mid +:+ post /\ toLowerCase mid = toLowerCase needle.

(** The search filter on a media record. *)
Definition found (query : string) (r : json) : bool :=
  of_kind "videos" r &&
  (includes (toLowerCase (title_of r)) query ||
   includes (toLowerCase (uploader_of r)) query).

(** ** Search, in the words of the specification

    What a blank query, the query without the white space around it, and
    an occurrence up to case are, said without the functions the handler
    calls. *)

(** White space: TAB, LF, VT, FF, CR, SPACE and NO-BREAK SPACE. *)
Definition whitespace (c : ascii) : bool :=
  existsb (fun n => (code c =? n)%N) [9; 10; 11; 12; 13; 32; 160]%N.

Definition all_whitespace (s : string) : bool :=
  forallb whitespace (list_ascii_of_string s).

Definition begins_blank (s : string) : bool :=
  match s with
  | String c _ => whitespace c
  | EmptyString => false
  end.

Fixpoint ends_blank (s : string) : bool :=
  match s with
  | EmptyString => false
  | String c EmptyString => whitespace c
  | String _ s' => ends_blank s'
  end.

(** [trimmed q core]: [core] is [q] without the white space at its two
    ends. *)
Definition trimmed (q core : string) : Prop :=
  exists pre post,
    q = pre +:+ core +:+ post /\
    all_whitespace pre = true /\ all_whitespace post = true /\
    begins_blank core = false /\ ends_blank core = false.

(** One letter in its two cases: a capital of Latin-1 (A to Z, and
    U+00C0 to U+00DE but for the multiplication sign) and the character
    32 places after it. *)
Definition cases_of (capital small : ascii) : bool :=
  let u := code capital in
  ((code small =? u + 32) &&
   (((65 <=? u) && (u <=? 90)) ||
    ((192 <=? u) && (u <=? 222) && negb (u =? 215))))%N.

Definition same_letter (a b : ascii) : bool :=
  (a =? b)%char || cases_of a b || cases_of b a.

(** The same text up to the case of its letters. *)
Fixpoint same_text (a b : string) : bool :=
  match a, b with
  | EmptyString, EmptyString => true
  | String x a', String y b' => same_letter x y && same_text a' b'
  | _, _ => false
  end.

(** [occurs hay needle]: [needle] stands somewhere in [hay], up to the
    case of the letters. *)
Definition occurs (hay needle : string) : Prop :=
  exists pre mid post,
    hay = pre +:+ mid +:+ post /\ same_text mid needle = true.

(** Every character. *)
Definition all_ascii : list ascii := map ascii_of_nat (seq 0 256).

(** ** Notions for the scan of a path *)

(** A character that is neither a slash nor a dot. *)
Definition plain (c : ascii) : bool :=
  negb (c =? "/")%char && negb (c =? ".")%char.

(** A string as the list of its characters, and back. *)
Definition sol := string_of_list_ascii.
Definition los := list_ascii_of_string.

(** [mark i st]: the state once a character of the last component has
    been met at index [i]: the component ends at [i + 1] unless its end is
    known already. *)
Definition mark (i : Z) (st : scan) : scan :=
  if endPos st =? -1
  then mkScan (startDot st) (startPart st) (i + 1) false (preDotState st)
  else st.

(** What the scan knows at index [i], [scanned] being the characters
    behind it: where the last component ends, and where its last dot is. *)
Definition ext_inv (st : scan) (scanned : list ascii) (i : Z) : Prop :=
  (endPos st = -1 -> startDot st = -1 /\ matchedSlash st = true) /\
  (endPos st <> -1 ->
   matchedSlash st = false /\
   exists u z,
     scanned = u ++ z /\
     endPos st = i + 1 + Z.of_nat (length u) /\
     (startDot st = -1 -> forallb plain u = true) /\
     (startDot st <> -1 ->
      exists a t,
        u = a ++ "."%char :: t /\ forallb plain t = true /\
        startDot st = i + 1 + Z.of_nat (length a))).

(** ** Concrete worlds and requests *)

(** Two staged files, no metadata document yet. *)
Definition staged_world : World :=
  mkWorld (<["uploads/temp/3f2a" := File "MP4 bytes"]>
             (<["uploads/temp/9c41" := File "PNG bytes"]> ∅)) [].

Definition clip : UploadedFile :=
  mkUploadedFile "clip.mp4" "video/mp4" "3f2a".

Definition picture : UploadedFile :=
  mkUploadedFile "pic.png" "image/png" "9c41".

Definition clip_request : UploadRequest :=
  mkUploadRequest (Some clip) (Some picture) (Some "Sunset Drive") None.

Definition upload_successful : response :=
  mkResponse 200 (Json (JObj [("message", JStr "Upload successful.")])).

(** A store of three videos uploaded at 100, 300 and 200, and one audio. *)
Definition library : list json :=
  [metadataEntry "100.mp4" "Sunset Drive" "Ana" "videos" JNull 100;
   metadataEntry "300.mp4" "Night Walk" "Ben" "videos" JNull 300;
   metadataEntry "150.mp3" "Drive Time Radio" "Ana" "audios" JNull 150;
   metadataEntry "200.mp4" "Morning Run" "Sundriver" "videos" JNull 200].

Definition library_world : World :=
  snd (saveMetadata (JArr library) (mkWorld ∅ [])).

(** A store whose document is valid JSON but holds no media record. *)
Definition null_item_world : World :=
  mkWorld (<[metadataFile := File "[null]"]> ∅) [].

(** The library, with the clip and the picture staged. *)
Definition library_staged_world : World :=
  mkWorld (<["uploads/temp/3f2a" := File "MP4 bytes"]>
             (<["uploads/temp/9c41" := File "PNG bytes"]> (fs library_world)))
          [].

(** The document [[null]], with the clip and the picture staged. *)
Definition null_store_staged_world : World :=
  mkWorld (<[metadataFile := File "[null]"]> (fs staged_world)) [].

(** A store of three videos, two of them uploaded at the same time with
    a later one between them. *)
Definition tied_library : list json :=
  [metadataEntry "200.mp4" "Sunset Drive" "Ana" "videos" JNull 200;
   metadataEntry "300.mp4" "Night Walk" "Ben" "videos" JNull 300;
   metadataEntry "200.mov" "Morning Run" "Ben" "videos" JNull 200].

Definition tied_world : World :=
  snd (saveMetadata (JArr tied_library) (mkWorld ∅ [])).

(** An upload whose title field is present but empty. *)
Definition untitled_request : UploadRequest :=
  mkUploadRequest (Some clip) None (Some "") (Some "Ana").

(** ** Notions for the files of an upload *)

(** [no_slash s]: no character of [s] is a slash. *)
Definition no_slash (s : string) : bool :=
  forallb (fun c => negb (c =? "/")%char) (los s).

(** The file name a record gives. *)
Definition filename_of (v : json) : string := text_of (field "filename" v).

(** The part of the URL [/media/<rel>] that [express.static] resolves
    below [uploads/], for the media file of a record. *)
Definition media_rel (r : json) : string :=
  kind_of r +:+ "/" +:+ filename_of r.

(** The records of [l] uploaded at [t], in the order of [l]. *)
Definition uploaded_at (t : Z) (l : list json) : list json :=
  List.filter (fun r => uploadedAt_of r =? t) l.

(** ** More concrete worlds and requests *)

(** An upload of the clip alone. *)
Definition clip_alone : UploadRequest :=
  mkUploadRequest (Some clip) None (Some "Sunset Drive") (Some "Ana").

(** The clip is staged, the picture is not. *)
Definition clip_staged_world : World :=
  mkWorld (<["uploads/temp/3f2a" := File "MP4 bytes"]> ∅) [].

(** The metadata document is an object, not an array. *)
Definition object_store_world : World :=
  mkWorld (<[metadataFile := File "{}"]>
             (<["uploads/temp/3f2a" := File "MP4 bytes"]> ∅)) [].

(** The metadata document is cut short. *)
Definition corrupt_store_world : World :=
  mkWorld (<[metadataFile := File "[{"]>
             (<["uploads/temp/3f2a" := File "MP4 bytes"]> ∅)) [].

(** A song, staged, and its upload without a thumbnail. *)
Definition song : UploadedFile :=
  mkUploadedFile "song.mp3" "audio/mpeg" "77b0".

Definition song_request : UploadRequest :=
  mkUploadRequest (Some song) None (Some "Harbour Lights") (Some "Ben").

Definition song_staged_world : World :=
  mkWorld (<["uploads/temp/77b0" := File "MP3 bytes"]> ∅) [].

(** A second clip with the extension of the first. *)
Definition trailer : UploadedFile :=
  mkUploadedFile "trailer.mp4" "video/mp4" "5d1e".

Definition trailer_request : UploadRequest :=
  mkUploadRequest (Some trailer) None (Some "Trailer") (Some "Ben").

Definition two_staged_world : World :=
  mkWorld (<["uploads/temp/3f2a" := File "MP4 bytes"]>
             (<["uploads/temp/5d1e" := File "trailer bytes"]> ∅)) [].

(** A store with a video record that has no title. *)
Definition untitled_store_world : World :=
  mkWorld (<[metadataFile :=
               File (JSON_stringify (JArr [JObj [("type", JStr "videos")]]))]>
             ∅) [].

(** ** Notions for the store as uploads keep it *)

(** [valid_kind r]: the kind of [r] is one of the two the server files
    media under. *)
Definition valid_kind (r : json) : bool :=
  of_kind "videos" r || of_kind "audios" r.

(** [well_kept w]: the store of [w] gives an array of media records, each
    of a valid kind. *)
Definition well_kept (w : World) : Prop :=
  exists records,
    collection w = Ok (JArr records) /\
    forallb media_record records = true /\
    forallb valid_kind records = true.

(* ================================================================= *)
(** * Part III: properties *)
(* ================================================================= *)

(** ** Strings *)

Lemma append_assoc (a b c : string) : (a +:+ b) +:+ c = a +:+ (b +:+ c).
Proof. induction a as [|x a IH]; simpl; [reflexivity | now rewrite IH]. Qed.

Lemma append_nil_r (a : string) : a +:+ "" = a.
Proof. induction a as [|x a IH]; simpl; [reflexivity | now rewrite IH]. Qed.

Lemma length_append (a b : string) :
  String.length (a +:+ b) = (String.length a + String.length b)%nat.
Proof. induction a as [|x a IH]; simpl; [reflexivity | now rewrite IH]. Qed.

(** ** Numbers: reading back what [Number_toString] prints *)

Lemma span_digits_uint (d : Decimal.uint) (rest : string) :
  span_digits rest = (EmptyString, rest) ->
  span_digits (NilEmpty.string_of_uint d +:+ rest)
  = (NilEmpty.string_of_uint d, rest).
Proof.
  intros Hrest. induction d; simpl; try rewrite IHd; auto.
Qed.

Lemma to_uint_unorm (p : positive) :
  Decimal.unorm (Pos.to_uint p) = Pos.to_uint p.
Proof.
  rewrite <- (DecimalPos.Unsigned.to_of (Pos.to_uint p)).
  now rewrite DecimalPos.Unsigned.of_to.
Qed.

Lemma to_uint_no_leading_zero (p : positive) (u : Decimal.uint) :
  Pos.to_uint p <> Decimal.D0 u.
Proof.
  intros H. pose proof (to_uint_unorm p) as Hn. rewrite H in Hn.
  unfold Decimal.unorm in Hn. simpl in Hn.
  pose proof (nb_digits_nzhead u) as Hle.
  destruct (Decimal.nzhead u) eqn:E.
  - injection Hn as <-. now apply (DecimalPos.Unsigned.to_uint_nonzero p).
  - rewrite Hn in Hle. simpl in Hle. lia.
  - discriminate Hn.
  - discriminate Hn.
  - discriminate Hn.
  - discriminate Hn.
  - discriminate Hn.
  - discriminate Hn.
  - discriminate Hn.
  - discriminate Hn.
  - discriminate Hn.
Qed.

Lemma parse_digits_uint (neg : bool) (d : Decimal.uint) (rest : string) :
  number_end rest ->
  d <> Decimal.Nil ->
  (forall u, d <> Decimal.D0 u) ->
  isSafeInteger (Z.of_N (N.of_uint d)) = true ->
  parse_digits neg (NilEmpty.string_of_uint d +:+ rest)
  = Parsed (if neg then - Z.of_N (N.of_uint d) else Z.of_N (N.of_uint d))
           rest.
Proof.
  intros [Hspan Hfrac] Hnil Hz Hsafe. unfold parse_digits.
  rewrite (span_digits_uint _ _ Hspan).
  pose proof (NilZero.usu d Hnil) as Husu.
  destruct d as [|u|u|u|u|u|u|u|u|u|u];
    try congruence; try (exfalso; now apply (Hz u));
    unfold NilZero.string_of_uint in Husu;
    cbn [NilEmpty.string_of_uint Ascii.eqb Bool.eqb andb negb];
    rewrite Hfrac;
    cbn [NilEmpty.string_of_uint] in Husu; rewrite Husu;
    cbv zeta; rewrite Hsafe; reflexivity.
Qed.

Lemma parse_digits_pos (neg : bool) (p : positive) (rest : string) :
  number_end rest ->
  isSafeInteger (Zpos p) = true ->
  parse_digits neg (digits_of_N (Npos p) +:+ rest)
  = Parsed (if neg then Zneg p else Zpos p) rest.
Proof.
  intros Hend Hsafe. unfold digits_of_N. simpl N.to_uint.
  pose proof (DecimalPos.Unsigned.to_uint_nonnil p) as Hnil.
  replace (NilZero.string_of_uint (Pos.to_uint p))
    with (NilEmpty.string_of_uint (Pos.to_uint p))
    by (destruct (Pos.to_uint p); (reflexivity || congruence)).
  assert (Hp : Z.of_N (N.of_uint (Pos.to_uint p)) = Zpos p).
  { unfold N.of_uint. now rewrite DecimalPos.Unsigned.of_to. }
  rewrite parse_digits_uint; auto using to_uint_no_leading_zero.
  - now rewrite Hp.
  - now rewrite Hp.
Qed.

Lemma parse_digits_zero (rest : string) :
  number_end rest ->
  parse_digits false (String "0" rest) = Parsed 0 rest.
Proof.
  intros [Hspan Hfrac]. unfold parse_digits. simpl. rewrite Hspan.
  simpl. rewrite Hfrac. reflexivity.
Qed.

Lemma digits_head (p : positive) :
  exists c r, digits_of_N (Npos p) = String c r /\ is_digit c = true.
Proof.
  unfold digits_of_N. simpl N.to_uint.
  pose proof (DecimalPos.Unsigned.to_uint_nonnil p) as Hnil.
  destruct (Pos.to_uint p); try congruence; simpl; eauto.
Qed.

Lemma parse_number_toString (z : Z) (rest : string) :
  number_end rest ->
  isSafeInteger z = true ->
  parse_number (Number_toString z +:+ rest) = Parsed z rest.
Proof.
  intros Hend Hsafe. destruct z as [|p|p]; simpl.
  - now apply parse_digits_zero.
  - destruct (digits_head p) as (c & r & E & Hc).
    pose proof (parse_digits_pos false p rest Hend Hsafe) as H.
    rewrite E in *. simpl.
    destruct (Ascii.eqb_spec c "-") as [->|_]; [discriminate Hc | exact H].
  - apply (parse_digits_pos true); [exact Hend|].
    revert Hsafe. unfold isSafeInteger, MAX_SAFE_INTEGER.
    rewrite !andb_true_iff, !Z.leb_le. lia.
Qed.

(** A number the parser returns is a safe integer. *)
Lemma parse_digits_safe (neg : bool) (s : string) (n : Z) (r : string) :
  parse_digits neg s = Parsed n r -> isSafeInteger n = true.
Proof.
  unfold parse_digits. destruct (span_digits s) as [ds r'].
  destruct ds as [|c more]; [discriminate|].
  destruct (_ && _); [discriminate|].
  destruct (starts_fraction_or_exponent r'); [discriminate|].
  destruct (NilZero.uint_of_string _) as [d|]; [|discriminate].
  cbv zeta. destruct (isSafeInteger _) eqn:E; [|discriminate].
  intros [= <- _]. destruct neg; [|exact E].
  revert E. unfold isSafeInteger, MAX_SAFE_INTEGER.
  rewrite !andb_true_iff, !Z.leb_le. lia.
Qed.

Lemma parse_number_safe (s : string) (n : Z) (r : string) :
  parse_number s = Parsed n r -> isSafeInteger n = true.
Proof.
  unfold parse_number. destruct s as [|c s]; [discriminate|].
  destruct (c =? "-")%char; apply parse_digits_safe.
Qed.

Lemma time_value_safe (t : Z) :
  time_value t = true -> isSafeInteger t = true.
Proof.
  unfold time_value, isSafeInteger, MAX_SAFE_INTEGER.
  rewrite !andb_true_iff, !Z.leb_le. lia.
Qed.

(** ** Strings: reading back what [QuoteJSONString] prints *)

Lemma parse_chars_quote_char (c : ascii) (tail : string) :
  parse_chars (quote_char c +:+ tail) = cons_char c (parse_chars tail).
Proof.
  destruct c as [[] [] [] [] [] [] [] []]; reflexivity.
Qed.

Lemma parse_chars_quote_chars (s rest : string) :
  parse_chars (quote_chars s +:+ String QUOTE rest) = Parsed s rest.
Proof.
  induction s as [|c s IH]; simpl.
  - reflexivity.
  - rewrite append_assoc, parse_chars_quote_char, IH. reflexivity.
Qed.

(** ** White space *)

Lemma skip_ws_blank (s r : string) :
  blank s = true -> skip_ws (s +:+ r) = skip_ws r.
Proof.
  induction s as [|c s IH]; simpl; [reflexivity|].
  intros H. apply andb_prop in H as [Hc Hs]. rewrite Hc. auto.
Qed.

Lemma blank_app (a b : string) :
  blank a = true -> blank b = true -> blank (a +:+ b) = true.
Proof.
  induction a as [|c a IH]; simpl; [auto|].
  intros H Hb. apply andb_prop in H as [Hc Ha]. rewrite Hc. simpl. auto.
Qed.

Lemma skip_ws_idem (s : string) : skip_ws (skip_ws s) = skip_ws s.
Proof.
  induction s as [|c s IH]; simpl; [reflexivity|].
  destruct (is_ws c) eqn:E; [exact IH | simpl; now rewrite E].
Qed.

Lemma parse_value_skip_ws (fuel : nat) (s : string) :
  parse_value fuel (skip_ws s) = parse_value fuel s.
Proof. destruct fuel; simpl; [reflexivity | now rewrite skip_ws_idem]. Qed.

Lemma parse_members_skip_ws (fuel : nat) (s : string) :
  parse_members fuel (skip_ws s) = parse_members fuel s.
Proof. destruct fuel; simpl; [reflexivity | now rewrite skip_ws_idem]. Qed.

Lemma parse_elements_skip_ws (fuel : nat) (s : string) :
  parse_elements fuel (skip_ws s) = parse_elements fuel s.
Proof.
  destruct fuel; simpl; [reflexivity | now rewrite parse_value_skip_ws].
Qed.

(** ** Values: reading back what [JSON.stringify] prints *)

(** The text of a value starts with a character that is not white space. *)
Lemma number_head (z : Z) :
  exists c r, Number_toString z = String c r /\
              (is_digit c = true \/ c = "-"%char).
Proof.
  destruct z as [|p|p]; simpl.
  - exists "0"%char, EmptyString. auto.
  - destruct (digits_head p) as (c & r & E & Hc). eauto.
  - eauto.
Qed.

Lemma parse_value_number (fuel : nat) (c : ascii) (r : string) :
  is_digit c = true \/ c = "-"%char ->
  parse_value (S fuel) (String c r)
  = pbind (parse_number (String c r)) (fun n r' => Parsed (JNum n) r').
Proof.
  intros [H | ->]; [|reflexivity].
  destruct c as [[] [] [] [] [] [] [] []]; try discriminate H; reflexivity.
Qed.

Lemma number_end_comma (r : string) : number_end (String "," r).
Proof. split; reflexivity. Qed.

Lemma number_end_newline (r : string) : number_end (String LF r).
Proof. split; reflexivity. Qed.

Lemma number_end_empty : number_end "".
Proof. split; reflexivity. Qed.

Lemma blank_gap (indent : string) :
  blank indent = true -> blank (indent +:+ gap) = true.
Proof. intros H. now apply blank_app. Qed.

Lemma blank_newline (indent : string) :
  blank indent = true -> blank (NL +:+ indent) = true.
Proof. intros H. simpl. exact H. Qed.

Lemma parse_value_blank (fuel : nat) (b s : string) :
  blank b = true -> parse_value fuel (b +:+ s) = parse_value fuel s.
Proof.
  intros H. rewrite <- parse_value_skip_ws, (skip_ws_blank _ _ H).
  apply parse_value_skip_ws.
Qed.

Lemma parse_elements_blank (fuel : nat) (b s : string) :
  blank b = true -> parse_elements fuel (b +:+ s) = parse_elements fuel s.
Proof.
  intros H. rewrite <- parse_elements_skip_ws, (skip_ws_blank _ _ H).
  apply parse_elements_skip_ws.
Qed.

Lemma parse_members_blank (fuel : nat) (b s : string) :
  blank b = true -> parse_members fuel (b +:+ s) = parse_members fuel s.
Proof.
  intros H. rewrite <- parse_members_skip_ws, (skip_ws_blank _ _ H).
  apply parse_members_skip_ws.
Qed.

Lemma join_cons2 (sep p q : string) (ps : list string) :
  join sep (p :: q :: ps) = p +:+ sep +:+ join sep (q :: ps).
Proof. reflexivity. Qed.

Lemma separator_app (indent t : string) :
  separator indent +:+ t = String "," (String LF indent +:+ t).
Proof. unfold separator. now rewrite !append_assoc. Qed.

Lemma parse_elements_print (items : list json) :
  Forall round_trips items ->
  forall x indent stepback fuel rest,
    round_trips x ->
    blank indent = true -> blank stepback = true ->
    (fold_right (fun x n => S (weight x + n)) O (x :: items) <= fuel)%nat ->
    parse_elements fuel
      (join (separator indent)
            (map (SerializeJSONProperty indent) (x :: items))
       +:+ NL +:+ stepback +:+ String "]" rest)
    = Parsed (map normalize (x :: items)) rest.
Proof.
  induction 1 as [|y items Hy Hitems IH];
    intros x indent stepback fuel rest Hx Hind Hstep Hfuel.
  - destruct fuel as [|fuel]; [simpl in Hfuel; lia|].
    simpl in Hfuel. cbn [map join parse_elements].
    rewrite (Hx indent fuel _ Hind); [|lia|apply number_end_newline].
    cbn [pbind]. rewrite <- append_assoc.
    rewrite (skip_ws_blank (NL +:+ stepback) _ (blank_newline _ Hstep)).
    reflexivity.
  - destruct fuel as [|fuel]; [simpl in Hfuel; lia|].
    cbn [fold_right] in Hfuel.
    cbn [map]. rewrite join_cons2, append_assoc, append_assoc, separator_app.
    cbn [parse_elements].
    rewrite (Hx indent fuel _ Hind); [|lia|apply number_end_comma].
    cbn [pbind skip_ws is_ws Ascii.eqb Bool.eqb orb].
    rewrite (parse_elements_blank fuel (String LF indent));
      [|exact (blank_newline _ Hind)].
    change (SerializeJSONProperty indent y
            :: map (SerializeJSONProperty indent) items)
      with (map (SerializeJSONProperty indent) (y :: items)).
    rewrite (IH y indent stepback fuel rest Hy Hind Hstep);
      [reflexivity|cbn [fold_right]; lia].
Qed.

Lemma member_app (k value t : string) :
  member k value +:+ t
  = String QUOTE (quote_chars k +:+
                  String QUOTE (String ":" (String " " (value +:+ t)))).
Proof.
  unfold member, QuoteJSONString. simpl.
  now rewrite !append_assoc.
Qed.

Lemma parse_value_space (fuel : nat) (s : string) :
  parse_value fuel (String " " s) = parse_value fuel s.
Proof. exact (parse_value_blank fuel " " s eq_refl). Qed.

Lemma parse_members_print (members : list (string * json)) :
  Forall (fun m => round_trips (snd m)) members ->
  forall m indent stepback fuel rest,
    round_trips (snd m) ->
    blank indent = true -> blank stepback = true ->
    (fold_right (fun m n => S (weight (snd m) + n)) O (m :: members)
     <= fuel)%nat ->
    parse_members fuel
      (join (separator indent)
            (map (fun m => member (fst m)
                             (SerializeJSONProperty indent (snd m)))
                 (m :: members))
       +:+ NL +:+ stepback +:+ String "}" rest)
    = Parsed (map (fun m => (fst m, normalize (snd m))) (m :: members)) rest.
Proof.
  induction 1 as [|y members Hy Hmembers IH];
    intros [k v] indent stepback fuel rest Hx Hind Hstep Hfuel;
    simpl in Hx.
  - destruct fuel as [|fuel]; [simpl in Hfuel; lia|].
    simpl in Hfuel. cbn [map join fst snd]. rewrite member_app.
    cbn [parse_members skip_ws is_ws QUOTE Ascii.eqb Bool.eqb orb].
    fold QUOTE. rewrite parse_chars_quote_chars.
    cbn [pbind skip_ws is_ws Ascii.eqb Bool.eqb orb].
    rewrite parse_value_space.
    rewrite (Hx indent fuel _ Hind); [|lia|apply number_end_newline].
    cbn [pbind]. rewrite <- append_assoc.
    rewrite (skip_ws_blank (NL +:+ stepback) _ (blank_newline _ Hstep)).
    reflexivity.
  - destruct fuel as [|fuel]; [simpl in Hfuel; lia|].
    cbn [fold_right snd] in Hfuel.
    cbn [map fst snd].
    rewrite join_cons2, append_assoc, append_assoc, separator_app, member_app.
    cbn [parse_members skip_ws is_ws QUOTE Ascii.eqb Bool.eqb orb].
    fold QUOTE. rewrite parse_chars_quote_chars.
    cbn [pbind skip_ws is_ws Ascii.eqb Bool.eqb orb].
    rewrite parse_value_space.
    rewrite (Hx indent fuel _ Hind); [|lia|apply number_end_comma].
    cbn [pbind skip_ws is_ws Ascii.eqb Bool.eqb orb].
    rewrite (parse_members_blank fuel (String LF indent));
      [|exact (blank_newline _ Hind)].
    change (member (fst y) (SerializeJSONProperty indent (snd y))
            :: map (fun m => member (fst m)
                               (SerializeJSONProperty indent (snd m)))
                   members)
      with (map (fun m => member (fst m)
                            (SerializeJSONProperty indent (snd m)))
                (y :: members)).
    rewrite (IH y indent stepback fuel rest Hy Hind Hstep);
      [reflexivity|cbn [fold_right]; lia].
Qed.

(** The text of a value starts with a character that is neither white
    space nor a closing bracket. *)
Lemma print_head (indent : string) (v : json) :
  exists c r, SerializeJSONProperty indent v = String c r /\
              is_ws c = false /\ (c =? "]")%char = false.
Proof.
  destruct v as [|[]|n|s|[|x items]|[|m members]];
    try (eexists _, _; split; [reflexivity | split; reflexivity]).
  destruct (number_head n) as (c & r & E & Hc). exists c, r.
  split; [exact E|].
  destruct Hc as [Hc | ->]; [|split; reflexivity].
  destruct c as [[] [] [] [] [] [] [] []]; try discriminate Hc;
    split; reflexivity.
Qed.

Lemma Forall_safe {A} (P : A -> Prop) (safe : A -> bool) (l : list A) :
  Forall (fun x => safe x = true -> P x) l ->
  forallb safe l = true ->
  Forall P l.
Proof.
  induction 1 as [|x l Hx _ IH]; simpl; [constructor|].
  rewrite andb_true_iff. intros [H1 H2]. constructor; auto.
Qed.

(** The parser reads back what [JSON.stringify] prints. *)
Theorem parse_value_print (v : json) :
  safe_numbers v = true -> round_trips v.
Proof.
  induction v as [| b | n | s | items IH | members IH] using json_induction;
    intros Hsafe; cbn [safe_numbers] in Hsafe;
    try apply (Forall_safe _ _ _ IH) in Hsafe; try rename Hsafe into IH';
    intros indent fuel rest Hind Hfuel Hend;
    (destruct fuel as [|fuel]; [simpl in Hfuel; lia|]).
  - reflexivity.
  - destruct b; reflexivity.
  - cbn [SerializeJSONProperty normalize].
    destruct (number_head n) as (c & r & E & Hc).
    pose proof (parse_number_toString n rest Hend IH') as Hn.
    rewrite E in *. change (String c r +:+ rest) with (String c (r +:+ rest)) in *.
    assert (Hws : is_ws c = false).
    { destruct Hc as [Hc | ->]; [|reflexivity].
      destruct c as [[] [] [] [] [] [] [] []]; try discriminate Hc;
        reflexivity. }
    replace (parse_value (S fuel) (String c (r +:+ rest)))
      with (parse_value (S fuel) (skip_ws (String c (r +:+ rest))))
      by apply parse_value_skip_ws.
    cbn [skip_ws]. rewrite Hws.
    rewrite (parse_value_number _ _ _ Hc), Hn. reflexivity.
  - cbn [SerializeJSONProperty normalize]. unfold QuoteJSONString.
    change (String QUOTE ?a +:+ rest) with (String QUOTE (a +:+ rest)).
    rewrite append_assoc.
    cbn [parse_value skip_ws is_ws QUOTE Ascii.eqb Bool.eqb orb].
    fold QUOTE.
    change (String QUOTE "" +:+ rest) with (String QUOTE rest).
    rewrite parse_chars_quote_chars. reflexivity.
  - clear IH. destruct IH' as [|x items Hx Hitems]; [reflexivity|].
    cbn [SerializeJSONProperty normalize].
    assert (Hind' : blank (indent +:+ gap) = true) by now apply blank_gap.
    set (ind' := indent +:+ gap) in *.
    rewrite !append_assoc.
    change ("[" +:+ ?a) with (String "[" a).
    change ("]" +:+ rest) with (String "]" rest).
    cbn [parse_value skip_ws is_ws QUOTE Ascii.eqb Bool.eqb orb].
    rewrite <- (append_assoc NL ind').
    rewrite (skip_ws_blank (NL +:+ ind')); [|now apply blank_newline].
    rewrite (parse_elements_blank fuel (NL +:+ ind'));
      [|now apply blank_newline].
    destruct (print_head ind' x) as (c & r & E & Hws & Hc).
    assert (Hskip : exists r',
      skip_ws (join (separator ind')
                 (map (SerializeJSONProperty ind') (x :: items))
               +:+ NL +:+ indent +:+ String "]" rest) = String c r').
    { destruct items as [|y items'].
      - cbn [map join]. rewrite E. cbn [String.append skip_ws].
        rewrite Hws. eauto.
      - cbn [map]. rewrite join_cons2, E.
        cbn [String.append skip_ws]. rewrite Hws. eauto. }
    destruct Hskip as [r' ->]. rewrite Hc.
    rewrite (parse_elements_print items Hitems x); auto.
    simpl in Hfuel. simpl. lia.
  - clear IH. destruct IH' as [|m members Hm Hmembers]; [reflexivity|].
    cbn [SerializeJSONProperty normalize].
    assert (Hind' : blank (indent +:+ gap) = true) by now apply blank_gap.
    set (ind' := indent +:+ gap) in *.
    rewrite !append_assoc.
    change ("{" +:+ ?a) with (String "{" a).
    change ("}" +:+ rest) with (String "}" rest).
    cbn [parse_value skip_ws is_ws QUOTE Ascii.eqb Bool.eqb orb].
    rewrite <- (append_assoc NL ind').
    rewrite (skip_ws_blank (NL +:+ ind')); [|now apply blank_newline].
    rewrite (parse_members_blank fuel (NL +:+ ind'));
      [|now apply blank_newline].
    assert (Hskip : exists r',
      skip_ws (join (separator ind')
                 (map (fun m => member (fst m)
                         (SerializeJSONProperty ind' (snd m)))
                      (m :: members))
               +:+ NL +:+ indent +:+ String "}" rest) = String QUOTE r').
    { destruct members as [|y members'].
      - cbn [map join]. rewrite member_app.
        cbn [skip_ws is_ws QUOTE Ascii.eqb Bool.eqb orb]. eauto.
      - cbn [map]. rewrite join_cons2, append_assoc, member_app.
        cbn [skip_ws is_ws QUOTE Ascii.eqb Bool.eqb orb]. eauto. }
    destruct Hskip as [r' ->].
    cbn [QUOTE Ascii.eqb Bool.eqb].
    rewrite (parse_members_print members Hmembers m); auto.
    simpl in Hfuel. simpl. lia.
Qed.

(** *** Enough fuel *)

Lemma weights_join {A : Type} (w : A -> nat) (f : A -> string)
  (sep : string) (l : list A) :
  (1 <= String.length sep)%nat ->
  Forall (fun x => (w x <= 2 * String.length (f x))%nat) l ->
  (fold_right (fun x n => S (w x + n)) O l
   <= 2 * String.length (join sep (map f l)) + 2)%nat.
Proof.
  intros Hsep. induction 1 as [|x l Hx Hl IH]; [simpl; lia|].
  destruct l as [|y l'].
  - simpl. lia.
  - cbn [map] in *. rewrite join_cons2, !length_append.
    cbn [fold_right] in *. lia.
Qed.

Lemma separator_length (indent : string) :
  (1 <= String.length (separator indent))%nat.
Proof. unfold separator. rewrite length_append. simpl. lia. Qed.

Lemma weight_bound (v : json) :
  forall indent,
    (weight v <= 2 * String.length (SerializeJSONProperty indent v))%nat.
Proof.
  induction v as [| b | n | s | items IH | members IH] using json_induction;
    intros indent.
  - simpl. lia.
  - destruct b; simpl; lia.
  - simpl. destruct (number_head n) as (c & r & E & _). rewrite E. simpl. lia.
  - simpl. lia.
  - destruct items as [|x items]; [simpl; lia|].
    cbn [SerializeJSONProperty weight].
    pose proof (weights_join weight
                  (SerializeJSONProperty (indent +:+ gap))
                  (separator (indent +:+ gap)) (x :: items)
                  (separator_length _)) as H.
    remember (join _ _) as J eqn:EJ. clear EJ.
    rewrite !length_append. simpl String.length.
    assert (Hall : Forall (fun x => (weight x <= 2 * String.length
                      (SerializeJSONProperty (indent +:+ gap) x))%nat)
                     (x :: items)).
    { eapply List.Forall_impl; [|exact IH]. simpl. auto. }
    specialize (H Hall). lia.
  - destruct members as [|m members]; [simpl; lia|].
    cbn [SerializeJSONProperty weight].
    pose proof (weights_join (fun m => weight (snd m))
                  (fun m => member (fst m)
                     (SerializeJSONProperty (indent +:+ gap) (snd m)))
                  (separator (indent +:+ gap)) (m :: members)
                  (separator_length _)) as H.
    remember (join _ _) as J eqn:EJ. clear EJ.
    rewrite !length_append. simpl String.length.
    assert (Hall : Forall (fun m => (weight (snd m) <= 2 * String.length
                      (member (fst m)
                         (SerializeJSONProperty (indent +:+ gap) (snd m))))%nat)
                     (m :: members)).
    { eapply List.Forall_impl; [|exact IH]. intros a Ha.
      cbv beta in Ha. specialize (Ha (indent +:+ gap)).
      unfold member. rewrite !length_append. lia. }
    specialize (H Hall). lia.
Qed.

(** [JSON.parse] reads the text of [v], a value of safe integers, back as
    [v] in property order. *)
Theorem JSON_parse_stringify (v : json) :
  safe_numbers v = true ->
  JSON_parse (JSON_stringify v) = Ok (normalize v).
Proof.
  intros Hsafe. unfold JSON_parse, JSON_stringify.
  pose proof (weight_bound v "") as Hw.
  pose proof (parse_value_print v Hsafe ""
                (2 * String.length (SerializeJSONProperty "" v) + 2)%nat ""
                eq_refl ltac:(lia) number_end_empty) as H.
  rewrite append_nil_r in H. rewrite H. reflexivity.
Qed.

(** ** Objects in property order *)

Lemma array_index_text (k : string) (i : N) :
  array_index k = Some i -> k = NilZero.string_of_uint (N.to_uint i).
Proof.
  unfold array_index. destruct k as [|c r]; [discriminate|].
  destruct (all_digits (String c r) && (negb (c =? "0")%char || (r =? "")%string))
    eqn:Hshape; [|discriminate].
  destruct (NilZero.uint_of_string (String c r)) as [d|] eqn:Hd; [|discriminate].
  destruct (N.of_uint d <? 4294967295)%N; [|discriminate].
  intros [= <-]. rewrite DecimalN.Unsigned.to_of.
  apply andb_prop in Hshape as [_ Hlead].
  pose proof (NilZero.sus _ _ Hd) as Hs.
  assert (Hnorm : Decimal.unorm d = d).
  { simpl in Hd.
    destruct (NilEmpty.uint_of_string r) as [d'|] eqn:Hr; [|discriminate Hd].
    apply uint_of_char_spec in Hd.
    destruct Hd as [[-> ->]|Hd].
    - simpl in Hlead. apply String.eqb_eq in Hlead. subst r.
      simpl in Hr. injection Hr as <-. reflexivity.
    - repeat (destruct Hd as [[-> ->]|Hd]; [reflexivity|]).
      destruct Hd as [-> ->]. reflexivity. }
  rewrite Hnorm. symmetry. exact Hs.
Qed.

Lemma array_index_inj (k k' : string) (i : N) :
  array_index k = Some i -> array_index k' = Some i -> k = k'.
Proof.
  intros H H'. apply array_index_text in H, H'. congruence.
Qed.

Lemma precedes_irrefl (k : string) : precedes k k = false.
Proof.
  unfold precedes. destruct (array_index k).
  - apply N.ltb_irrefl.
  - now rewrite String.eqb_refl.
Qed.

Lemma goes_before_precedes (k k' : string) :
  goes_before k k' = true -> precedes k k' = true.
Proof.
  unfold goes_before, precedes.
  destruct (array_index k), (array_index k'); auto; discriminate.
Qed.

Lemma precedes_not_goes_before (k k' : string) :
  precedes k' k = true -> goes_before k k' = false.
Proof.
  unfold goes_before, precedes.
  destruct (array_index k), (array_index k'); auto; try discriminate.
  rewrite !N.ltb_lt, N.ltb_ge. lia.
Qed.

Lemma goes_before_trans (k k' x : string) :
  goes_before k k' = true -> precedes k' x = true -> precedes k x = true.
Proof.
  unfold goes_before, precedes.
  destruct (array_index k), (array_index k'), (array_index x);
    auto; try discriminate.
  rewrite !N.ltb_lt. lia.
Qed.

Lemma not_goes_before_precedes (k k' : string) :
  (k' =? k)%string = false -> goes_before k k' = false ->
  precedes k' k = true.
Proof.
  intros Hne. unfold goes_before, precedes.
  destruct (array_index k) as [i|] eqn:Ek,
           (array_index k') as [j|] eqn:Ek'; auto; try discriminate.
  - rewrite N.ltb_ge, N.ltb_lt. intros Hle.
    destruct (N.eq_dec i j) as [->|Hij]; [|lia].
    rewrite (array_index_inj _ _ _ Ek Ek'), String.eqb_refl in Hne.
    discriminate.
  - intros _. now rewrite Hne.
Qed.

Lemma obj_define_keys (k : string) (v : json) (o : list (string * json)) :
  forall y, In y (map fst (obj_define k v o)) ->
            y = k \/ In y (map fst o).
Proof.
  induction o as [|[k' v'] o IH]; simpl; intros y Hy.
  - intuition auto.
  - destruct (k' =? k)%string eqn:E.
    + apply String.eqb_eq in E. subst. simpl in Hy. intuition auto.
    + destruct (goes_before k k'); simpl in Hy.
      * intuition auto.
      * destruct Hy as [Hy|Hy]; [auto|]. apply IH in Hy. intuition auto.
Qed.

Lemma obj_define_ordered (k : string) (v : json) (o : list (string * json)) :
  ordered_keys (map fst o) = true ->
  ordered_keys (map fst (obj_define k v o)) = true.
Proof.
  induction o as [|[k' v'] o IH]; simpl; [reflexivity|].
  intros H. apply andb_prop in H as [Hall Hord].
  rewrite forallb_forall in Hall.
  destruct (k' =? k)%string eqn:E.
  - apply String.eqb_eq in E. subst k'. simpl.
    apply andb_true_intro. split; [|exact Hord].
    apply forallb_forall. exact Hall.
  - destruct (goes_before k k') eqn:G; simpl.
    + rewrite (goes_before_precedes _ _ G). simpl.
      apply andb_true_intro. split.
      * apply forallb_forall. intros x Hx.
        apply (goes_before_trans _ _ _ G). now apply Hall.
      * apply andb_true_intro. split; [|exact Hord].
        apply forallb_forall. exact Hall.
    + apply andb_true_intro. split; [|now apply IH].
      apply forallb_forall. intros x Hx.
      apply obj_define_keys in Hx as [->|Hx].
      * now apply not_goes_before_precedes.
      * now apply Hall.
Qed.

Lemma obj_define_last (k : string) (v : json) (o : list (string * json)) :
  ordered_keys (map fst (o ++ [(k, v)])) = true ->
  obj_define k v o = o ++ [(k, v)].
Proof.
  induction o as [|[k' v'] o IH]; simpl; [reflexivity|].
  intros H. apply andb_prop in H as [Hall Hord].
  rewrite forallb_forall in Hall.
  assert (Hp : precedes k' k = true).
  { apply Hall. rewrite map_app, in_app_iff. right. simpl. auto. }
  destruct (k' =? k)%string eqn:E.
  - apply String.eqb_eq in E. subst k'.
    rewrite precedes_irrefl in Hp. discriminate.
  - rewrite (precedes_not_goes_before _ _ Hp). f_equal. now apply IH.
Qed.

Lemma ordered_keys_prefix (a b : list string) :
  ordered_keys (a ++ b) = true -> ordered_keys a = true.
Proof.
  induction a as [|k a IH]; simpl; [reflexivity|].
  intros H. apply andb_prop in H as [Hall Hord].
  apply andb_true_intro. split; [|now apply IH].
  rewrite forallb_forall in *. intros x Hx. apply Hall.
  rewrite in_app_iff. auto.
Qed.

Lemma build_object_snoc (ms : list (string * json)) (m : string * json) :
  build_object (ms ++ [m]) = obj_define (fst m) (snd m) (build_object ms).
Proof. unfold build_object. now rewrite fold_left_app. Qed.

Lemma build_object_ordered (ms : list (string * json)) :
  ordered_keys (map fst (build_object ms)) = true.
Proof.
  induction ms as [|m ms IH] using rev_ind; [reflexivity|].
  rewrite build_object_snoc. now apply obj_define_ordered.
Qed.

(** Members in property order are built as they stand. *)
Lemma build_object_id (ms : list (string * json)) :
  ordered_keys (map fst ms) = true -> build_object ms = ms.
Proof.
  induction ms as [|[k v] ms IH] using rev_ind; [reflexivity|].
  intros H. rewrite build_object_snoc. simpl.
  rewrite IH.
  - now apply obj_define_last.
  - rewrite map_app in H. now apply ordered_keys_prefix in H.
Qed.

Lemma obj_define_values (Q : json -> Prop) (k : string) (v : json)
  (o : list (string * json)) :
  Q v -> Forall (fun m => Q (snd m)) o ->
  Forall (fun m => Q (snd m)) (obj_define k v o).
Proof.
  intros Hv. induction 1 as [|[k' v'] o Hm Ho IH]; simpl.
  - now constructor.
  - destruct (k' =? k)%string; [now constructor|].
    destruct (goes_before k k'); repeat constructor; auto.
Qed.

Lemma build_object_values (Q : json -> Prop) (ms : list (string * json)) :
  Forall (fun m => Q (snd m)) ms ->
  Forall (fun m => Q (snd m)) (build_object ms).
Proof.
  induction ms as [|m ms IH] using rev_ind; intros H; [constructor|].
  rewrite build_object_snoc.
  apply Forall_app in H as [Hms Hm]. inversion Hm; subst.
  apply obj_define_values; auto.
Qed.

(** A value in property order is its own normal form. *)
Lemma normalize_canonical (v : json) :
  canonical v = true -> normalize v = v.
Proof.
  induction v as [| b | n | s | items IH | members IH] using json_induction;
    simpl; intros H; try reflexivity.
  - f_equal. rewrite forallb_forall in H.
    induction IH as [|x items Hx Hitems IHl]; simpl; [reflexivity|].
    f_equal.
    + apply Hx, H. now left.
    + apply IHl. intros y Hy. apply H. now right.
  - apply andb_prop in H as [Hord Hall]. f_equal.
    assert (E : map (fun m => (fst m, normalize (snd m))) members = members).
    { rewrite forallb_forall in Hall. clear Hord.
      induction IH as [|[k x] members Hx Hmembers IHl]; simpl;
        [reflexivity|].
      f_equal.
      - f_equal. apply Hx. apply (Hall (k, x)). now left.
      - apply IHl. intros y Hy. apply Hall. now right. }
    rewrite E. now apply build_object_id.
Qed.

Lemma canonical_safe (v : json) :
  canonical v = true -> safe_numbers v = true.
Proof.
  induction v as [| b | n | s | items IH | members IH] using json_induction;
    simpl; intros H; try reflexivity.
  - exact H.
  - induction IH as [|x items Hx _ IHl]; simpl in *; [reflexivity|].
    apply andb_prop in H as [H1 H2]. now rewrite Hx, IHl.
  - apply andb_prop in H as [_ H].
    induction IH as [|m members Hm _ IHl]; simpl in *; [reflexivity|].
    apply andb_prop in H as [H1 H2]. now rewrite Hm, IHl.
Qed.

(** *** What [JSON.parse] returns is a value as JavaScript holds it *)

Ltac break_match H :=
  match type of H with
  | context [match ?x with _ => _ end] => destruct x eqn:?
  end.

Lemma forallb_canonical_members (ms : list (string * json)) :
  forallb (fun m => canonical (snd m)) ms = true ->
  forallb (fun m => canonical (snd m)) (build_object ms) = true.
Proof.
  intros H. apply forallb_forall. apply List.Forall_forall.
  apply (build_object_values (fun v => canonical v = true)).
  apply List.Forall_forall. now apply forallb_forall.
Qed.

Lemma expect_value (w : string) (v0 v : json) (s r : string) :
  expect w v0 s = Parsed v r -> v = v0.
Proof.
  revert s. induction w as [|c w IH]; intros s; simpl.
  - now intros [= <- _].
  - destruct s as [|c' s]; [discriminate|].
    destruct (c =? c')%char; [apply IH | discriminate].
Qed.

Lemma parse_canonical (fuel : nat) :
  (forall s v r, parse_value fuel s = Parsed v r -> canonical v = true) /\
  (forall s vs r, parse_elements fuel s = Parsed vs r ->
                  forallb canonical vs = true) /\
  (forall s ms r, parse_members fuel s = Parsed ms r ->
                  forallb (fun m => canonical (snd m)) ms = true).
Proof.
  induction fuel as [|fuel (IHv & IHe & IHm)].
  - repeat split; intros; discriminate.
  - repeat split.
    + intros s v r H. cbn [parse_value] in H. unfold pbind in H.
      repeat break_match H; try discriminate;
        try (apply expect_value in H; subst v; reflexivity);
        injection H as <- <-; try reflexivity;
        try (cbn [canonical]; eapply parse_number_safe; eassumption).
      * simpl. eapply IHe; eassumption.
      * simpl. rewrite build_object_ordered. simpl.
        apply forallb_canonical_members. eapply IHm; eassumption.
    + intros s vs r H. cbn [parse_elements] in H. unfold pbind in H.
      repeat break_match H; try discriminate;
        injection H as <- <-; simpl.
      * erewrite IHv by eassumption. simpl. eapply IHe; eassumption.
      * erewrite IHv by eassumption. reflexivity.
    + intros s ms r H. cbn [parse_members] in H. unfold pbind in H.
      repeat break_match H; try discriminate;
        injection H as <- <-; simpl.
      * erewrite IHv by eassumption. simpl. eapply IHm; eassumption.
      * erewrite IHv by eassumption. reflexivity.
Qed.

Lemma JSON_parse_canonical (s : string) (v : json) :
  JSON_parse s = Ok v -> canonical v = true.
Proof.
  unfold JSON_parse. intros H.
  destruct (parse_value _ s) as [v' r| |] eqn:E; try discriminate.
  destruct (skip_ws r); [|discriminate]. injection H as <-.
  eapply (proj1 (parse_canonical _)); eassumption.
Qed.

(** ** The fuel of the parser *)

Lemma skip_ws_length (s : string) :
  (String.length (skip_ws s) <= String.length s)%nat.
Proof.
  induction s as [|c s IH]; simpl; [lia|].
  destruct (is_ws c); simpl; lia.
Qed.

Lemma skip_ws_tail (s r : string) (c : ascii) :
  skip_ws s = String c r -> (String.length r < String.length s)%nat.
Proof.
  intros H. pose proof (skip_ws_length s) as Hle. rewrite H in Hle.
  simpl in Hle. lia.
Qed.

Lemma expect_length (w : string) (v0 v : json) (s r : string) :
  expect w v0 s = Parsed v r -> (String.length r <= String.length s)%nat.
Proof.
  revert s. induction w as [|c w IH]; intros s; simpl.
  - intros [= _ ->]. lia.
  - destruct s as [|c' s]; [discriminate|].
    destruct (c =? c')%char; [|discriminate].
    intros H. apply IH in H. simpl. lia.
Qed.

Lemma cons_char_inv (c : ascii) (x : parsed string) (str r : string) :
  cons_char c x = Parsed str r ->
  exists str', x = Parsed str' r.
Proof.
  destruct x as [str' r'| |]; simpl; try discriminate.
  intros [= _ <-]. eauto.
Qed.

Lemma parse_chars_length_bounded (n : nat) :
  forall s str r,
    (String.length s <= n)%nat ->
    parse_chars s = Parsed str r ->
    (String.length r < String.length s)%nat.
Proof.
  induction n as [|n IH]; intros s str r Hn H.
  - destruct s; [discriminate | simpl in Hn; lia].
  - destruct s as [|c s]; [discriminate|].
    cbn [parse_chars] in H. simpl in Hn.
    destruct (c =? QUOTE)%char.
    { injection H as _ <-. simpl. lia. }
    destruct (c =? BACKSLASH)%char.
    + destruct s as [|e r1]; [discriminate|]. simpl in Hn.
      assert (Hrec : forall x,
                cons_char x (parse_chars r1) = Parsed str r ->
                (String.length r < String.length r1)%nat).
      { intros x Hx. apply cons_char_inv in Hx as [str' Hx].
        eapply IH; [|exact Hx]. lia. }
      repeat (match type of H with
              | (if ?b then _ else _) = _ => destruct b
              end;
              [apply Hrec in H; simpl; lia|]).
      destruct (e =? "u")%char; [|discriminate].
      destruct r1 as [|h1 [|h2 [|h3 [|h4 r2]]]]; try discriminate.
      destruct (hex4 h1 h2 h3 h4) as [m|]; [|discriminate].
      destruct (m <? 256)%N; [|discriminate].
      apply cons_char_inv in H as [str' H].
      apply IH in H; simpl in *; lia.
    + destruct (code c <? 32)%N; [discriminate|].
      apply cons_char_inv in H as [str' H].
      apply IH in H; simpl in *; lia.
Qed.

Lemma parse_chars_length (s str r : string) :
  parse_chars s = Parsed str r ->
  (String.length r < String.length s)%nat.
Proof. now apply (parse_chars_length_bounded (String.length s)). Qed.

Lemma span_digits_length (s ds r : string) :
  span_digits s = (ds, r) ->
  (String.length ds + String.length r = String.length s)%nat.
Proof.
  revert ds r. induction s as [|c s IH]; intros ds r; simpl.
  - intros [= <- <-]. reflexivity.
  - destruct (is_digit c).
    + destruct (span_digits s) as [ds' r'] eqn:E. intros [= <- <-].
      specialize (IH _ _ eq_refl). simpl. lia.
    + intros [= <- <-]. reflexivity.
Qed.

Lemma parse_digits_length (neg : bool) (s : string) (n : Z) (r : string) :
  parse_digits neg s = Parsed n r ->
  (String.length r < String.length s)%nat.
Proof.
  unfold parse_digits. destruct (span_digits s) as [ds r'] eqn:E.
  apply span_digits_length in E.
  destruct ds as [|c more]; [discriminate|].
  destruct (_ && _); [discriminate|].
  destruct (starts_fraction_or_exponent r'); [discriminate|].
  destruct (NilZero.uint_of_string _); [|discriminate].
  cbv zeta. destruct (isSafeInteger _); [|discriminate].
  intros [= _ <-]. simpl in E. lia.
Qed.

Lemma parse_number_length (s : string) (n : Z) (r : string) :
  parse_number s = Parsed n r ->
  (String.length r < String.length s)%nat.
Proof.
  unfold parse_number. destruct s as [|c s]; [discriminate|].
  destruct (c =? "-")%char; intros H; apply parse_digits_length in H;
    simpl in *; lia.
Qed.

(** Every successful parse consumes at least one character. *)
Lemma parse_consumes (fuel : nat) :
  (forall s v r, parse_value fuel s = Parsed v r ->
                 (String.length r < String.length s)%nat) /\
  (forall s vs r, parse_elements fuel s = Parsed vs r ->
                  (String.length r < String.length s)%nat) /\
  (forall s ms r, parse_members fuel s = Parsed ms r ->
                  (String.length r < String.length s)%nat).
Proof.
  induction fuel as [|fuel (IHv & IHe & IHm)].
  - repeat split; intros; discriminate.
  - split; [|split].
    + intros s v r H. cbn [parse_value] in H. unfold pbind in H.
      destruct (skip_ws s) as [|c r0] eqn:Hs; [discriminate|].
      apply skip_ws_tail in Hs.
      repeat break_match H; try discriminate;
        try (apply expect_length in H; simpl in *; lia);
        injection H as <- <-;
        repeat match goal with
        | E : parse_chars _ = Parsed _ _ |- _ =>
            apply parse_chars_length in E
        | E : parse_number _ = Parsed _ _ |- _ =>
            apply parse_number_length in E
        | E : parse_elements _ _ = Parsed _ _ |- _ => apply IHe in E
        | E : parse_members _ _ = Parsed _ _ |- _ => apply IHm in E
        | E : skip_ws _ = String _ _ |- _ => apply skip_ws_tail in E
        end; simpl in *; lia.
    + intros s vs r H. cbn [parse_elements] in H. unfold pbind in H.
      repeat break_match H; try discriminate; injection H as <- <-;
        repeat match goal with
        | E : parse_value _ _ = Parsed _ _ |- _ => apply IHv in E
        | E : parse_elements _ _ = Parsed _ _ |- _ => apply IHe in E
        | E : skip_ws _ = String _ _ |- _ => apply skip_ws_tail in E
        end; simpl in *; lia.
    + intros s ms r H. cbn [parse_members] in H. unfold pbind in H.
      repeat break_match H; try discriminate; injection H as <- <-;
        repeat match goal with
        | E : parse_value _ _ = Parsed _ _ |- _ => apply IHv in E
        | E : parse_members _ _ = Parsed _ _ |- _ => apply IHm in E
        | E : parse_chars _ = Parsed _ _ |- _ =>
            apply parse_chars_length in E
        | E : skip_ws _ = String _ _ |- _ => apply skip_ws_tail in E
        end; simpl in *; lia.
Qed.

(** Past twice the length of the text, more fuel changes nothing: the
    parser never fails for want of fuel in [JSON_parse]. *)
Lemma parse_fuel (fuel : nat) :
  (forall s more,
     (2 * String.length s + 1 <= fuel)%nat ->
     parse_value (fuel + more) s = parse_value fuel s) /\
  (forall s more,
     (2 * String.length s + 2 <= fuel)%nat ->
     parse_elements (fuel + more) s = parse_elements fuel s) /\
  (forall s more,
     (2 * String.length s + 2 <= fuel)%nat ->
     parse_members (fuel + more) s = parse_members fuel s).
Proof.
  induction fuel as [|fuel (IHv & IHe & IHm)].
  - repeat split; intros; lia.
  - split; [|split].
    + intros s more Hf. cbn [Nat.add parse_value].
      destruct (skip_ws s) as [|c r] eqn:Hs; [reflexivity|].
      apply skip_ws_tail in Hs.
      rewrite (IHe r more) by lia. rewrite (IHm r more) by lia.
      reflexivity.
    + intros s more Hf. cbn [Nat.add parse_elements].
      rewrite (IHv s more) by lia.
      destruct (parse_value fuel s) as [v r| |] eqn:Hv; try reflexivity.
      apply (proj1 (parse_consumes fuel)) in Hv. cbn [pbind].
      destruct (skip_ws r) as [|c r'] eqn:Hs; [reflexivity|].
      apply skip_ws_tail in Hs.
      rewrite (IHe r' more) by lia. reflexivity.
    + intros s more Hf. cbn [Nat.add parse_members].
      destruct (skip_ws s) as [|q r] eqn:Hs; [reflexivity|].
      apply skip_ws_tail in Hs.
      destruct (q =? QUOTE)%char; [|reflexivity].
      destruct (parse_chars r) as [k r1| |] eqn:Hk; try reflexivity.
      apply parse_chars_length in Hk. cbn [pbind].
      destruct (skip_ws r1) as [|colon r2] eqn:Hs1; [reflexivity|].
      apply skip_ws_tail in Hs1.
      destruct (colon =? ":")%char; [|reflexivity].
      rewrite (IHv r2 more) by lia.
      destruct (parse_value fuel r2) as [v r3| |] eqn:Hv; try reflexivity.
      apply (proj1 (parse_consumes fuel)) in Hv. cbn [pbind].
      destruct (skip_ws r3) as [|c r4] eqn:Hs3; [reflexivity|].
      apply skip_ws_tail in Hs3.
      rewrite (IHm r4 more) by lia. reflexivity.
Qed.

(** [JSON_parse] gives what the parser gives with any larger fuel. *)
Lemma JSON_parse_fuel (s : string) (more : nat) :
  parse_value (2 * String.length s + 2 + more) s
  = parse_value (2 * String.length s + 2) s.
Proof. apply (proj1 (parse_fuel _)). lia. Qed.

(** ** The metadata store *)

Lemma readMetadata_run (w : World) :
  readMetadata w = (collection w, w).
Proof.
  unfold readMetadata, collection, document_at, bind, existsSync, try_catch,
    readFileSync, lift, ret, throw.
  destruct (fs w !! metadataFile) as [[text|]|] eqn:E; simpl;
    rewrite ?E; try destruct (JSON_parse text); reflexivity.
Qed.

(** C6. [readMetadata] never throws: whatever is at the path of the
    metadata document -- nothing, something unreadable, a text that is not
    JSON, a JSON value -- it returns a value and leaves the world as it
    was; the value is the empty array in the first three cases and the
    parsed document in the fourth.  (On a text outside the model the run
    ends [Beyond], not with a throw; nothing is stated about it.) *)
Theorem readMetadata_fails_open (w : World) :
  readMetadata w
  = (match document_at metadataFile w with
     | Absent => Ok (JArr [])
     | ReadFails => Ok (JArr [])
     | Malformed => Ok (JArr [])
     | Holds v => Ok v
     | Unmodelled => Beyond
     end, w) /\
  (forall e, fst (readMetadata w) <> Throw e).
Proof.
  rewrite readMetadata_run. unfold collection.
  destruct (document_at metadataFile w); split; (reflexivity || discriminate).
Qed.

Lemma supporters_run (w : World) :
  supporters w
  = match document_at supportersFile w with
    | Absent => (Ok (mkResponse 200 (Json (JArr []))), w)
    | ReadFails =>
        (Ok (mkResponse 500 (Json (JArr []))),
         mkWorld (fs w) (console w ++ ["Error reading supporters file:"]))
    | Malformed =>
        (Ok (mkResponse 500 (Json (JArr []))),
         mkWorld (fs w) (console w ++ ["Error reading supporters file:"]))
    | Holds v => (Ok (mkResponse 200 (Json v)), w)
    | Unmodelled => (Beyond, w)
    end.
Proof.
  unfold supporters, document_at, bind, existsSync, try_catch,
    readFileSync, lift, console_error, ret, throw.
  destruct (fs w !! supportersFile) as [[text|]|] eqn:E; simpl;
    rewrite ?E; try destruct (JSON_parse text); reflexivity.
Qed.

(** C8. [GET /supporters]: with no document the handler answers 200 with
    the empty array; when reading it fails or its text is not JSON it
    logs the failure and answers 500 with the empty array; otherwise it
    answers 200 with the value the document holds.  (On a text outside
    the model the run ends [Beyond]; nothing is stated about it.) *)
Theorem supporters_by_document (w : World) :
  supporters w
  = match document_at supportersFile w with
    | Absent => (Ok (mkResponse 200 (Json (JArr []))), w)
    | ReadFails =>
        (Ok (mkResponse 500 (Json (JArr []))),
         mkWorld (fs w) (console w ++ ["Error reading supporters file:"]))
    | Malformed =>
        (Ok (mkResponse 500 (Json (JArr []))),
         mkWorld (fs w) (console w ++ ["Error reading supporters file:"]))
    | Holds v => (Ok (mkResponse 200 (Json v)), w)
    | Unmodelled => (Beyond, w)
    end.
Proof. exact (supporters_run w). Qed.

Lemma upload_no_media (c : copy) (req : UploadRequest)
  (now1 now2 : Z) (w : World) :
  media req = None ->
  upload c req now1 now2 w
  = (Ok (mkResponse 400 (Text "No media file uploaded.")), w).
Proof. intros H. unfold upload. rewrite H. reflexivity. Qed.

(** C7. An upload request without a media file is answered 400 with the
    plain text [No media file uploaded.]; no file is moved and the
    metadata document is not written: the world stays as it was. *)
Theorem upload_without_media (c : copy) (req : UploadRequest)
  (now1 now2 : Z) (w : World) :
  media req = None ->
  upload c req now1 now2 w
  = (Ok (mkResponse 400 (Text "No media file uploaded.")), w).
Proof. exact (upload_no_media c req now1 now2 w). Qed.

Lemma upload_without_media_witness :
  upload FirstCopy
    (mkUploadRequest None
       (Some (mkUploadedFile "pic.png" "image/png" "3f2a"))
       (Some "Sunset Drive") None)
    1700 1701
    (mkWorld (<["uploads/temp/3f2a" := File "PNG"]> ∅) [])
  = (Ok (mkResponse 400 (Text "No media file uploaded.")),
     mkWorld (<["uploads/temp/3f2a" := File "PNG"]> ∅) []).
Proof. apply upload_without_media. reflexivity. Defined.

(** ** Classification of the media file *)

Lemma prefix_spec (p s : string) :
  String.prefix p s = true <-> exists rest, s = p +:+ rest.
Proof.
  revert s. induction p as [|c p IH]; intros s.
  - split; [intros _; exists s; reflexivity | now destruct s].
  - destruct s as [|c' s].
    + split; [discriminate | intros [rest H]; discriminate H].
    + cbn [String.prefix]. destruct (ascii_dec c c') as [->|Hne].
      * rewrite IH. split; intros [rest H]; exists rest.
        -- cbn [String.append]. now rewrite <- H.
        -- cbn [String.append] in H. now injection H.
      * split; [discriminate|]. intros [rest H].
        cbn [String.append] in H. injection H as H1 H2. congruence.
Qed.

Lemma mediaType_kind (mediaFile : UploadedFile) :
  (mediaType mediaFile = "videos"
   <-> exists rest, mimetype mediaFile = "video" +:+ rest) /\
  (mediaType mediaFile = "audios"
   <-> ~ exists rest, mimetype mediaFile = "video" +:+ rest) /\
  (mediaType mediaFile = "videos" \/ mediaType mediaFile = "audios").
Proof.
  unfold mediaType, startsWith.
  pose proof (prefix_spec "video" (mimetype mediaFile)) as H.
  destruct (String.prefix "video" (mimetype mediaFile)).
  - assert (Hex : exists rest, mimetype mediaFile = "video" +:+ rest)
      by now apply H.
    split; [tauto|]. split; [|auto].
    split; [discriminate|tauto].
  - assert (Hex : ~ exists rest, mimetype mediaFile = "video" +:+ rest).
    { intros Hex. apply H in Hex. discriminate. }
    split; [|split; [tauto|auto]].
    split; [discriminate|tauto].
Qed.

(** C4. The upload handler files a media file under [videos] exactly when
    its declared content type begins with [video], and under [audios] in
    every other case (an image included); there is no third kind. *)
Theorem mediaType_binary (mediaFile : UploadedFile) :
  (mediaType mediaFile = "videos"
   <-> exists rest, mimetype mediaFile = "video" +:+ rest) /\
  (mediaType mediaFile = "audios"
   <-> ~ exists rest, mimetype mediaFile = "video" +:+ rest) /\
  (mediaType mediaFile = "videos" \/ mediaType mediaFile = "audios").
Proof. exact (mediaType_kind mediaFile). Qed.

(** An image is filed under [audios]. *)
Example mediaType_image :
  mediaType (mkUploadedFile "pic.png" "image/png" "9c41") = "audios".
Proof. reflexivity. Qed.

(** ** Saving and reading back *)

Lemma saveMetadata_run (data : json) (w : World) :
  saveMetadata data w
  = match fs w !! metadataFile with
    | Some Unreadable => (Throw SystemError, w)
    | _ => (Ok tt,
            mkWorld (<[metadataFile := File (JSON_stringify data)]> (fs w))
                    (console w))
    end.
Proof. reflexivity. Qed.

Lemma saveMetadata_ok (data : json) (w w' : World) (r : result unit) :
  saveMetadata data w = (r, w') ->
  (r = Ok tt /\
   w' = mkWorld (<[metadataFile := File (JSON_stringify data)]> (fs w))
                (console w)) \/
  ((exists e, r = Throw e) /\ w' = w).
Proof.
  rewrite saveMetadata_run.
  destruct (fs w !! metadataFile) as [[text|]|]; intros [= <- <-]; eauto.
Qed.

Lemma collection_canonical (w : World) (v : json) :
  collection w = Ok v -> canonical v = true.
Proof.
  unfold collection, document_at.
  destruct (fs w !! metadataFile) as [[text|]|];
    try (intros [= <-]; reflexivity).
  destruct (JSON_parse text) eqn:E; simpl; intros [= <-];
    [eapply JSON_parse_canonical, E | reflexivity].
Qed.

Lemma collection_saved (data : json) (files : gmap string node)
  (out : list string) :
  canonical data = true ->
  collection (mkWorld (<[metadataFile := File (JSON_stringify data)]> files)
                      out)
  = Ok data.
Proof.
  intros H. unfold collection, document_at. cbn [fs].
  rewrite lookup_insert_eq, JSON_parse_stringify by now apply canonical_safe.
  cbn [collection_of]. now rewrite normalize_canonical.
Qed.

(** C10. Saving and reading back gives the same value: for every array
    of records (a value as JavaScript holds it: its numbers safe integers,
    its objects in property order), once [saveMetadata] has written it,
    [readMetadata] returns it. *)
Theorem save_then_read (records : list json) (w w' : World) :
  canonical (JArr records) = true ->
  saveMetadata (JArr records) w = (Ok tt, w') ->
  readMetadata w' = (Ok (JArr records), w').
Proof.
  intros H Hsave. rewrite readMetadata_run.
  apply saveMetadata_ok in Hsave as [[_ ->] | [[e He] _]]; [|discriminate].
  now rewrite (collection_saved _ _ _ H).
Qed.

Lemma save_then_read_witness :
  readMetadata
    (snd (saveMetadata
            (JArr [metadataEntry "1700.mp4" "Sunset Drive" "Unknown"
                     "videos" JNull 1701])
            (mkWorld ∅ [])))
  = (Ok (JArr [metadataEntry "1700.mp4" "Sunset Drive" "Unknown"
                 "videos" JNull 1701]),
     snd (saveMetadata
            (JArr [metadataEntry "1700.mp4" "Sunset Drive" "Unknown"
                     "videos" JNull 1701])
            (mkWorld ∅ []))).
Proof.
  apply (save_then_read _ (mkWorld ∅ [])); reflexivity.
Defined.

(** ** The upload handler, step by step *)

(** A move either happens, and then the source was there and the
    destination took it, or it ends otherwise and leaves the world as it
    was. *)
Lemma renameSync_cases (src dst : string) (w : World) :
  (exists n,
     fs w !! src = Some n /\
     takes (fs w) src dst n = true /\
     renameSync src dst w
     = (Ok tt, mkWorld (renamed src dst n (fs w)) (console w))) \/
  (exists r,
     renameSync src dst w = (r, w) /\
     r <> Ok tt /\
     forall n, fs w !! src = Some n -> takes (fs w) src dst n = false).
Proof.
  unfold renameSync, takes, renamed.
  destruct (has_nul src || has_nul dst).
  { right. eexists. split; [reflexivity|]. split; [discriminate|].
    reflexivity. }
  destruct (fs w !! src) as [n|].
  2: { right. eexists. split; [reflexivity|]. split; discriminate. }
  destruct (path_fits dst).
  2: { right. eexists. split; [reflexivity|]. split; [discriminate|].
       reflexivity. }
  cbn [negb andb].
  destruct (fs w !! dst) as [[b|]|], n as [t|];
    try (left; eexists; split; [reflexivity|]; split; reflexivity);
    right; eexists; (split; [reflexivity|]); (split; [discriminate|]);
    now intros n [= <-].
Qed.

Lemma path_not_metadata (f : UploadedFile) : path f <> metadataFile.
Proof. discriminate. Qed.

Lemma mediaPath_not_metadata (now1 : Z) (f : UploadedFile) :
  mediaPath now1 f <> metadataFile.
Proof. discriminate. Qed.

Lemma thumbPath_not_metadata (c : copy) (now1 : Z) (f tf : UploadedFile) :
  thumbPath c now1 f tf <> metadataFile.
Proof. discriminate. Qed.

Lemma collection_renamed (src dst : string) (n : node) (w : World)
  (out : list string) :
  src <> metadataFile -> dst <> metadataFile ->
  collection (mkWorld (renamed src dst n (fs w)) out) = collection w.
Proof.
  intros Hs Hd. unfold collection, document_at, renamed. cbn [fs].
  rewrite lookup_insert_ne, lookup_delete_ne by congruence. reflexivity.
Qed.

Lemma collection_moved (c : copy) (req : UploadRequest) (f : UploadedFile)
  (now1 : Z) (staged : node) (w : World) (files : gmap string node)
  (out : list string) :
  files_moved c req f now1 staged (fs w) = Some files ->
  collection (mkWorld files out) = collection w.
Proof.
  unfold files_moved. intros H.
  pose proof (collection_renamed (path f) (mediaPath now1 f) staged w out
                (path_not_metadata f) (mediaPath_not_metadata now1 f)) as H1.
  destruct (takes _ _ _ staged); [|discriminate].
  destruct (thumbnail req) as [tf|].
  - destruct (_ !! path tf) as [n|] eqn:E; [|discriminate].
    destruct (takes _ _ _ n); [|discriminate].
    injection H as <-. rewrite <- H1.
    apply (collection_renamed _ _ n (mkWorld _ out) out);
      [apply path_not_metadata | apply thumbPath_not_metadata].
  - injection H as <-. exact H1.
Qed.

(** What [files_moved] says when the files were moved. *)
Lemma files_moved_inv (c : copy) (req : UploadRequest) (f : UploadedFile)
  (now1 : Z) (staged : node) (files0 files : gmap string node) :
  files_moved c req f now1 staged files0 = Some files ->
  takes files0 (path f) (mediaPath now1 f) staged = true /\
  let files1 := renamed (path f) (mediaPath now1 f) staged files0 in
  match thumbnail req with
  | None => files = files1
  | Some tf =>
      exists n,
        files1 !! path tf = Some n /\
        takes files1 (path tf) (thumbPath c now1 f tf) n = true /\
        files = renamed (path tf) (thumbPath c now1 f tf) n files1
  end.
Proof.
  unfold files_moved. intros H.
  destruct (takes _ _ _ staged); [|discriminate].
  split; [reflexivity|]. cbv zeta in *.
  destruct (thumbnail req) as [tf|]; [|now injection H].
  destruct (_ !! path tf) as [n|]; [|discriminate].
  destruct (takes _ _ _ n) eqn:E; [|discriminate].
  injection H as <-. eauto.
Qed.

(** The step of the upload handler that moves the thumbnail, once the
    media file has been moved: it gives the thumbnail path of the record
    over the files moved, or it ends otherwise, and then the files were
    not both moved. *)
Lemma thumbnail_step (c : copy) (req : UploadRequest) (f : UploadedFile)
  (now1 : Z) (staged : node) (w : World) :
  takes (fs w) (path f) (mediaPath now1 f) staged = true ->
  let w1 := mkWorld (renamed (path f) (mediaPath now1 f) staged (fs w))
                    (console w) in
  let step :=
    match thumbnail req with
    | None => ret JNull
    | Some thumbFile =>
        renameSync (path thumbFile)
          (path_join ["uploads/thumbnails";
                      thumbFilename c (mediaFilename now1 f) thumbFile]) ;;
        ret (JStr ("/media/thumbnails/" +:+
                   thumbFilename c (mediaFilename now1 f) thumbFile))
    end in
  (exists files,
     files_moved c req f now1 staged (fs w) = Some files /\
     step w1 = (Ok (thumbnail_field c now1 f (thumbnail req)),
                mkWorld files (console w))) \/
  (exists r,
     step w1 = (r, w1) /\
     (forall v, r <> Ok v) /\
     files_moved c req f now1 staged (fs w) = None).
Proof.
  intros Htakes w1 step. unfold step, files_moved, thumbnail_field.
  rewrite Htakes. destruct (thumbnail req) as [tf|].
  - fold (thumbPath c now1 f tf). unfold bind, ret.
    destruct (renameSync_cases (path tf) (thumbPath c now1 f tf) w1)
      as [(n & Hn & Ht & ->) | (r & -> & Hr & Hall)]; cbn [fs w1] in *.
    + left. rewrite Hn, Ht. eexists. split; reflexivity.
    + right. destruct r as [[]| e |]; [now destruct Hr | |].
      * eexists. split; [reflexivity|]. split; [discriminate|].
        destruct (_ !! path tf) as [n|]; [|reflexivity].
        now rewrite (Hall n eq_refl).
      * eexists. split; [reflexivity|]. split; [discriminate|].
        destruct (_ !! path tf) as [n|]; [|reflexivity].
        now rewrite (Hall n eq_refl).
  - left. eexists. split; reflexivity.
Qed.

(** What a run of the upload handler that answers looks like: the media
    file was staged, the moves succeeded, the store gave an array, and the
    array with the new record at its end was written. *)
Lemma upload_run (c : copy) (req : UploadRequest) (f : UploadedFile)
  (now1 now2 : Z) (w w' : World) (resp : response) :
  media req = Some f ->
  upload c req now1 now2 w = (Ok resp, w') ->
  exists staged files records,
    fs w !! path f = Some staged /\
    files_moved c req f now1 staged (fs w) = Some files /\
    collection w = Ok (JArr records) /\
    resp = mkResponse 200
             (Json (JObj [("message", JStr "Upload successful.")])) /\
    w' = mkWorld
           (<[metadataFile :=
                File (JSON_stringify
                        (JArr (records ++ [new_entry c req f now1 now2])))]>
              files)
           (console w).
Proof.
  intros Hm. unfold upload. rewrite Hm.
  unfold bind at 1. fold (mediaPath now1 f).
  destruct (renameSync_cases (path f) (mediaPath now1 f) w)
    as [(staged & Hstaged & Htakes & ->) | (r & -> & Hr & _)];
    [|destruct r as [[]| |]; [now destruct Hr | discriminate | discriminate]].
  unfold bind at 1.
  destruct (thumbnail_step c req f now1 staged w Htakes)
    as [(files & Hfiles & ->) | (r & -> & Hr & Hfiles)];
    [|destruct r; [now destruct (Hr a) | discriminate | discriminate]].
  - unfold bind at 1. rewrite readMetadata_run.
    rewrite (collection_moved _ _ _ _ _ _ _ _ Hfiles).
    unfold bind at 1. unfold lift.
    destruct (collection w) as [[| | | |records|]| |] eqn:Hc;
      try discriminate.
    cbn [Array_push]. unfold bind, ret.
    destruct (saveMetadata _ _) as [r w2] eqn:Hsave.
    apply saveMetadata_ok in Hsave as [[-> ->] | [[e ->] _]];
      [|discriminate].
    cbn [fs console]. intros [= <- <-].
    exists staged, files, records. repeat split; auto.
Qed.

(** ** The store is append-only *)

Lemma collection_canonical_items (w : World) (records : list json) :
  collection w = Ok (JArr records) -> forallb canonical records = true.
Proof.
  intros H. exact (collection_canonical w _ H).
Qed.

Lemma new_entry_canonical (c : copy) (req : UploadRequest)
  (f : UploadedFile) (now1 now2 : Z) :
  time_value now2 = true ->
  canonical (new_entry c req f now1 now2) = true.
Proof.
  intros Hnow%time_value_safe.
  unfold new_entry, metadataEntry, thumbnail_field.
  destruct (thumbnail req); simpl; now rewrite Hnow.
Qed.

(** After an upload that answers, the store holds the former records and
    the new one at the end. *)
Lemma upload_appends (c : copy) (req : UploadRequest) (f : UploadedFile)
  (now1 now2 : Z) (w w' : World) (resp : response) :
  time_value now2 = true ->
  media req = Some f ->
  upload c req now1 now2 w = (Ok resp, w') ->
  exists records,
    collection w = Ok (JArr records) /\
    collection w' = Ok (JArr (records ++ [new_entry c req f now1 now2])).
Proof.
  intros Hnow Hm Hrun.
  destruct (upload_run _ _ _ _ _ _ _ _ Hm Hrun)
    as (staged & files & records & _ & _ & Hc & _ & ->).
  exists records. split; [exact Hc|].
  apply collection_saved.
  cbn [canonical]. rewrite forallb_app.
  rewrite (collection_canonical_items _ _ Hc). cbn [forallb].
  now rewrite new_entry_canonical.
Qed.

Lemma listing_keeps_world (type : string) (w : World) :
  snd (listing type w) = w.
Proof.
  unfold listing.
  destruct (negb _); [reflexivity|].
  unfold bind at 1. rewrite readMetadata_run.
  destruct (collection w); try reflexivity.
  unfold bind, lift, ret.
  destruct (Array_filter _ _); try reflexivity.
  destruct (Array_sort _ _); reflexivity.
Qed.

Lemma search_keeps_world (q : option string) (w : World) :
  snd (search q w) = w.
Proof.
  unfold search.
  destruct (negb _); [reflexivity|].
  unfold bind at 1. rewrite readMetadata_run.
  destruct (collection w); try reflexivity.
  unfold bind, lift, ret.
  destruct (Array_filter _ _); reflexivity.
Qed.

Lemma serve_media_keeps_world (rel : string) (w : World) :
  snd (serve_media rel w) = w.
Proof.
  unfold serve_media. destruct (negb _); [reflexivity|].
  destruct (fs w !! _) as [[b|]|]; try reflexivity.
  destruct (fs w !! _) as [[b|]|]; reflexivity.
Qed.

Lemma supporters_keeps_files (w : World) :
  fs (snd (supporters w)) = fs w.
Proof.
  rewrite supporters_run.
  destruct (document_at supportersFile w); reflexivity.
Qed.

(** C9. The metadata collection is append-only.  An upload that answers
    200 (its record stamped with a time value of the clock) leaves the
    store holding the former records, unchanged, and one new record, the
    one made from the request, at the end; listing, search, static
    serving, support and supporters leave every file as it was. *)
Theorem store_append_only :
  (forall c req now1 now2 w w' resp,
     time_value now2 = true ->
     upload c req now1 now2 w = (Ok resp, w') ->
     status resp = 200%nat ->
     exists records f,
       media req = Some f /\
       collection w = Ok (JArr records) /\
       collection w' = Ok (JArr (records ++ [new_entry c req f now1 now2]))) /\
  (forall type w, snd (listing type w) = w) /\
  (forall q w, snd (search q w) = w) /\
  (forall rel w, snd (serve_media rel w) = w) /\
  (forall w, snd (support w) = w) /\
  (forall w, fs (snd (supporters w)) = fs w).
Proof.
  split; [|repeat split].
  - intros c req now1 now2 w w' resp Hnow Hrun Hstatus.
    destruct (media req) as [f|] eqn:Hm.
    + destruct (upload_appends _ _ _ _ _ _ _ _ Hnow Hm Hrun)
        as (records & H1 & H2).
      exists records, f. auto.
    + rewrite (upload_no_media _ _ _ _ _ Hm) in Hrun.
      injection Hrun as <- _. discriminate Hstatus.
  - apply listing_keeps_world.
  - apply search_keeps_world.
  - apply serve_media_keeps_world.
  - apply supporters_keeps_files.
Qed.

(** *** A concrete run *)

Lemma clip_upload_runs (c : copy) :
  upload c clip_request 1700 1701 staged_world
  = (Ok upload_successful, snd (upload c clip_request 1700 1701 staged_world)).
Proof. destruct c; vm_compute; reflexivity. Qed.

(** The same upload into the library of four records. *)
Lemma library_stored_staged :
  collection library_staged_world = Ok (JArr library).
Proof. vm_compute. reflexivity. Qed.

Lemma clip_upload_into_library (c : copy) :
  upload c clip_request 1700 1701 library_staged_world
  = (Ok upload_successful,
     snd (upload c clip_request 1700 1701 library_staged_world)).
Proof. destruct c; vm_compute; reflexivity. Qed.

Lemma store_append_only_witness :
  collection library_staged_world = Ok (JArr library) /\
  (exists records f,
     media clip_request = Some f /\
     collection library_staged_world = Ok (JArr records) /\
     collection
       (snd (upload SecondCopy clip_request 1700 1701 library_staged_world))
     = Ok (JArr (records ++ [new_entry SecondCopy clip_request f 1700 1701])))
  /\
  snd (listing "videos" library_staged_world) = library_staged_world.
Proof.
  split; [exact library_stored_staged|]. split.
  - apply (proj1 store_append_only SecondCopy clip_request 1700 1701
             library_staged_world _ upload_successful eq_refl
             (clip_upload_into_library SecondCopy)).
    reflexivity.
  - apply (proj1 (proj2 store_append_only)).
Defined.

(** ** Media records *)

Lemma media_record_fields (v : json) :
  media_record v = true ->
  exists ms name title uploader kind t,
    v = JObj ms /\
    assoc "filename" ms = Some (JStr name) /\
    assoc "videoName" ms = Some (JStr title) /\
    assoc "username" ms = Some (JStr uploader) /\
    assoc "type" ms = Some (JStr kind) /\
    assoc "uploadedAt" ms = Some (JNum t).
Proof.
  destruct v as [| | | | |ms]; try discriminate.
  unfold media_record, field, is_text, is_number. intros H.
  repeat (apply andb_prop in H as [H ?]).
  exists ms.
  destruct (assoc "filename" ms) as [[| | |name| |]|]; try discriminate.
  destruct (assoc "videoName" ms) as [[| | |title| |]|]; try discriminate.
  destruct (assoc "username" ms) as [[| | |uploader| |]|]; try discriminate.
  destruct (assoc "type" ms) as [[| | |kind| |]|]; try discriminate.
  destruct (assoc "uploadedAt" ms) as [[| |t| | |]|]; try discriminate.
  exists name, title, uploader, kind, t. repeat split; reflexivity.
Qed.

(** ** Listing *)

Lemma filter_items_records (type : string) (records : list json) :
  forallb media_record records = true ->
  filter_items (fun item => rbind (prop item "type")
                                  (fun t => Ok (is_string t type))) records
  = Ok (List.filter (of_kind type) records).
Proof.
  induction records as [|r records IH]; simpl; [reflexivity|].
  intros H. apply andb_prop in H as [Hr Hrest].
  rewrite (IH Hrest).
  destruct (media_record_fields r Hr)
    as (ms & name & title & uploader & kind & t & -> & _ & _ & _ & Hk & _).
  unfold of_kind, kind_of. simpl. rewrite Hk. simpl.
  destruct (kind =? type)%string; reflexivity.
Qed.

Lemma compare_records (a b : json) :
  media_record a = true -> media_record b = true ->
  compare_uploadedAt a b = Ok (uploadedAt_of b - uploadedAt_of a).
Proof.
  intros Ha Hb.
  destruct (media_record_fields a Ha)
    as (ms & ? & ? & ? & ? & ta & -> & _ & _ & _ & _ & Hta).
  destruct (media_record_fields b Hb)
    as (ms' & ? & ? & ? & ? & tb & -> & _ & _ & _ & _ & Htb).
  unfold compare_uploadedAt, uploadedAt_of. simpl.
  now rewrite Hta, Htb.
Qed.

Lemma insert_sorted_records (x : json) (l : list json) :
  media_record x = true -> forallb media_record l = true ->
  insert_sorted compare_uploadedAt x l = Ok (insert_newer x l).
Proof.
  intros Hx. induction l as [|y l IH]; simpl; [reflexivity|].
  intros H. apply andb_prop in H as [Hy Hl].
  rewrite (compare_records x y Hx Hy). simpl.
  destruct (0 <? uploadedAt_of y - uploadedAt_of x); [|reflexivity].
  now rewrite (IH Hl).
Qed.

Lemma insert_newer_perm (x : json) (l : list json) :
  Permutation (insert_newer x l) (x :: l).
Proof.
  induction l as [|y l IH]; simpl; [reflexivity|].
  destruct (0 <? _); [|reflexivity].
  rewrite IH. apply perm_swap.
Qed.

Lemma sort_newer_perm (l : list json) : Permutation (sort_newer l) l.
Proof.
  induction l as [|x l IH]; simpl; [reflexivity|].
  rewrite insert_newer_perm. now constructor.
Qed.

Lemma insert_newer_records (x : json) (l : list json) :
  media_record x = true -> forallb media_record l = true ->
  forallb media_record (insert_newer x l) = true.
Proof.
  intros Hx. induction l as [|y l IH]; simpl; intros H.
  - now rewrite Hx.
  - apply andb_prop in H as [Hy Hl].
    destruct (0 <? _); simpl.
    + now rewrite Hy, IH.
    + now rewrite Hx, Hy, Hl.
Qed.

Lemma sort_newer_records (l : list json) :
  forallb media_record l = true ->
  forallb media_record (sort_newer l) = true.
Proof.
  induction l as [|x l IH]; simpl; [reflexivity|].
  intros H. apply andb_prop in H as [Hx Hl].
  apply insert_newer_records; auto.
Qed.

Lemma Array_sort_records (l : list json) :
  forallb media_record l = true ->
  Array_sort compare_uploadedAt l = Ok (sort_newer l).
Proof.
  induction l as [|x l IH]; simpl; [reflexivity|].
  intros H. apply andb_prop in H as [Hx Hl].
  rewrite (IH Hl). simpl.
  apply insert_sorted_records; auto using sort_newer_records.
Qed.

Lemma insert_newer_sorted (x : json) (l : list json) :
  newer_first l -> newer_first (insert_newer x l).
Proof.
  unfold newer_first. induction 1 as [|y l Hl IH Hy]; simpl.
  - repeat constructor.
  - destruct (0 <? uploadedAt_of y - uploadedAt_of x) eqn:E.
    + apply Z.ltb_lt in E. constructor; [exact IH|].
      eapply Permutation_Forall; [symmetry; apply insert_newer_perm|].
      constructor; [lia | exact Hy].
    + apply Z.ltb_ge in E. constructor; [now constructor|].
      constructor; [lia|].
      eapply List.Forall_impl; [|exact Hy]. simpl. intros. lia.
Qed.

Lemma sort_newer_sorted (l : list json) : newer_first (sort_newer l).
Proof.
  induction l as [|x l IH]; simpl; [constructor|].
  now apply insert_newer_sorted.
Qed.

Lemma filter_records (f : json -> bool) (l : list json) :
  forallb media_record l = true ->
  forallb media_record (List.filter f l) = true.
Proof.
  induction l as [|x l IH]; simpl; [reflexivity|].
  intros H. apply andb_prop in H as [Hx Hl].
  destruct (f x); simpl; [rewrite Hx|]; auto.
Qed.

Lemma listing_invalid_type (type : string) (w : World) :
  type <> "videos" -> type <> "audios" ->
  listing type w
  = (Ok (mkResponse 400 (Json (JObj [("error", JStr "Invalid media type")]))),
     w).
Proof.
  intros Hv Ha. unfold listing.
  apply String.eqb_neq in Hv, Ha. now rewrite Hv, Ha.
Qed.

Lemma listing_valid_type (type : string) (w : World) (records : list json) :
  type = "videos" \/ type = "audios" ->
  collection w = Ok (JArr records) ->
  forallb media_record records = true ->
  listing type w
  = (Ok (mkResponse 200
           (Json (JArr (sort_newer (List.filter (of_kind type) records))))),
     w).
Proof.
  intros Htype Hc Hrec. unfold listing.
  replace (negb _) with false
    by (destruct Htype as [-> | ->]; reflexivity).
  unfold bind at 1. rewrite readMetadata_run, Hc.
  unfold bind at 1. unfold lift at 1. cbn [Array_filter].
  rewrite (filter_items_records type records Hrec).
  unfold bind at 1. unfold lift at 1.
  fold compare_uploadedAt.
  rewrite Array_sort_records by now apply filter_records.
  reflexivity.
Qed.

(** C2. [GET /media/:type].  A type other than [videos] and [audios] is
    answered 400 with a JSON error body, whatever the store holds.  For
    [videos] or [audios] and a store holding media records, the answer is
    200 with exactly the records of that kind (a permutation of them),
    newest upload first. *)
Theorem listing_by_type :
  (forall type w,
     type <> "videos" -> type <> "audios" ->
     listing type w
     = (Ok (mkResponse 400
              (Json (JObj [("error", JStr "Invalid media type")]))), w)) /\
  (forall type w records,
     type = "videos" \/ type = "audios" ->
     collection w = Ok (JArr records) ->
     forallb media_record records = true ->
     exists mediaList,
       listing type w = (Ok (mkResponse 200 (Json (JArr mediaList))), w) /\
       Permutation mediaList (List.filter (of_kind type) records) /\
       newer_first mediaList).
Proof.
  split.
  - apply listing_invalid_type.
  - intros type w records Htype Hc Hrec.
    exists (sort_newer (List.filter (of_kind type) records)).
    split; [now apply listing_valid_type|].
    split; [apply sort_newer_perm | apply sort_newer_sorted].
Qed.

Lemma library_stored : collection library_world = Ok (JArr library).
Proof. vm_compute. reflexivity. Qed.

(** Timestamps 100, 300, 200 are listed as 300, 200, 100. *)
Example listing_library :
  fst (listing "videos" library_world)
  = Ok (mkResponse 200 (Json (JArr
      [metadataEntry "300.mp4" "Night Walk" "Ben" "videos" JNull 300;
       metadataEntry "200.mp4" "Morning Run" "Sundriver" "videos" JNull 200;
       metadataEntry "100.mp4" "Sunset Drive" "Ana" "videos" JNull 100]))).
Proof. vm_compute. reflexivity. Qed.

Lemma listing_by_type_witness :
  listing "images" library_world
  = (Ok (mkResponse 400 (Json (JObj [("error", JStr "Invalid media type")]))),
     library_world) /\
  exists mediaList,
    listing "videos" library_world
    = (Ok (mkResponse 200 (Json (JArr mediaList))), library_world) /\
    Permutation mediaList (List.filter (of_kind "videos") library) /\
    newer_first mediaList.
Proof.
  split.
  - apply (proj1 listing_by_type); discriminate.
  - apply (proj2 listing_by_type "videos" library_world library).
    + left. reflexivity.
    + exact library_stored.
    + reflexivity.
Defined.

(** ** Search *)

Lemma prefix_app (p rest : string) : String.prefix p (p +:+ rest) = true.
Proof. apply prefix_spec. now exists rest. Qed.

Lemma includes_spec (s sub : string) :
  includes s sub = true <-> exists pre post, s = pre +:+ sub +:+ post.
Proof.
  split.
  - induction s as [|c s IH]; cbn [includes]; intros H.
    + rewrite orb_false_r in H. apply prefix_spec in H as [post H].
      now exists EmptyString, post.
    + apply orb_prop in H as [H|H].
      * apply prefix_spec in H as [post H]. now exists EmptyString, post.
      * destruct (IH H) as (pre & post & ->).
        now exists (String c pre), post.
  - intros (pre & post & ->). induction pre as [|c pre IH].
    + cbn [String.append]. pose proof (prefix_app sub post) as H.
      destruct (sub +:+ post); cbn [includes]; now rewrite H.
    + cbn [String.append includes]. rewrite IH. apply orb_true_r.
Qed.

Lemma toLowerCase_app (a b : string) :
  toLowerCase (a +:+ b) = toLowerCase a +:+ toLowerCase b.
Proof. induction a as [|c a IH]; simpl; [reflexivity | now rewrite IH]. Qed.

Lemma toLowerCase_split (s a b : string) :
  toLowerCase s = a +:+ b ->
  exists a' b', s = a' +:+ b' /\ toLowerCase a' = a /\ toLowerCase b' = b.
Proof.
  revert s. induction a as [|c a IH]; intros s H.
  - now exists EmptyString, s.
  - destruct s as [|c' s]; [discriminate H|].
    cbn [toLowerCase String.append] in H. injection H as Hc Hs.
    destruct (IH s Hs) as (a' & b' & -> & <- & <-).
    exists (String c' a'), b'. simpl. now rewrite Hc.
Qed.

Lemma lower_char_idem (c : ascii) : lower_char (lower_char c) = lower_char c.
Proof. destruct c as [[] [] [] [] [] [] [] []]; reflexivity. Qed.

Lemma toLowerCase_idem (s : string) :
  toLowerCase (toLowerCase s) = toLowerCase s.
Proof.
  induction s as [|c s IH]; simpl; [reflexivity|].
  now rewrite lower_char_idem, IH.
Qed.

Lemma trimStart_lower (s : string) :
  toLowerCase s = s -> toLowerCase (trimStart s) = trimStart s.
Proof.
  induction s as [|c s IH]; simpl; [reflexivity|].
  intros H. injection H as Hc Hs.
  destruct (is_space c); [auto|]. simpl. now rewrite Hc, Hs.
Qed.

Lemma trimEnd_lower (s : string) :
  toLowerCase s = s -> toLowerCase (trimEnd s) = trimEnd s.
Proof.
  induction s as [|c s IH]; simpl; [reflexivity|].
  intros H. injection H as Hc Hs. specialize (IH Hs).
  destruct (trimEnd s) as [|c' t].
  - destruct (is_space c); simpl; [reflexivity | now rewrite Hc].
  - cbn [toLowerCase] in *. now rewrite Hc, IH.
Qed.

Lemma normalized_lower (q : option string) :
  toLowerCase (normalized q) = normalized q.
Proof.
  unfold normalized, trim.
  apply trimEnd_lower, trimStart_lower, toLowerCase_idem.
Qed.

(** On a lower-case query, the handler's test is the search up to case. *)
Lemma includes_contains_ci (hay query : string) :
  toLowerCase query = query ->
  includes (toLowerCase hay) query = true <-> contains_ci hay query.
Proof.
  intros Hq. rewrite includes_spec. unfold contains_ci. split.
  - intros (pre & post & H).
    apply toLowerCase_split in H as (pre' & rest & -> & _ & H).
    apply toLowerCase_split in H as (mid & post' & -> & H & _).
    exists pre', mid, post'. split; [reflexivity | congruence].
  - intros (pre & mid & post & -> & H).
    exists (toLowerCase pre), (toLowerCase post).
    rewrite !toLowerCase_app. congruence.
Qed.

Lemma matches_record (query : string) (r : json) :
  media_record r = true -> matches query r = Ok (found query r).
Proof.
  intros Hr.
  destruct (media_record_fields r Hr)
    as (ms & name & title & uploader & kind & t
        & -> & _ & Ht & Hu & Hk & _).
  unfold matches, found, of_kind, kind_of, title_of, uploader_of. simpl.
  rewrite Hk, Ht, Hu. simpl.
  destruct (kind =? "videos")%string; [|reflexivity]. simpl.
  destruct (includes (toLowerCase title) query); reflexivity.
Qed.

Lemma filter_items_matches (query : string) (records : list json) :
  forallb media_record records = true ->
  filter_items (matches query) records
  = Ok (List.filter (found query) records).
Proof.
  induction records as [|r records IH]; simpl; [reflexivity|].
  intros H. apply andb_prop in H as [Hr Hrest].
  rewrite (matches_record query r Hr), (IH Hrest). simpl.
  destruct (found query r); reflexivity.
Qed.

Lemma search_empty_query (q : option string) (w : World) :
  normalized q = "" ->
  search q w = (Ok (mkResponse 200 (Json (JArr []))), w).
Proof. unfold search. fold (normalized q). now intros ->. Qed.

Lemma search_records (q : option string) (w : World) (records : list json) :
  normalized q <> "" ->
  collection w = Ok (JArr records) ->
  forallb media_record records = true ->
  search q w
  = (Ok (mkResponse 200
           (Json (JArr (List.filter (found (normalized q)) records)))), w).
Proof.
  intros Hq Hc Hrec. unfold search. fold (normalized q).
  destruct (normalized q) as [|c query] eqn:E; [congruence|].
  cbn [truthy negb].
  unfold bind at 1. rewrite readMetadata_run, Hc.
  unfold bind at 1. unfold lift at 1. cbn [Array_filter].
  now rewrite (filter_items_matches _ records Hrec).
Qed.

Lemma found_spec (q : option string) (r : json) :
  found (normalized q) r = true <->
  kind_of r = "videos" /\
  (contains_ci (title_of r) (normalized q) \/
   contains_ci (uploader_of r) (normalized q)).
Proof.
  unfold found, of_kind.
  rewrite andb_true_iff, orb_true_iff, String.eqb_eq.
  now rewrite !(includes_contains_ci _ _ (normalized_lower q)).
Qed.

(** *** The handler against the words of the specification *)

Lemma in_all_ascii (c : ascii) : In c all_ascii.
Proof.
  unfold all_ascii. rewrite <- (ascii_nat_embedding c).
  apply in_map, in_seq. pose proof (nat_ascii_bounded c). lia.
Qed.

Lemma every_ascii (P : ascii -> bool) :
  forallb P all_ascii = true -> forall c, P c = true.
Proof.
  intros H c. rewrite forallb_forall in H. apply H, in_all_ascii.
Qed.

Lemma is_space_whitespace (c : ascii) : is_space c = whitespace c.
Proof.
  apply Bool.eqb_prop.
  apply (every_ascii (fun c => Bool.eqb (is_space c) (whitespace c))).
  vm_compute. reflexivity.
Qed.

Lemma whitespace_lower (c : ascii) : whitespace (lower_char c) = whitespace c.
Proof.
  apply Bool.eqb_prop.
  apply (every_ascii
           (fun c => Bool.eqb (whitespace (lower_char c)) (whitespace c))).
  vm_compute. reflexivity.
Qed.

Lemma same_letter_lower (a b : ascii) :
  same_letter a b = (lower_char a =? lower_char b)%char.
Proof.
  apply Bool.eqb_prop.
  apply (every_ascii
           (fun b => Bool.eqb (same_letter a b)
                              (lower_char a =? lower_char b)%char)).
  revert a.
  apply (every_ascii
           (fun a => forallb
                       (fun b => Bool.eqb (same_letter a b)
                                   (lower_char a =? lower_char b)%char)
                       all_ascii)).
  vm_compute. reflexivity.
Qed.

Lemma same_text_lower (a b : string) :
  same_text a b = true <-> toLowerCase a = toLowerCase b.
Proof.
  revert b. induction a as [|x a IH]; intros [|y b]; simpl;
    try (split; [discriminate | intros [=]]).
  - split; reflexivity.
  - rewrite andb_true_iff, same_letter_lower, Ascii.eqb_eq, IH.
    split; [intros [-> ->]; reflexivity | intros [= -> ->]; auto].
Qed.

Lemma all_whitespace_lower (s : string) :
  all_whitespace (toLowerCase s) = all_whitespace s.
Proof.
  unfold all_whitespace. induction s as [|c s IH]; [reflexivity|].
  cbn [toLowerCase list_ascii_of_string forallb].
  now rewrite whitespace_lower, IH.
Qed.

Lemma begins_blank_lower (s : string) :
  begins_blank (toLowerCase s) = begins_blank s.
Proof. destruct s; [reflexivity | apply whitespace_lower]. Qed.

Lemma ends_blank_lower (s : string) :
  ends_blank (toLowerCase s) = ends_blank s.
Proof.
  induction s as [|c s IH]; [reflexivity|].
  destruct s as [|d s]; [apply whitespace_lower|]. exact IH.
Qed.

Lemma trimStart_blank (pre s : string) :
  all_whitespace pre = true -> trimStart (pre +:+ s) = trimStart s.
Proof.
  unfold all_whitespace. induction pre as [|c pre IH]; [reflexivity|].
  cbn [list_ascii_of_string forallb String.append trimStart].
  rewrite andb_true_iff, is_space_whitespace. intros [-> H]. now apply IH.
Qed.

Lemma trimStart_core (s : string) :
  begins_blank s = false -> trimStart s = s.
Proof.
  destruct s as [|c s]; [reflexivity|].
  cbn [begins_blank trimStart]. rewrite is_space_whitespace. now intros ->.
Qed.

Lemma trimEnd_blank (post : string) :
  all_whitespace post = true -> trimEnd post = "".
Proof.
  unfold all_whitespace. induction post as [|c post IH]; [reflexivity|].
  cbn [list_ascii_of_string forallb trimEnd].
  rewrite andb_true_iff, is_space_whitespace. intros [Hc H].
  now rewrite (IH H), Hc.
Qed.

Lemma trimEnd_core (s post : string) :
  s <> "" -> ends_blank s = false -> all_whitespace post = true ->
  trimEnd (s +:+ post) = s.
Proof.
  intros Hne Hs Hpost. induction s as [|c s IH]; [now destruct Hne|].
  destruct s as [|d s].
  - cbn [String.append trimEnd ends_blank] in *.
    rewrite (trimEnd_blank post Hpost), is_space_whitespace, Hs.
    reflexivity.
  - change (String c (String d s) +:+ post)
      with (String c (String d s +:+ post)).
    cbn [trimEnd]. rewrite IH; [reflexivity | discriminate | exact Hs].
Qed.

(** A query of white space alone is the empty query for the handler. *)
Lemma normalized_blank (s : string) :
  all_whitespace s = true -> normalized (Some s) = "".
Proof.
  intros H. unfold normalized, trim.
  assert (E : or_default (Some s) "" = s) by (now destruct s).
  rewrite E, <- (append_nil_r (toLowerCase s)).
  rewrite trimStart_blank by now rewrite all_whitespace_lower.
  reflexivity.
Qed.

(** The query as the handler uses it is the query of the visitor without
    the white space around it, in lower case. *)
Lemma normalized_trimmed (s core : string) :
  trimmed s core -> core <> "" -> normalized (Some s) = toLowerCase core.
Proof.
  intros (pre & post & -> & Hpre & Hpost & Hb & He) Hne.
  unfold normalized, trim.
  assert (E : forall t, or_default (Some t) "" = t) by (now intros []).
  rewrite E, !toLowerCase_app.
  rewrite trimStart_blank by now rewrite all_whitespace_lower.
  rewrite trimStart_core.
  - apply trimEnd_core.
    + destruct core; [now destruct Hne | discriminate].
    + now rewrite ends_blank_lower.
    + now rewrite all_whitespace_lower.
  - destruct core as [|c core]; [now destruct Hne|].
    cbn [toLowerCase String.append begins_blank] in *.
    now rewrite whitespace_lower.
Qed.

Lemma occurs_contains_ci (hay core : string) :
  occurs hay core <-> contains_ci hay (toLowerCase core).
Proof.
  unfold occurs, contains_ci. split;
    intros (pre & mid & post & -> & H); exists pre, mid, post;
    (split; [reflexivity|]).
  - rewrite toLowerCase_idem. now apply same_text_lower.
  - apply same_text_lower. now rewrite toLowerCase_idem in H.
Qed.

(** C3. [GET /media/videos/search].  When there is no query, or the query
    is white space alone, the answer is the empty array, whatever the
    store holds.  Otherwise, on a store of media records, the answer is
    the records, in store order, that are videos and in whose title or
    uploader name the query, taken without the white space around it,
    occurs up to the case of the letters; no audio record is among
    them. *)
Theorem search_videos :
  (forall q w,
     q = None \/ (exists s, q = Some s /\ all_whitespace s = true) ->
     search q w = (Ok (mkResponse 200 (Json (JArr []))), w)) /\
  (forall s core w records,
     trimmed s core ->
     core <> "" ->
     collection w = Ok (JArr records) ->
     forallb media_record records = true ->
     exists keep,
       search (Some s) w
       = (Ok (mkResponse 200 (Json (JArr (List.filter keep records)))), w) /\
       (forall r,
          keep r = true <->
          kind_of r = "videos" /\
          (occurs (title_of r) core \/ occurs (uploader_of r) core)) /\
       (forall r, In r (List.filter keep records) -> kind_of r <> "audios")).
Proof.
  split.
  - intros q w [-> | (s & -> & Hs)]; apply search_empty_query;
      [reflexivity | now apply normalized_blank].
  - intros s core w records Hcore Hne Hc Hrec.
    pose proof (normalized_trimmed s core Hcore Hne) as Hq.
    assert (Hnz : normalized (Some s) <> "").
    { rewrite Hq. destruct core; [now destruct Hne | discriminate]. }
    assert (Hspec : forall r,
      found (normalized (Some s)) r = true <->
      kind_of r = "videos" /\
      (occurs (title_of r) core \/ occurs (uploader_of r) core)).
    { intros r. rewrite found_spec, Hq, !occurs_contains_ci. reflexivity. }
    exists (found (normalized (Some s))).
    split; [now apply search_records|].
    split; [exact Hspec|].
    intros r Hr. apply filter_In in Hr as [_ Hr].
    apply Hspec in Hr as [-> _]. discriminate.
Qed.

Lemma search_videos_witness :
  search (Some "   ") library_world
  = (Ok (mkResponse 200 (Json (JArr []))), library_world) /\
  exists keep,
    search (Some " DRIVE ") library_world
    = (Ok (mkResponse 200 (Json (JArr (List.filter keep library)))),
       library_world) /\
    (forall r,
       keep r = true <->
       kind_of r = "videos" /\
       (occurs (title_of r) "DRIVE" \/ occurs (uploader_of r) "DRIVE")) /\
    (forall r, In r (List.filter keep library) -> kind_of r <> "audios").
Proof.
  split.
  - apply (proj1 search_videos). right. exists "   ". split; reflexivity.
  - apply (proj2 search_videos " DRIVE " "DRIVE" library_world library).
    + exists " ", " ". repeat split; reflexivity.
    + discriminate.
    + exact library_stored.
    + reflexivity.
Defined.

(** [Sunset Drive] and the uploader [Sundriver] match [drive] in any
    case; the audio [Drive Time Radio] is not returned. *)
Example search_library :
  fst (search (Some "DRIVE") library_world)
  = Ok (mkResponse 200 (Json (JArr
      [metadataEntry "100.mp4" "Sunset Drive" "Ana" "videos" JNull 100;
       metadataEntry "200.mp4" "Morning Run" "Sundriver" "videos" JNull 200]))).
Proof. vm_compute. reflexivity. Qed.

(** ** Upload, then listing *)

Lemma new_entry_record (c : copy) (req : UploadRequest)
  (f : UploadedFile) (now1 now2 : Z) :
  media_record (new_entry c req f now1 now2) = true.
Proof.
  unfold new_entry, metadataEntry, thumbnail_field.
  destruct (thumbnail req); reflexivity.
Qed.

(** C1, as the code has it.  For every upload request whose media file
    has a content type beginning with [video], on a store whose document
    is absent, is not JSON, or holds an array of media records (a
    document that cannot be read is left out), once the upload handler
    has answered (at a time value of the clock), the listing of [videos]
    answers 200 with a collection that holds a record whose title is the
    submitted title, or the original file name when the title is omitted
    or empty, and whose uploader name is the submitted one, or [Unknown]
    when it is omitted or empty. *)
Theorem upload_then_listing (c : copy) (req : UploadRequest)
  (f : UploadedFile) (now1 now2 : Z) (w w' : World) (resp : response)
  (records : list json) :
  time_value now2 = true ->
  media req = Some f ->
  (exists rest, mimetype f = "video" +:+ rest) ->
  document_at metadataFile w <> ReadFails ->
  collection w = Ok (JArr records) ->
  forallb media_record records = true ->
  upload c req now1 now2 w = (Ok resp, w') ->
  exists mediaList r,
    listing "videos" w' = (Ok (mkResponse 200 (Json (JArr mediaList))), w') /\
    In r mediaList /\
    title_of r = match videoName req with
                 | Some (String ch t) => String ch t
                 | _ => originalname f
                 end /\
    uploader_of r = match username req with
                    | Some (String ch u) => String ch u
                    | _ => "Unknown"
                    end.
Proof.
  intros Hnow Hm Hvideo _ Hc Hrec Hrun.
  destruct (upload_appends _ _ _ _ _ _ _ _ Hnow Hm Hrun)
    as (records' & Hc0 & Hc').
  rewrite Hc in Hc0. injection Hc0 as <-.
  set (entry := new_entry c req f now1 now2) in *.
  assert (Hall : forallb media_record (records ++ [entry]) = true).
  { rewrite forallb_app, Hrec. cbn [forallb andb].
    unfold entry. now rewrite new_entry_record. }
  exists (sort_newer (List.filter (of_kind "videos") (records ++ [entry]))),
         entry.
  split; [apply listing_valid_type; auto|].
  assert (Hkind : mediaType f = "videos")
    by now apply (proj1 (mediaType_kind f)).
  split; [|split].
  - eapply Permutation_in; [symmetry; apply sort_newer_perm|].
    apply filter_In. split; [apply in_app_iff; right; now left|].
    unfold of_kind, kind_of, entry, new_entry. simpl. now rewrite Hkind.
  - unfold entry, new_entry, title_of. simpl.
    destruct (videoName req) as [[|ch t]|]; reflexivity.
  - unfold entry, new_entry, uploader_of. simpl.
    destruct (username req) as [[|ch u]|]; reflexivity.
Qed.

(** The clip, uploaded into the library of four records, one of which
    has its title. *)
Lemma upload_then_listing_witness :
  exists mediaList r,
    listing "videos"
      (snd (upload SecondCopy clip_request 1700 1701 library_staged_world))
    = (Ok (mkResponse 200 (Json (JArr mediaList))),
       snd (upload SecondCopy clip_request 1700 1701 library_staged_world)) /\
    In r mediaList /\
    title_of r = "Sunset Drive" /\
    uploader_of r = "Unknown".
Proof.
  apply (upload_then_listing SecondCopy clip_request clip 1700 1701
           library_staged_world _ upload_successful library).
  - reflexivity.
  - reflexivity.
  - exists "/mp4". reflexivity.
  - vm_compute. discriminate.
  - exact library_stored_staged.
  - reflexivity.
  - apply clip_upload_into_library.
Defined.

(** Why the store has to hold media records: on the document [[null]]
    the handlers read a property of [null] and throw. *)
Example listing_null_item :
  collection null_item_world = Ok (JArr [JNull]) /\
  fst (listing "videos" null_item_world) = Throw TypeError /\
  fst (search (Some "drive") null_item_world) = Throw TypeError.
Proof. repeat split; vm_compute; reflexivity. Qed.

(** C1 as stated fails on two grounds.  On an empty title: the upload
    succeeds, the listing answers, and no record in it has the submitted
    (empty) title; the record has the original file name.  On a store
    state: over the document [[null]] the upload of a video answers 200,
    and the listing of [videos] that follows throws instead of
    returning a collection. *)
Lemma upload_then_listing_counterexample :
  (fst (upload SecondCopy untitled_request 1700 1701 staged_world)
   = Ok upload_successful /\
   exists mediaList,
     fst (listing "videos"
            (snd (upload SecondCopy untitled_request 1700 1701 staged_world)))
     = Ok (mkResponse 200 (Json (JArr mediaList))) /\
     map title_of mediaList = ["clip.mp4"] /\
     ~ exists r, In r mediaList /\ title_of r = "") /\
  (fst (upload SecondCopy clip_request 1700 1701 null_store_staged_world)
   = Ok upload_successful /\
   fst (listing "videos"
          (snd (upload SecondCopy clip_request 1700 1701
                  null_store_staged_world)))
   = Throw TypeError).
Proof.
  split.
  - split; [vm_compute; reflexivity|].
    eexists. split; [vm_compute; reflexivity|].
    split; [reflexivity|].
    intros (r & [<- | []] & H). discriminate H.
  - split; vm_compute; reflexivity.
Qed.

(** ** The scan of [path.extname] and [path.parse] *)

Lemma sol_app (a b : list ascii) : sol (a ++ b) = sol a +:+ sol b.
Proof. induction a as [|c a IH]; simpl; [reflexivity | now rewrite IH]. Qed.

Lemma los_app (a b : string) : los (a +:+ b) = los a ++ los b.
Proof. induction a as [|c a IH]; simpl; [reflexivity | now rewrite IH]. Qed.

Lemma sol_length (a : list ascii) : String.length (sol a) = length a.
Proof. induction a as [|c a IH]; simpl; [reflexivity | now rewrite IH]. Qed.

Lemma los_length (a : string) : length (los a) = String.length a.
Proof. induction a as [|c a IH]; simpl; [reflexivity | now rewrite IH]. Qed.

Lemma substring_all (b c : string) :
  String.substring 0 (String.length b) (b +:+ c) = b.
Proof.
  induction b as [|x b IH]; simpl.
  - now destruct c.
  - now rewrite IH.
Qed.

Lemma substring_middle (a b c : string) :
  String.substring (String.length a) (String.length b) (a +:+ b +:+ c) = b.
Proof.
  induction a as [|x a IH]; simpl; [apply substring_all | exact IH].
Qed.

(** The steps of the scan, by the kind of character. *)
Lemma plain_not_slash (c : ascii) :
  plain c = true -> (c =? "/")%char = false /\ (c =? ".")%char = false.
Proof.
  unfold plain. intros H. apply andb_prop in H as [H1 H2].
  now destruct (c =? "/")%char, (c =? ".")%char.
Qed.

Lemma scan_step_plain (i : Z) (c : ascii) (st : scan) :
  plain c = true ->
  scan_step i c st
  = (if startDot (mark i st) =? -1 then mark i st
     else mkScan (startDot (mark i st)) (startPart (mark i st))
                 (endPos (mark i st)) (matchedSlash (mark i st)) (-1),
     false).
Proof.
  intros H. destruct (plain_not_slash c H) as [Hs Hd].
  unfold scan_step, mark. rewrite Hs, Hd.
  destruct (endPos st =? -1); cbn [startDot];
    destruct (startDot st =? -1); reflexivity.
Qed.

Lemma scan_step_dot (i : Z) (st : scan) :
  scan_step i "." st
  = (if startDot (mark i st) =? -1
     then mkScan i (startPart (mark i st)) (endPos (mark i st))
                 (matchedSlash (mark i st)) (preDotState (mark i st))
     else if negb (preDotState (mark i st) =? 1)
     then mkScan (startDot (mark i st)) (startPart (mark i st))
                 (endPos (mark i st)) (matchedSlash (mark i st)) 1
     else mark i st,
     false).
Proof.
  unfold scan_step, mark. cbn [Ascii.eqb Bool.eqb].
  destruct (endPos st =? -1); cbn [startDot preDotState];
    destruct (startDot st =? -1); try reflexivity;
    destruct (preDotState st =? 1); reflexivity.
Qed.

Lemma scan_step_slash (i : Z) (st : scan) :
  scan_step i "/" st
  = if negb (matchedSlash st)
    then (mkScan (startDot st) (i + 1) (endPos st) (matchedSlash st)
                 (preDotState st), true)
    else (st, false).
Proof. reflexivity. Qed.

(** Every character is a slash, a dot or plain. *)
Lemma char_cases (c : ascii) :
  c = "/"%char \/ c = "."%char \/ plain c = true.
Proof.
  unfold plain.
  destruct (Ascii.eqb_spec c "/"); [now left|].
  destruct (Ascii.eqb_spec c "."); [now right; left|].
  now right; right.
Qed.

Ltac scan_simpl :=
  cbn [endPos startDot startPart matchedSlash preDotState
       Z.eqb Pos.eqb negb fst snd].

(** Plain characters scanned from the start, before any dot. *)
Lemma scan_plain_ended (chars rest : list ascii) (i e : Z) :
  forallb plain chars = true -> e <> -1 ->
  scan_loop (chars ++ rest) i (mkScan (-1) 0 e false 0)
  = scan_loop rest (i - Z.of_nat (length chars)) (mkScan (-1) 0 e false 0).
Proof.
  revert i. induction chars as [|c chars IH]; intros i H He.
  - simpl. f_equal. lia.
  - cbn [forallb] in H. apply andb_prop in H as [Hc Hrest].
    cbn [app scan_loop]. rewrite (scan_step_plain _ _ _ Hc).
    unfold mark. scan_simpl.
    apply Z.eqb_neq in He. rewrite He. scan_simpl.
    rewrite (IH (i - 1) Hrest) by now apply Z.eqb_neq.
    f_equal. cbn [length]. lia.
Qed.

Lemma scan_plain_init (chars rest : list ascii) (i : Z) :
  forallb plain chars = true -> chars <> [] -> 0 <= i ->
  scan_loop (chars ++ rest) i scan_init
  = scan_loop rest (i - Z.of_nat (length chars))
      (mkScan (-1) 0 (i + 1) false 0).
Proof.
  destruct chars as [|c chars]; [congruence|]. intros H _ Hi.
  cbn [forallb] in H. apply andb_prop in H as [Hc Hrest].
  cbn [app scan_loop]. rewrite (scan_step_plain _ _ _ Hc).
  unfold mark, scan_init. scan_simpl.
  rewrite (scan_plain_ended chars rest (i - 1) (i + 1) Hrest) by lia.
  f_equal. cbn [length]. lia.
Qed.

(** Plain characters scanned after the dot. *)
Lemma scan_plain_dotted (chars rest : list ascii) (i sd e p : Z) :
  forallb plain chars = true -> chars <> [] -> sd <> -1 -> e <> -1 ->
  scan_loop (chars ++ rest) i (mkScan sd 0 e false p)
  = scan_loop rest (i - Z.of_nat (length chars)) (mkScan sd 0 e false (-1)).
Proof.
  intros H Hne Hsd He. apply Z.eqb_neq in Hsd, He.
  assert (Hgen : forall chars i p,
    forallb plain chars = true ->
    scan_loop (chars ++ rest) i (mkScan sd 0 e false p)
    = scan_loop rest (i - Z.of_nat (length chars))
        (mkScan sd 0 e false (match chars with [] => p | _ => -1 end))).
  { clear chars H Hne i p. induction chars as [|c chars IH]; intros i p H.
    - simpl. f_equal. lia.
    - cbn [forallb] in H. apply andb_prop in H as [Hc Hrest].
      cbn [app scan_loop]. rewrite (scan_step_plain _ _ _ Hc).
      unfold mark. scan_simpl. rewrite He. scan_simpl.
      rewrite Hsd. scan_simpl.
      rewrite (IH (i - 1) (-1) Hrest).
      replace (i - 1 - Z.of_nat (length chars))
        with (i - Z.of_nat (length (c :: chars))) by (cbn [length]; lia).
      now destruct chars. }
  rewrite (Hgen chars i p H). now destruct chars.
Qed.

(** The scan of a plain name followed by a dot and a plain extension. *)
Lemma scan_name_dot_ext (name ext : list ascii) :
  forallb plain name = true -> name <> [] ->
  forallb plain ext = true ->
  scan_loop (rev (name ++ "."%char :: ext))
    (Z.of_nat (length (name ++ "."%char :: ext)) - 1) scan_init
  = mkScan (Z.of_nat (length name)) 0
           (Z.of_nat (length (name ++ "."%char :: ext))) false (-1).
Proof.
  intros Hname Hne Hext.
  rewrite rev_app_distr. cbn [rev]. rewrite <- app_assoc. cbn [app].
  rewrite length_app. cbn [length].
  assert (Hrn : forallb plain (rev name) = true).
  { rewrite forallb_forall in *. intros x Hx. apply Hname.
    now apply in_rev. }
  assert (Hre : forallb plain (rev ext) = true).
  { rewrite forallb_forall in *. intros x Hx. apply Hext.
    now apply in_rev. }
  assert (Hrne : rev name <> []).
  { intros E. apply Hne. apply (f_equal (@rev ascii)) in E.
    now rewrite rev_involutive in E. }
  destruct ext as [|x ext'].
  - cbn [rev app scan_loop]. rewrite scan_step_dot.
    unfold mark, scan_init. scan_simpl.
    rewrite <- (app_nil_r (rev name)).
    rewrite (scan_plain_dotted (rev name) [] _ _ _ _ Hrn Hrne) by lia.
    cbn [scan_loop length]. f_equal; lia.
  - rewrite (scan_plain_init (rev (x :: ext')) _ _ Hre);
      [| intros E; apply (f_equal (@length ascii)) in E;
         rewrite length_rev in E; discriminate E | lia].
    cbn [scan_loop]. rewrite scan_step_dot.
    unfold mark. scan_simpl.
    replace (_ + 1 =? -1) with false by (symmetry; apply Z.eqb_neq; lia).
    scan_simpl.
    rewrite <- (app_nil_r (rev name)).
    rewrite (scan_plain_dotted (rev name) [] _ _ _ _ Hrn Hrne)
      by (rewrite ?length_rev; lia).
    cbn [scan_loop]. rewrite !length_rev. f_equal; lia.
Qed.

(** The scan of a plain name without a dot. *)
Lemma scan_name (name : list ascii) :
  forallb plain name = true -> name <> [] ->
  scan_loop (rev name) (Z.of_nat (length name) - 1) scan_init
  = mkScan (-1) 0 (Z.of_nat (length name)) false 0.
Proof.
  intros Hname Hne.
  assert (Hrn : forallb plain (rev name) = true).
  { rewrite forallb_forall in *. intros x Hx. apply Hname.
    now apply in_rev. }
  assert (Hrne : rev name <> []).
  { intros E. apply Hne. apply (f_equal (@rev ascii)) in E.
    now rewrite rev_involutive in E. }
  rewrite <- (app_nil_r (rev name)).
  rewrite (scan_plain_init (rev name) [] _ Hrn Hrne)
    by (destruct name; [congruence | cbn [length]; lia]).
  cbn [scan_loop]. f_equal. lia.
Qed.

(** [path.parse] of a plain name, with or without a plain extension,
    gives the name back. *)
Lemma path_parse_name_plain (name : string) :
  forallb plain (los name) = true -> name <> "" ->
  path_parse_name name = name.
Proof.
  intros Hplain Hne. destruct name as [|c0 rest] eqn:E; [congruence|].
  rewrite <- E in *. unfold path_parse_name. rewrite E at 1.
  assert (Hc0 : (c0 =? "/")%char = false).
  { rewrite E in Hplain. cbn [los list_ascii_of_string forallb] in Hplain.
    apply andb_prop in Hplain as [Hc _]. now apply plain_not_slash in Hc. }
  rewrite Hc0. fold (los name). rewrite <- los_length.
  rewrite scan_name; [|exact Hplain|].
  - scan_simpl. unfold no_extension. scan_simpl. cbn [orb andb].
    replace (Z.of_nat (length (los name)) =? -1) with false
      by (symmetry; apply Z.eqb_neq; lia).
    unfold slice. rewrite Z.sub_0_r, Nat2Z.id, los_length.
    change (Z.to_nat 0) with 0%nat.
    rewrite <- (append_nil_r name) at 2. apply substring_all.
  - rewrite E. discriminate.
Qed.

Lemma path_parse_name_ext (name ext : string) :
  forallb plain (los name) = true -> name <> "" ->
  forallb plain (los ext) = true ->
  path_parse_name (name +:+ String "." ext) = name.
Proof.
  intros Hplain Hne Hext. destruct name as [|c0 rest] eqn:E; [congruence|].
  rewrite <- E in *. unfold path_parse_name.
  assert (Hc0 : (c0 =? "/")%char = false).
  { rewrite E in Hplain. cbn [los list_ascii_of_string forallb] in Hplain.
    apply andb_prop in Hplain as [Hc _]. now apply plain_not_slash in Hc. }
  assert (Hhead : name +:+ String "." ext
                  = String c0 (rest +:+ String "." ext)) by now rewrite E.
  rewrite Hhead at 1. rewrite Hc0.
  fold (los (name +:+ String "." ext)). rewrite <- los_length.
  rewrite los_app. change (los (String "." ext)) with ("."%char :: los ext).
  rewrite scan_name_dot_ext; [|exact Hplain| |exact Hext].
  - scan_simpl. unfold no_extension. scan_simpl.
    assert (Hlen : (0 < length (los name))%nat).
    { rewrite los_length, E. simpl. lia. }
    replace (Z.of_nat (length (los name ++ "."%char :: los ext)) =? -1)
      with false by (symmetry; apply Z.eqb_neq; lia).
    replace (Z.of_nat (length (los name)) =? -1)
      with false by (symmetry; apply Z.eqb_neq; lia).
    cbn [orb andb].
    unfold slice. rewrite Z.sub_0_r, Nat2Z.id, los_length.
    change (Z.to_nat 0) with 0%nat. apply substring_all.
  - rewrite E. discriminate.
Qed.

Lemma ext_inv_stop (i : Z) (c : ascii) (st st' : scan)
  (scanned : list ascii) :
  scan_step i c st = (st', true) ->
  ext_inv st scanned i -> ext_inv st' scanned i.
Proof.
  intros Hstep Hinv.
  assert (H : endPos st' = endPos st /\ startDot st' = startDot st /\
              matchedSlash st' = matchedSlash st).
  { destruct (char_cases c) as [-> | [-> | Hc]].
    - rewrite scan_step_slash in Hstep.
      destruct (negb (matchedSlash st));
        [injection Hstep as <-; auto | discriminate Hstep].
    - rewrite scan_step_dot in Hstep. discriminate.
    - rewrite (scan_step_plain _ _ _ Hc) in Hstep. discriminate. }
  destruct H as (He & Hd & Hm). unfold ext_inv. now rewrite He, Hd, Hm.
Qed.

Lemma ext_inv_intro (st : scan) (scanned u z : list ascii) (i : Z) :
  endPos st <> -1 ->
  matchedSlash st = false ->
  scanned = u ++ z ->
  endPos st = i + 1 + Z.of_nat (length u) ->
  (startDot st = -1 -> forallb plain u = true) ->
  (startDot st <> -1 ->
   exists a t,
     u = a ++ "."%char :: t /\ forallb plain t = true /\
     startDot st = i + 1 + Z.of_nat (length a)) ->
  ext_inv st scanned i.
Proof.
  intros He Hm Hs Hend Hplain Hdot. split; [congruence|].
  intros _. split; [exact Hm|]. exists u, z. auto.
Qed.

Lemma ext_inv_step (i : Z) (c : ascii) (st st' : scan)
  (scanned : list ascii) :
  0 <= i ->
  scan_step i c st = (st', false) ->
  ext_inv st scanned i -> ext_inv st' (c :: scanned) (i - 1).
Proof.
  intros Hi Hstep [Hnone Hsome].
  destruct (Z.eq_dec (endPos st) (-1)) as [He | He].
  - (* nothing but slashes so far *)
    destruct (Hnone He) as [Hd Hm].
    destruct (char_cases c) as [-> | [-> | Hc]].
    + rewrite scan_step_slash, Hm in Hstep. injection Hstep as <-.
      split; [auto | congruence].
    + rewrite scan_step_dot in Hstep. unfold mark in Hstep.
      rewrite He, Hd in Hstep. cbn in Hstep. injection Hstep as <-.
      apply (ext_inv_intro _ _ ["."%char] scanned); cbn; try lia; auto.
      intros _. exists [], []. cbn. repeat split. lia.
    + rewrite (scan_step_plain _ _ _ Hc) in Hstep. unfold mark in Hstep.
      rewrite He, Hd in Hstep. cbn in Hstep. injection Hstep as <-.
      apply (ext_inv_intro _ _ [c] scanned); cbn; try lia; auto.
      intros _. now rewrite Hc.
  - (* inside the last component *)
    destruct (Hsome He) as (Hm & u & z & -> & Hend & Hplain & Hdot).
    pose proof (proj2 (Z.eqb_neq _ _) He) as Heb.
    destruct (char_cases c) as [-> | [-> | Hc]].
    + rewrite scan_step_slash, Hm in Hstep. discriminate.
    + rewrite scan_step_dot in Hstep. unfold mark in Hstep.
      rewrite Heb in Hstep.
      destruct (Z.eq_dec (startDot st) (-1)) as [Hd | Hd].
      * rewrite Hd in Hstep. cbn in Hstep. injection Hstep as <-.
        apply (ext_inv_intro _ _ ("."%char :: u) z); cbn; try lia; auto.
        intros _. exists [], u. cbn. repeat split; auto. lia.
      * pose proof (proj2 (Z.eqb_neq _ _) Hd) as Hdb.
        rewrite Hdb in Hstep.
        destruct (Hdot Hd) as (a & t & -> & Ht & Hsd).
        assert (Hfields : endPos st' = endPos st /\
                          startDot st' = startDot st /\
                          matchedSlash st' = matchedSlash st).
        { destruct (negb (preDotState st =? 1));
            injection Hstep as <-; auto. }
        destruct Hfields as (E1 & E2 & E3).
        apply (ext_inv_intro _ _ ("."%char :: a ++ "."%char :: t) z);
          try congruence.
        -- reflexivity.
        -- rewrite E1, Hend. cbn [length]. lia.
        -- intros _. exists ("."%char :: a), t.
           repeat split; auto. rewrite E2, Hsd. cbn [length]. lia.
    + rewrite (scan_step_plain _ _ _ Hc) in Hstep. unfold mark in Hstep.
      rewrite Heb in Hstep.
      destruct (Z.eq_dec (startDot st) (-1)) as [Hd | Hd].
      * rewrite Hd in Hstep. cbn in Hstep. injection Hstep as <-.
        apply (ext_inv_intro _ _ (c :: u) z); cbn [length]; try lia; auto.
        intros _. cbn [forallb]. now rewrite Hc, Hplain.
      * pose proof (proj2 (Z.eqb_neq _ _) Hd) as Hdb.
        rewrite Hdb in Hstep. injection Hstep as <-.
        destruct (Hdot Hd) as (a & t & -> & Ht & Hsd).
        apply (ext_inv_intro _ _ (c :: a ++ "."%char :: t) z);
          cbn [endPos startDot matchedSlash]; try congruence.
        -- reflexivity.
        -- rewrite Hend. cbn [length]. lia.
        -- intros _. exists (c :: a), t.
           repeat split; auto. rewrite Hsd. cbn [length]. lia.
Qed.

Lemma ext_inv_loop (r : list ascii) :
  forall scanned st i,
    i = Z.of_nat (length r) - 1 ->
    ext_inv st scanned i ->
    exists p scanned' i',
      rev r ++ scanned = p ++ scanned' /\
      Z.of_nat (length p) = i' + 1 /\
      ext_inv (scan_loop r i st) scanned' i'.
Proof.
  induction r as [|c r IH]; intros scanned st i Hi Hinv.
  - exists [], scanned, i. split; [reflexivity|].
    split; [cbn [length] in *; lia | exact Hinv].
  - cbn [scan_loop]. destruct (scan_step i c st) as [st' stop] eqn:Hstep.
    cbn [length] in Hi. destruct stop.
    + exists (rev (c :: r)), scanned, i. split; [reflexivity|]. split.
      * rewrite length_rev. cbn [length]. lia.
      * eapply ext_inv_stop; eassumption.
    + destruct (IH (c :: scanned) st' (i - 1)) as (p & s' & i' & E & Hp & H).
      * lia.
      * eapply ext_inv_step; try eassumption. lia.
      * exists p, s', i'. split; [|split; auto].
        cbn [rev]. now rewrite <- app_assoc.
Qed.

(** The extension [path.extname] returns is empty, or a dot followed by
    characters that are neither dots nor slashes. *)
Lemma path_extname_shape (x : string) :
  path_extname x = "" \/
  exists t, path_extname x = String "." t /\ forallb plain (los t) = true.
Proof.
  unfold path_extname. fold (los x). rewrite <- los_length.
  destruct (ext_inv_loop (rev (los x)) [] scan_init
              (Z.of_nat (length (los x)) - 1))
    as (p & scanned & i & E & Hp & [Hnone Hsome]).
  { now rewrite length_rev. }
  { split; [auto | intros H; now contradiction H]. }
  set (st := scan_loop _ _ _) in *.
  destruct (no_extension st || (endPos st =? -1)) eqn:Hno; [now left|].
  right. apply orb_false_elim in Hno as [Hno Hend].
  unfold no_extension in Hno.
  apply orb_false_elim in Hno as [Hno _].
  apply orb_false_elim in Hno as [Hdot _].
  apply Z.eqb_neq in Hend, Hdot.
  destruct (Hsome Hend) as (_ & u & z & -> & He & _ & Hd).
  destruct (Hd Hdot) as (a & t & -> & Ht & Hsd).
  exists (sol t). split.
  - rewrite rev_involutive, app_nil_r in E.
    assert (Hx : x = sol (p ++ a) +:+ sol ("."%char :: t) +:+ sol z).
    { rewrite <- !sol_app.
      replace ((p ++ a) ++ ("."%char :: t) ++ z) with (los x)
        by (rewrite E, <- !app_assoc; reflexivity).
      symmetry. apply string_of_list_ascii_of_string. }
    unfold slice. rewrite Hx at 1.
    replace (Z.to_nat (startDot st)) with (String.length (sol (p ++ a)))
      by (rewrite sol_length, length_app; lia).
    replace (Z.to_nat (endPos st - startDot st))
      with (String.length (sol ("."%char :: t)))
      by (rewrite sol_length, He, Hsd, length_app; cbn [length]; lia).
    apply substring_middle.
  - unfold los, sol. now rewrite list_ascii_of_string_of_list_ascii.
Qed.

(** The decimal text of a number holds no dot and no slash. *)
Lemma uint_plain (d : Decimal.uint) :
  forallb plain (los (NilEmpty.string_of_uint d)) = true.
Proof. induction d; simpl; auto. Qed.

Lemma Number_toString_plain (n : Z) :
  forallb plain (los (Number_toString n)) = true /\ Number_toString n <> "".
Proof.
  assert (H : forall p, forallb plain (los (digits_of_N (Npos p))) = true /\
                        digits_of_N (Npos p) <> "").
  { intros p. unfold digits_of_N. simpl N.to_uint.
    pose proof (DecimalPos.Unsigned.to_uint_nonnil p) as Hnil.
    pose proof (uint_plain (Pos.to_uint p)) as Hp.
    destruct (Pos.to_uint p); try congruence; split; try exact Hp;
      discriminate. }
  destruct n as [|p|p]; simpl.
  - split; [reflexivity | discriminate].
  - apply H.
  - split; [|discriminate]. apply (H p).
Qed.

(** The base name of the generated media file name is the time stamp. *)
Lemma mediaFilename_base (now1 : Z) (f : UploadedFile) :
  path_parse_name (mediaFilename now1 f) = Number_toString now1.
Proof.
  unfold mediaFilename.
  destruct (Number_toString_plain now1) as [Hplain Hne].
  destruct (path_extname_shape (originalname f)) as [-> | (t & -> & Ht)].
  - rewrite append_nil_r. now apply path_parse_name_plain.
  - now apply path_parse_name_ext.
Qed.

(** ** The name of the thumbnail *)

(** In the second copy the thumbnail is named after the base name of the
    media file -- its generated name without the extension, which is the
    time stamp -- followed by the thumbnail's own extension. *)
Lemma second_copy_thumbFilename (now1 : Z) (f tf : UploadedFile) :
  mediaFilename now1 f
  = Number_toString now1 +:+ path_extname (originalname f) /\
  thumbFilename SecondCopy (mediaFilename now1 f) tf
  = Number_toString now1 +:+ path_extname (originalname tf).
Proof.
  split; [reflexivity|].
  unfold thumbFilename. now rewrite mediaFilename_base.
Qed.

(** In the first copy it is named after the whole media file name. *)
Lemma first_copy_thumbFilename (now1 : Z) (f tf : UploadedFile) :
  thumbFilename FirstCopy (mediaFilename now1 f) tf
  = Number_toString now1 +:+ path_extname (originalname f)
    +:+ path_extname (originalname tf).
Proof. unfold thumbFilename, mediaFilename. now rewrite append_assoc. Qed.

(** After an upload with a thumbnail has answered, the staged thumbnail
    is stored under [uploads/thumbnails/] with the name [thumbFilename]
    gives, and the new record holds its public path. *)
Lemma upload_stores_thumbnail (c : copy) (req : UploadRequest)
  (f tf : UploadedFile) (now1 now2 : Z) (w w' : World) (resp : response) :
  time_value now2 = true ->
  media req = Some f ->
  thumbnail req = Some tf ->
  upload c req now1 now2 w = (Ok resp, w') ->
  let name := thumbFilename c (mediaFilename now1 f) tf in
  is_Some (fs w !! path tf) /\
  fs w' !! path_join ["uploads/thumbnails"; name] = fs w !! path tf /\
  exists records,
    collection w' = Ok (JArr (records ++ [new_entry c req f now1 now2])) /\
    field "thumbnail" (new_entry c req f now1 now2)
    = Some (JStr ("/media/thumbnails/" +:+ name)).
Proof.
  intros Hnow Hm Ht Hrun name.
  destruct (upload_appends _ _ _ _ _ _ _ _ Hnow Hm Hrun)
    as (records & _ & Hc').
  destruct (upload_run _ _ _ _ _ _ _ _ Hm Hrun)
    as (staged & files & records0 & Hstaged & Hfiles & _ & _ & ->).
  apply files_moved_inv in Hfiles as [_ Hfiles]. rewrite Ht in Hfiles.
  destruct Hfiles as (n & Hn & _ & ->).
  assert (Horig : fs w !! path tf = Some n).
  { unfold renamed in Hn.
    rewrite lookup_insert_ne in Hn by (destruct (mediaType_kind f)
      as (_ & _ & [E | E]); unfold mediaPath; rewrite E; discriminate).
    destruct (decide (path f = path tf)) as [E | E].
    - rewrite <- E, lookup_delete_eq in Hn. discriminate.
    - now rewrite lookup_delete_ne in Hn. }
  split; [rewrite Horig; eauto|]. split.
  - cbn [fs]. rewrite lookup_insert_ne by discriminate.
    unfold renamed, thumbPath. fold name.
    now rewrite lookup_insert_eq, Horig.
  - exists records. split; [exact Hc'|].
    unfold new_entry, thumbnail_field. rewrite Ht. reflexivity.
Qed.

(** C5 at a failing input.  The first copy of the upload handler names
    the thumbnail after the whole media file name, extension included:
    for the media file [clip.mp4] stored as [1700.mp4] and the thumbnail
    [pic.png], it stores [1700.mp4.png] and records
    [/media/thumbnails/1700.mp4.png]; the base name with the thumbnail's
    extension is [1700.png], and nothing is stored under that name. *)
Theorem first_copy_thumbnail_name :
  mediaFilename 1700 clip = "1700.mp4" /\
  path_parse_name (mediaFilename 1700 clip)
    +:+ path_extname (originalname picture) = "1700.png" /\
  thumbFilename FirstCopy (mediaFilename 1700 clip) picture = "1700.mp4.png" /\
  fs (snd (upload FirstCopy clip_request 1700 1701 staged_world))
    !! "uploads/thumbnails/1700.mp4.png" = Some (File "PNG bytes") /\
  fs (snd (upload FirstCopy clip_request 1700 1701 staged_world))
    !! "uploads/thumbnails/1700.png" = None /\
  collection (snd (upload FirstCopy clip_request 1700 1701 staged_world))
  = Ok (JArr [metadataEntry "1700.mp4" "Sunset Drive" "Unknown" "videos"
                (JStr "/media/thumbnails/1700.mp4.png") 1701]).
Proof. repeat split; vm_compute; reflexivity. Qed.

(** The second copy, on the same request, stores [1700.png]. *)
Example second_copy_thumbnail_name :
  thumbFilename SecondCopy (mediaFilename 1700 clip) picture = "1700.png" /\
  fs (snd (upload SecondCopy clip_request 1700 1701 staged_world))
    !! "uploads/thumbnails/1700.png" = Some (File "PNG bytes") /\
  collection (snd (upload SecondCopy clip_request 1700 1701 staged_world))
  = Ok (JArr [metadataEntry "1700.mp4" "Sunset Drive" "Unknown" "videos"
                (JStr "/media/thumbnails/1700.png") 1701]).
Proof. repeat split; vm_compute; reflexivity. Qed.

(* ================================================================= *)
(** * Part IV: further properties of the handlers *)
(* ================================================================= *)

(** ** Where an upload puts its files *)

Lemma mediaPath_cases (now1 : Z) (f : UploadedFile) :
  mediaPath now1 f = "uploads/videos/" +:+ mediaFilename now1 f \/
  mediaPath now1 f = "uploads/audios/" +:+ mediaFilename now1 f.
Proof.
  unfold mediaPath.
  destruct (mediaType_kind f) as (_ & _ & [E | E]); rewrite E; auto.
Qed.

Lemma thumbPath_text (c : copy) (now1 : Z) (f tf : UploadedFile) :
  thumbPath c now1 f tf
  = "uploads/thumbnails/" +:+ thumbFilename c (mediaFilename now1 f) tf.
Proof. reflexivity. Qed.

Lemma path_text (f : UploadedFile) : path f = "uploads/temp/" +:+ filename f.
Proof. reflexivity. Qed.

(** The paths the upload handler writes are apart from one another. *)
Lemma upload_paths_apart (c : copy) (now1 : Z) (f tf g : UploadedFile) :
  mediaPath now1 f <> path g /\
  mediaPath now1 f <> thumbPath c now1 f tf /\
  mediaPath now1 f <> metadataFile /\
  thumbPath c now1 f tf <> path g /\
  thumbPath c now1 f tf <> metadataFile /\
  path g <> metadataFile.
Proof.
  rewrite thumbPath_text, path_text.
  destruct (mediaPath_cases now1 f) as [-> | ->];
    repeat split; discriminate.
Qed.

(** The files after an upload that answers: the store written over the
    files moved. *)
Lemma upload_files (c : copy) (req : UploadRequest) (f : UploadedFile)
  (now1 now2 : Z) (w w' : World) (resp : response) :
  media req = Some f ->
  upload c req now1 now2 w = (Ok resp, w') ->
  exists staged files text,
    fs w !! path f = Some staged /\
    files_moved c req f now1 staged (fs w) = Some files /\
    fs w' = <[metadataFile := File text]> files /\
    console w' = console w /\
    status resp = 200%nat.
Proof.
  intros Hm Hrun.
  destruct (upload_run _ _ _ _ _ _ _ _ Hm Hrun)
    as (staged & files & records & Hs & Hf & _ & -> & ->).
  exists staged, files. eexists. repeat split; eauto.
Qed.

(** The media file after an upload that answers. *)
Lemma upload_media_moved (c : copy) (req : UploadRequest)
  (f : UploadedFile) (now1 now2 : Z) (w w' : World) (resp : response)
  (staged : node) :
  media req = Some f ->
  fs w !! path f = Some staged ->
  upload c req now1 now2 w = (Ok resp, w') ->
  fs w' !! mediaPath now1 f = Some staged /\
  fs w' !! path f = None.
Proof.
  intros Hm Hs Hrun.
  destruct (upload_files _ _ _ _ _ _ _ _ Hm Hrun)
    as (staged' & files & text & Hs' & Hf & -> & _ & _).
  rewrite Hs in Hs'. injection Hs' as <-.
  apply files_moved_inv in Hf as [_ Hf]. cbv zeta in Hf.
  destruct (thumbnail req) as [tf|].
  - destruct Hf as (n & Hn & _ & ->).
    destruct (upload_paths_apart c now1 f tf tf) as (A1 & A2 & A3 & A4 & _ & _).
    destruct (upload_paths_apart c now1 f tf f) as (B1 & _ & _ & B4 & _ & B6).
    unfold renamed. split.
    + rewrite lookup_insert_ne by auto.
      rewrite lookup_insert_ne by auto.
      rewrite lookup_delete_ne by auto.
      now rewrite lookup_insert_eq.
    + rewrite lookup_insert_ne by auto.
      rewrite lookup_insert_ne by auto.
      destruct (decide (path tf = path f)) as [E | E].
      * rewrite E. now rewrite lookup_delete_eq.
      * rewrite lookup_delete_ne by auto.
        rewrite lookup_insert_ne by auto.
        now rewrite lookup_delete_eq.
  - subst files.
    destruct (upload_paths_apart c now1 f f f) as (B1 & _ & B3 & _ & _ & B6).
    unfold renamed. split.
    + rewrite lookup_insert_ne by auto. now rewrite lookup_insert_eq.
    + rewrite lookup_insert_ne by auto.
      rewrite lookup_insert_ne by auto.
      now rewrite lookup_delete_eq.
Qed.

(** X1. An upload that answers has moved the media file: what was staged
    lies at [uploads/<kind>/<name>], and nothing is left at the staging
    path. *)
Theorem upload_moves_media (c : copy) (req : UploadRequest)
  (f : UploadedFile) (now1 now2 : Z) (w w' : World) (resp : response)
  (staged : node) :
  media req = Some f ->
  fs w !! path f = Some staged ->
  upload c req now1 now2 w = (Ok resp, w') ->
  fs w' !! mediaPath now1 f = Some staged /\
  fs w' !! path f = None.
Proof. exact (upload_media_moved c req f now1 now2 w w' resp staged). Qed.

Lemma upload_moves_media_witness :
  fs (snd (upload SecondCopy clip_request 1700 1701 staged_world))
    !! mediaPath 1700 clip = Some (File "MP4 bytes") /\
  fs (snd (upload SecondCopy clip_request 1700 1701 staged_world))
    !! path clip = None.
Proof.
  apply (upload_moves_media SecondCopy clip_request clip 1700 1701
           staged_world _ upload_successful).
  - reflexivity.
  - reflexivity.
  - apply clip_upload_runs.
Defined.

(** ** What an upload leaves alone *)

Lemma outside_uploads (p rest : string) :
  String.prefix "uploads/" p = false -> "uploads/" +:+ rest <> p.
Proof. intros H <-. destruct rest; cbv in H; discriminate H. Qed.

Lemma outside_path (p : string) (f : UploadedFile) :
  String.prefix "uploads/" p = false -> path f <> p.
Proof. apply (outside_uploads p ("temp/" +:+ filename f)). Qed.

Lemma outside_media (p type name : string) :
  String.prefix "uploads/" p = false ->
  path_join ["uploads"; type; name] <> p.
Proof. apply (outside_uploads p (type +:+ "/" +:+ name)). Qed.

Lemma outside_thumbnails (p name : string) :
  String.prefix "uploads/" p = false ->
  path_join ["uploads/thumbnails"; name] <> p.
Proof. apply (outside_uploads p ("thumbnails/" +:+ name)). Qed.

Lemma outside_mediaPath (p : string) (now1 : Z) (f : UploadedFile) :
  String.prefix "uploads/" p = false -> mediaPath now1 f <> p.
Proof. apply outside_media. Qed.

Lemma outside_thumbPath (p : string) (c : copy) (now1 : Z)
  (f tf : UploadedFile) :
  String.prefix "uploads/" p = false -> thumbPath c now1 f tf <> p.
Proof. apply outside_thumbnails. Qed.

Lemma renamed_frame (src dst p : string) (n : node)
  (files : gmap string node) :
  src <> p -> dst <> p -> renamed src dst n files !! p = files !! p.
Proof.
  intros Hs Hd. unfold renamed.
  rewrite lookup_insert_ne by exact Hd. now rewrite lookup_delete_ne.
Qed.

Lemma files_moved_frame (c : copy) (req : UploadRequest) (f : UploadedFile)
  (now1 : Z) (staged : node) (files0 files : gmap string node) (p : string) :
  String.prefix "uploads/" p = false ->
  files_moved c req f now1 staged files0 = Some files ->
  files !! p = files0 !! p.
Proof.
  intros Hp [_ H]%files_moved_inv. cbv zeta in H.
  pose proof (renamed_frame (path f) (mediaPath now1 f) p staged files0
                (outside_path p f Hp) (outside_mediaPath p now1 f Hp)) as H1.
  destruct (thumbnail req) as [tf|]; [|now subst files].
  destruct H as (n & _ & _ & ->). rewrite <- H1.
  apply renamed_frame; [apply outside_path | apply outside_thumbPath]; auto.
Qed.

(** Whatever way a run of the upload handler ends, a path that is
    neither below [uploads/] nor the metadata document holds what it
    held, and nothing is logged. *)
Lemma upload_frame (c : copy) (req : UploadRequest) (now1 now2 : Z)
  (w w' : World) (r : result response) (p : string) :
  String.prefix "uploads/" p = false ->
  metadataFile <> p ->
  upload c req now1 now2 w = (r, w') ->
  fs w' !! p = fs w !! p /\ console w' = console w.
Proof.
  intros Hp Hmeta. unfold upload.
  destruct (media req) as [f|]; [|now intros [= _ <-]].
  unfold bind at 1. fold (mediaPath now1 f).
  destruct (renameSync_cases (path f) (mediaPath now1 f) w)
    as [(staged & Hs & Ht & ->) | (r0 & -> & Hr & _)].
  2: { destruct r0 as [[]| |]; [now destruct Hr| |]; now intros [= _ <-]. }
  pose proof (renamed_frame (path f) (mediaPath now1 f) p staged (fs w)
                (outside_path p f Hp) (outside_mediaPath p now1 f Hp)) as H1.
  unfold bind at 1.
  destruct (thumbnail_step c req f now1 staged w Ht)
    as [(files & Hfiles & ->) | (r0 & -> & Hr & _)].
  2: { destruct r0; [now destruct (Hr a)| |]; intros [= _ <-];
       (split; [exact H1 | reflexivity]). }
  pose proof (files_moved_frame _ _ _ _ _ _ _ p Hp Hfiles) as H2.
  unfold bind at 1. rewrite readMetadata_run.
  destruct (collection _) as [all| |];
    [|now intros [= _ <-]|now intros [= _ <-]].
  unfold bind at 1. unfold lift.
  destruct (Array_push _ _);
    [|now intros [= _ <-]|now intros [= _ <-]].
  unfold bind, ret.
  destruct (saveMetadata _ _) as [r2 w2] eqn:Hsave.
  apply saveMetadata_ok in Hsave as [[-> ->] | [[e2 ->] ->]];
    intros [= _ <-]; cbn [fs console]; (split; [|reflexivity]).
  - now rewrite lookup_insert_ne.
  - exact H2.
Qed.

(** X18. The upload handler touches nothing but the metadata document
    and paths below [uploads/]: however a run ends, every other path
    holds what it held, nothing is logged, and the supporters handler
    answers as it did before. *)
Theorem upload_touches_only_uploads (c : copy) (req : UploadRequest)
  (now1 now2 : Z) (w : World) :
  (forall p,
     String.prefix "uploads/" p = false ->
     p <> metadataFile ->
     fs (snd (upload c req now1 now2 w)) !! p = fs w !! p) /\
  console (snd (upload c req now1 now2 w)) = console w /\
  fst (supporters (snd (upload c req now1 now2 w))) = fst (supporters w).
Proof.
  destruct (upload c req now1 now2 w) as [r w'] eqn:Hrun. cbn [snd].
  split; [|split].
  - intros p Hp Hmeta.
    apply (upload_frame _ _ _ _ _ _ _ p Hp (not_eq_sym Hmeta) Hrun).
  - apply (upload_frame _ _ _ _ _ _ _ supportersFile eq_refl
             ltac:(discriminate) Hrun).
  - rewrite !supporters_run. unfold document_at.
    destruct (upload_frame _ _ _ _ _ _ _ supportersFile eq_refl
                ltac:(discriminate) Hrun) as [-> Hcon].
    destruct (fs w !! supportersFile) as [[text|]|]; try reflexivity.
    destruct (JSON_parse text); reflexivity.
Qed.

Lemma upload_touches_only_uploads_witness :
  fs (snd (upload FirstCopy clip_request 1700 1701 staged_world))
    !! supportersFile
  = fs staged_world !! supportersFile.
Proof.
  apply (proj1 (upload_touches_only_uploads FirstCopy clip_request
                  1700 1701 staged_world)).
  - reflexivity.
  - discriminate.
Defined.

(** ** Serving what was uploaded *)

Lemma plain_char_no_slash (c : ascii) :
  url_plain c || (c =? ".")%char = true -> (c =? "/")%char = false.
Proof.
  intros H.
  pose proof (every_ascii
    (fun c => implb (url_plain c || (c =? ".")%char) (negb (c =? "/")%char))
    ltac:(vm_compute; reflexivity) c) as E.
  cbv beta in E. rewrite H in E. now destruct (c =? "/")%char.
Qed.

Lemma plain_segment_no_slash (s : string) :
  plain_segment s = true -> no_slash s = true.
Proof.
  destruct s as [|c s]; [discriminate|].
  unfold plain_segment, no_slash, los. cbn [list_ascii_of_string forallb].
  rewrite !andb_true_iff. intros [Hc Hs]. split.
  - rewrite (plain_char_no_slash c); [reflexivity|]. now rewrite Hc.
  - rewrite forallb_forall in *. intros x Hx.
    now rewrite (plain_char_no_slash x (Hs x Hx)).
Qed.

Lemma components_no_slash (s : string) :
  no_slash s = true -> components s = [s].
Proof.
  unfold no_slash, los. induction s as [|c s IH]; [reflexivity|].
  cbn [list_ascii_of_string forallb components].
  rewrite andb_true_iff, negb_true_iff. intros [-> H]. now rewrite (IH H).
Qed.

Lemma components_two (a b : string) :
  no_slash a = true -> no_slash b = true ->
  components (a +:+ "/" +:+ b) = [a; b].
Proof.
  intros Ha Hb. unfold no_slash, los in Ha.
  induction a as [|c a IH].
  - cbn. now rewrite (components_no_slash b Hb).
  - cbn [list_ascii_of_string forallb] in Ha.
    apply andb_prop in Ha as [Hc Ha]. apply negb_true_iff in Hc.
    change (String c a +:+ "/" +:+ b) with (String c (a +:+ "/" +:+ b)).
    cbn [components]. now rewrite Hc, (IH Ha).
Qed.

(** A path of two plain segments that is not the path of the search
    reaches the static mount. *)
Lemma static_rel_two (a b : string) :
  plain_segment a = true -> plain_segment b = true ->
  (toLowerCase (a +:+ "/" +:+ b) =? "videos/search")%string = false ->
  static_rel (a +:+ "/" +:+ b) = true.
Proof.
  intros Ha Hb Hne. unfold static_rel.
  rewrite components_two by now apply plain_segment_no_slash.
  cbn [length forallb]. now rewrite Ha, Hb, Hne.
Qed.

Lemma digit_not_s (ch : ascii) :
  is_digit ch = true \/ ch = "-"%char -> (lower_char ch =? "s")%char = false.
Proof.
  intros [H | ->]; [|reflexivity].
  destruct ch as [[] [] [] [] [] [] [] []]; try discriminate H; reflexivity.
Qed.

Lemma media_rel_static (now1 : Z) (f : UploadedFile) :
  plain_segment (mediaFilename now1 f) = true ->
  static_rel (mediaType f +:+ "/" +:+ mediaFilename now1 f) = true.
Proof.
  intros Hname. unfold mediaFilename in *.
  destruct (number_head now1) as (ch & rest & E & Hch).
  destruct (mediaType_kind f) as (_ & _ & [-> | ->]);
    (apply static_rel_two; [reflexivity | exact Hname |]).
  - rewrite E. cbn. now rewrite (digit_not_s ch Hch).
  - reflexivity.
Qed.

(** The static mount on a path that reaches it, when the front end has
    no file of that path. *)
Lemma serve_media_file (rel bytes : string) (w : World) :
  static_rel rel = true ->
  fs w !! path_join ["../frontend"; "media"; rel] = None ->
  fs w !! path_join ["uploads"; rel] = Some (File bytes) ->
  serve_media rel w = (Ok (mkResponse 200 (Bytes bytes)), w).
Proof.
  intros Hrel Hfront Hfile. unfold serve_media.
  now rewrite Hrel, Hfront, Hfile.
Qed.

(** X2. The record of an upload leads to its file: after an upload that
    answers, the store ends with a record whose kind and file name, put
    together as [/media/<kind>/<name>], are served with the bytes that
    were uploaded, provided the name is plain (the extension of the
    original name holds nothing but letters, digits, [-], [_] and dots, so
    that the URL needs no encoding) and the front end has no file of
    that path. *)
Theorem uploaded_media_served (c : copy) (req : UploadRequest)
  (f : UploadedFile) (now1 now2 : Z) (w w' : World) (resp : response)
  (bytes : string) :
  time_value now2 = true ->
  media req = Some f ->
  fs w !! path f = Some (File bytes) ->
  plain_segment (mediaFilename now1 f) = true ->
  fs w !! path_join ["../frontend"; "media"; mediaType f;
                     mediaFilename now1 f] = None ->
  upload c req now1 now2 w = (Ok resp, w') ->
  exists records r,
    collection w' = Ok (JArr (records ++ [r])) /\
    serve_media (media_rel r) w' = (Ok (mkResponse 200 (Bytes bytes)), w').
Proof.
  intros Hnow Hm Hs Hname Hfront Hrun.
  destruct (upload_appends _ _ _ _ _ _ _ _ Hnow Hm Hrun)
    as (records & _ & Hc).
  exists records, (new_entry c req f now1 now2). split; [exact Hc|].
  change (media_rel (new_entry c req f now1 now2))
    with (mediaType f +:+ "/" +:+ mediaFilename now1 f).
  apply serve_media_file.
  - now apply media_rel_static.
  - destruct (upload_frame _ _ _ _ _ _ _
                (path_join ["../frontend"; "media"; mediaType f;
                            mediaFilename now1 f])
                eq_refl ltac:(discriminate) Hrun) as [E _].
    change (path_join ["../frontend"; "media";
                       mediaType f +:+ "/" +:+ mediaFilename now1 f])
      with (path_join ["../frontend"; "media"; mediaType f;
                       mediaFilename now1 f]).
    now rewrite E.
  - apply (upload_media_moved _ _ _ _ _ _ _ _ _ Hm Hs Hrun).
Qed.

Lemma uploaded_media_served_witness :
  exists records r,
    collection
      (snd (upload FirstCopy clip_request 1700 1701 library_staged_world))
    = Ok (JArr (records ++ [r])) /\
    serve_media (media_rel r)
      (snd (upload FirstCopy clip_request 1700 1701 library_staged_world))
    = (Ok (mkResponse 200 (Bytes "MP4 bytes")),
       snd (upload FirstCopy clip_request 1700 1701 library_staged_world)).
Proof.
  apply (uploaded_media_served FirstCopy clip_request clip 1700 1701
           library_staged_world _ upload_successful).
  - reflexivity.
  - reflexivity.
  - reflexivity.
  - reflexivity.
  - reflexivity.
  - apply clip_upload_into_library.
Defined.

(** A name that is not plain: for the original name [clip.mp4?x] the
    file is stored as [1700.mp4?x], and the model says nothing of the
    request for [/media/videos/1700.mp4?x], whose path Express cuts at
    the question mark. *)
Example question_mark_not_served :
  mediaFilename 1700 (mkUploadedFile "clip.mp4?x" "video/mp4" "3f2a")
  = "1700.mp4?x" /\
  plain_segment
    (mediaFilename 1700 (mkUploadedFile "clip.mp4?x" "video/mp4" "3f2a"))
  = false /\
  forall w,
    fst (serve_media "videos/1700.mp4?x" w) = Beyond.
Proof. repeat split. Qed.

(** X3. The thumbnail path of the record leads to the thumbnail: after
    an upload with a thumbnail, in either copy of the handler, the record
    at the end of the store has the thumbnail path [/media/<rel>], and
    [<rel>] is served with the bytes of the thumbnail that was uploaded,
    provided the name of the thumbnail is plain (so that the URL needs no
    encoding) and the front end has no file of that path. *)
Theorem uploaded_thumbnail_served (c : copy) (req : UploadRequest)
  (f tf : UploadedFile) (now1 now2 : Z) (w w' : World) (resp : response)
  (bytes : string) :
  time_value now2 = true ->
  media req = Some f ->
  thumbnail req = Some tf ->
  fs w !! path tf = Some (File bytes) ->
  plain_segment (thumbFilename c (mediaFilename now1 f) tf) = true ->
  fs w !! path_join ["../frontend"; "media"; "thumbnails";
                     thumbFilename c (mediaFilename now1 f) tf] = None ->
  upload c req now1 now2 w = (Ok resp, w') ->
  exists records r rel,
    collection w' = Ok (JArr (records ++ [r])) /\
    field "thumbnail" r = Some (JStr ("/media/" +:+ rel)) /\
    serve_media rel w' = (Ok (mkResponse 200 (Bytes bytes)), w').
Proof.
  intros Hnow Hm Ht Hs Hname Hfront Hrun.
  destruct (upload_stores_thumbnail _ _ _ _ _ _ _ _ _ Hnow Hm Ht Hrun)
    as (_ & Hfile & records & Hc & Hfield).
  exists records, (new_entry c req f now1 now2),
    ("thumbnails" +:+ "/" +:+ thumbFilename c (mediaFilename now1 f) tf).
  split; [exact Hc|]. split; [exact Hfield|].
  apply serve_media_file.
  - apply static_rel_two; [reflexivity | exact Hname | reflexivity].
  - destruct (upload_frame _ _ _ _ _ _ _
                (path_join ["../frontend"; "media"; "thumbnails";
                            thumbFilename c (mediaFilename now1 f) tf])
                eq_refl ltac:(discriminate) Hrun) as [E _].
    change (path_join ["../frontend"; "media";
                       "thumbnails" +:+ "/" +:+
                       thumbFilename c (mediaFilename now1 f) tf])
      with (path_join ["../frontend"; "media"; "thumbnails";
                       thumbFilename c (mediaFilename now1 f) tf]).
    now rewrite E.
  - change (path_join ["uploads"; "thumbnails" +:+ "/" +:+ ?n])
      with (path_join ["uploads/thumbnails"; n]).
    now rewrite Hfile, Hs.
Qed.

Lemma uploaded_thumbnail_served_witness :
  exists records r rel,
    collection
      (snd (upload FirstCopy clip_request 1700 1701 library_staged_world))
    = Ok (JArr (records ++ [r])) /\
    field "thumbnail" r = Some (JStr ("/media/" +:+ rel)) /\
    serve_media rel
      (snd (upload FirstCopy clip_request 1700 1701 library_staged_world))
    = (Ok (mkResponse 200 (Bytes "PNG bytes")),
       snd (upload FirstCopy clip_request 1700 1701 library_staged_world)).
Proof.
  apply (uploaded_thumbnail_served FirstCopy clip_request clip picture
           1700 1701 library_staged_world _ upload_successful).
  - reflexivity.
  - reflexivity.
  - reflexivity.
  - reflexivity.
  - reflexivity.
  - reflexivity.
  - apply clip_upload_into_library.
Defined.

(** ** Uploads that do not go through *)

Lemma renameSync_missing (src dst : string) (w : World) :
  fs w !! src = None ->
  exists e, renameSync src dst w = (Throw e, w).
Proof.
  intros H. unfold renameSync. rewrite H.
  destruct (has_nul src || has_nul dst); eauto.
Qed.

(** X4. When the thumbnail is not where multer staged it, the upload
    throws after the media file has been moved: if the file system takes
    the media file under its new name, the media file lies at its
    destination, its staging path is empty, and the store is as it was,
    without a record for the file. *)
Theorem upload_thumbnail_missing (c : copy) (req : UploadRequest)
  (f tf : UploadedFile) (now1 now2 : Z) (w : World) (staged : node) :
  media req = Some f ->
  thumbnail req = Some tf ->
  fs w !! path f = Some staged ->
  takes (fs w) (path f) (mediaPath now1 f) staged = true ->
  fs w !! path tf = None ->
  exists e w',
    upload c req now1 now2 w = (Throw e, w') /\
    fs w' !! mediaPath now1 f = Some staged /\
    fs w' !! path f = None /\
    fs w' !! metadataFile = fs w !! metadataFile /\
    collection w' = collection w.
Proof.
  intros Hm Ht Hs Htakes Hnone.
  set (w1 := mkWorld (renamed (path f) (mediaPath now1 f) staged (fs w))
                     (console w)).
  destruct (upload_paths_apart c now1 f tf tf) as (A1 & _ & A3 & _ & _ & A6).
  destruct (upload_paths_apart c now1 f tf f) as (B1 & _ & _ & _ & _ & B6).
  assert (Hgone : fs w1 !! path tf = None).
  { cbn [fs w1]. unfold renamed. rewrite lookup_insert_ne by auto.
    destruct (decide (path f = path tf)) as [E | E].
    - rewrite E. apply lookup_delete_eq.
    - now rewrite lookup_delete_ne. }
  destruct (renameSync_missing (path tf) (thumbPath c now1 f tf) w1 Hgone)
    as [e He].
  exists e, w1. split; [|split; [|split; [|split]]].
  - unfold upload. rewrite Hm, Ht.
    unfold bind at 1. fold (mediaPath now1 f).
    destruct (renameSync_cases (path f) (mediaPath now1 f) w)
      as [(n & Hn & _ & ->) | (r & _ & _ & Hall)].
    + rewrite Hs in Hn. injection Hn as <-. fold w1.
      unfold bind at 1. unfold bind at 1.
      fold (thumbPath c now1 f tf). now rewrite He.
    + rewrite (Hall staged Hs) in Htakes. discriminate Htakes.
  - cbn [fs w1]. unfold renamed. apply lookup_insert_eq.
  - cbn [fs w1]. unfold renamed. rewrite lookup_insert_ne by auto.
    apply lookup_delete_eq.
  - cbn [fs w1]. unfold renamed. rewrite lookup_insert_ne by auto.
    now rewrite lookup_delete_ne.
  - apply collection_renamed; auto.
Qed.

Lemma upload_thumbnail_missing_witness :
  exists e w',
    upload FirstCopy clip_request 1700 1701 clip_staged_world
    = (Throw e, w') /\
    fs w' !! mediaPath 1700 clip = Some (File "MP4 bytes") /\
    fs w' !! path clip = None /\
    fs w' !! metadataFile = fs clip_staged_world !! metadataFile /\
    collection w' = collection clip_staged_world.
Proof.
  apply (upload_thumbnail_missing FirstCopy clip_request clip picture
           1700 1701 clip_staged_world (File "MP4 bytes"));
    reflexivity.
Defined.

(** A name the file system does not take: with an extension of 300
    characters the media file is not moved, and the upload throws with
    the world as it was. *)
Example upload_name_too_long :
  let long := mkUploadedFile (String.append "a." (string_of_list_ascii
                                                    (repeat "x"%char 300)))
                "video/mp4" "3f2a" in
  takes (fs clip_staged_world) (path long) (mediaPath 1700 long)
        (File "MP4 bytes") = false /\
  upload FirstCopy (mkUploadRequest (Some long) None None None) 1700 1701
    clip_staged_world
  = (Throw SystemError, clip_staged_world).
Proof. split; vm_compute; reflexivity. Qed.

(** X5. When the metadata document holds JSON that is not an array, the
    upload moves its files, if the file system takes them, and then
    throws a TypeError on [push]; the document is not written. *)
Theorem upload_on_non_array_store (c : copy) (req : UploadRequest)
  (f : UploadedFile) (now1 now2 : Z) (w : World) (staged : node)
  (files : gmap string node) (v : json) :
  media req = Some f ->
  fs w !! path f = Some staged ->
  files_moved c req f now1 staged (fs w) = Some files ->
  collection w = Ok v ->
  (forall items, v <> JArr items) ->
  upload c req now1 now2 w = (Throw TypeError, mkWorld files (console w)) /\
  files !! metadataFile = fs w !! metadataFile.
Proof.
  intros Hm Hs Hf Hc Hv. split.
  - unfold upload. rewrite Hm.
    unfold bind at 1. fold (mediaPath now1 f).
    pose proof (files_moved_inv _ _ _ _ _ _ _ Hf) as [Htakes _].
    destruct (renameSync_cases (path f) (mediaPath now1 f) w)
      as [(n & Hn & _ & ->) | (r & _ & _ & Hall)];
      [|rewrite (Hall staged Hs) in Htakes; discriminate Htakes].
    rewrite Hs in Hn. injection Hn as <-.
    unfold bind at 1.
    destruct (thumbnail_step c req f now1 staged w Htakes)
      as [(files' & Hf' & ->) | (r & _ & _ & Hnone)];
      [|rewrite Hf in Hnone; discriminate Hnone].
    rewrite Hf in Hf'. injection Hf' as <-.
    unfold bind at 1. rewrite readMetadata_run.
    rewrite (collection_moved _ _ _ _ _ _ _ _ Hf), Hc.
    unfold bind at 1. unfold lift.
    destruct v; try reflexivity. now destruct (Hv items).
  - unfold collection. pose proof (collection_moved c req f now1 staged w
                                     files (console w) Hf) as E.
    pose proof (path_not_metadata f) as P1.
    pose proof (mediaPath_not_metadata now1 f) as P2.
    apply files_moved_inv in Hf as [_ Hf]. cbv zeta in Hf.
    destruct (thumbnail req) as [tf|].
    + destruct Hf as (n & _ & _ & ->).
      pose proof (path_not_metadata tf) as P3.
      pose proof (thumbPath_not_metadata c now1 f tf) as P4.
      unfold renamed.
      rewrite lookup_insert_ne by auto. rewrite lookup_delete_ne by auto.
      rewrite lookup_insert_ne by auto. now rewrite lookup_delete_ne.
    + subst files. unfold renamed.
      rewrite lookup_insert_ne by auto. now rewrite lookup_delete_ne.
Qed.

Lemma upload_on_non_array_store_witness :
  upload SecondCopy clip_alone 1700 1701 object_store_world
  = (Throw TypeError,
     mkWorld (renamed (path clip) (mediaPath 1700 clip) (File "MP4 bytes")
                (fs object_store_world))
             (console object_store_world)) /\
  renamed (path clip) (mediaPath 1700 clip) (File "MP4 bytes")
    (fs object_store_world) !! metadataFile
  = fs object_store_world !! metadataFile.
Proof.
  apply (upload_on_non_array_store SecondCopy clip_alone clip 1700 1701
           object_store_world (File "MP4 bytes") _ (JObj [])).
  - reflexivity.
  - reflexivity.
  - reflexivity.
  - reflexivity.
  - discriminate.
Defined.

(** X6. On a metadata document that holds JSON that is not an array, the
    listing of a valid type and a search with a query that is not blank
    throw a TypeError: the value has no [filter]. *)
Theorem reads_on_non_array_store (w : World) (v : json) :
  collection w = Ok v ->
  (forall items, v <> JArr items) ->
  (forall type, type = "videos" \/ type = "audios" ->
                listing type w = (Throw TypeError, w)) /\
  (forall q, normalized q <> "" -> search q w = (Throw TypeError, w)).
Proof.
  intros Hc Hv. split.
  - intros type Htype. unfold listing.
    assert (E : negb ((type =? "videos")%string || (type =? "audios")%string)
                = false)
      by (destruct Htype as [-> | ->]; reflexivity).
    rewrite E. unfold bind at 1. rewrite readMetadata_run, Hc.
    unfold bind at 1. unfold lift.
    destruct v; try reflexivity. now destruct (Hv items).
  - intros q Hq. unfold search. fold (normalized q).
    destruct (normalized q) as [|ch t] eqn:E; [now destruct Hq|].
    cbn [truthy negb].
    unfold bind at 1. rewrite readMetadata_run, Hc.
    unfold bind at 1. unfold lift.
    destruct v; try reflexivity. now destruct (Hv items).
Qed.

Lemma reads_on_non_array_store_witness :
  (forall type, type = "videos" \/ type = "audios" ->
                listing type object_store_world
                = (Throw TypeError, object_store_world)) /\
  (forall q, normalized q <> "" ->
             search q object_store_world
             = (Throw TypeError, object_store_world)).
Proof.
  apply (reads_on_non_array_store object_store_world (JObj [])).
  - reflexivity.
  - discriminate.
Defined.

(** X7. An upload over a metadata document whose text is not JSON
    replaces the document: what is written is the array of the one new
    record, and the former text is gone. *)
Theorem upload_replaces_corrupt_document (c : copy) (req : UploadRequest)
  (f : UploadedFile) (now1 now2 : Z) (w w' : World) (resp : response)
  (text : string) :
  media req = Some f ->
  fs w !! metadataFile = Some (File text) ->
  JSON_parse text = Throw SyntaxError ->
  upload c req now1 now2 w = (Ok resp, w') ->
  fs w' !! metadataFile
  = Some (File (JSON_stringify (JArr [new_entry c req f now1 now2]))).
Proof.
  intros Hm Hdoc Hbad Hrun.
  destruct (upload_run _ _ _ _ _ _ _ _ Hm Hrun)
    as (staged & files & records & _ & _ & Hc & _ & ->).
  unfold collection, document_at in Hc. rewrite Hdoc, Hbad in Hc.
  injection Hc as <-. cbn [fs app]. apply lookup_insert_eq.
Qed.

Lemma upload_replaces_corrupt_document_witness :
  fs (snd (upload SecondCopy clip_alone 1700 1701 corrupt_store_world))
    !! metadataFile
  = Some (File (JSON_stringify
                  (JArr [new_entry SecondCopy clip_alone clip 1700 1701]))).
Proof.
  apply (upload_replaces_corrupt_document SecondCopy clip_alone clip
           1700 1701 corrupt_store_world _ upload_successful "[{").
  - reflexivity.
  - reflexivity.
  - reflexivity.
  - vm_compute. reflexivity.
Defined.

(** ** Reading, saving and reading again *)

(** X8. Saving what [readMetadata] returned leaves the collection as it
    was: whatever value is read (the array of a document, or the empty
    array when there is no readable JSON document), once it is saved it
    is read back. *)
Theorem read_save_read (w w' : World) (v : json) :
  fst (readMetadata w) = Ok v ->
  saveMetadata v w = (Ok tt, w') ->
  fst (readMetadata w') = Ok v.
Proof.
  rewrite !readMetadata_run. cbn [fst]. intros Hv Hsave.
  apply saveMetadata_ok in Hsave as [[_ ->] | [[e He] _]]; [|discriminate].
  apply collection_saved. exact (collection_canonical w v Hv).
Qed.

Lemma read_save_read_witness :
  fst (readMetadata (snd (saveMetadata (JArr library) library_world)))
  = Ok (JArr library).
Proof.
  apply (read_save_read library_world _ (JArr library)).
  - vm_compute. reflexivity.
  - reflexivity.
Defined.

(** ** The names of the stored files *)

Lemma no_slash_app (a b : string) :
  no_slash (a +:+ b) = no_slash a && no_slash b.
Proof. unfold no_slash. now rewrite los_app, forallb_app. Qed.

Lemma plain_no_slash (s : string) :
  forallb plain (los s) = true -> no_slash s = true.
Proof.
  unfold no_slash. induction s as [|c s IH]; simpl; [reflexivity|].
  rewrite !andb_true_iff. unfold plain at 1. rewrite andb_true_iff.
  intros [[H _] Hs]. split; [exact H | now apply IH].
Qed.

Lemma path_extname_no_slash (x : string) : no_slash (path_extname x) = true.
Proof.
  destruct (path_extname_shape x) as [-> | (t & -> & Ht)]; [reflexivity|].
  change (String "." t) with ("." +:+ t).
  rewrite no_slash_app. now rewrite (plain_no_slash t Ht).
Qed.

Lemma Number_toString_no_slash (n : Z) : no_slash (Number_toString n) = true.
Proof. apply plain_no_slash, Number_toString_plain. Qed.

(** X9. The names under which an upload stores its files hold no slash,
    whatever the original names are: the media file name, and the
    thumbnail name of either copy, begin with a digit or a minus sign and
    name a place directly inside their directory. *)
Theorem stored_names_no_slash (c : copy) (now1 : Z) (f tf : UploadedFile) :
  time_value now1 = true ->
  no_slash (mediaFilename now1 f) = true /\
  no_slash (thumbFilename c (mediaFilename now1 f) tf) = true /\
  (exists ch rest,
     mediaFilename now1 f = String ch rest /\
     (is_digit ch = true \/ ch = "-"%char)) /\
  (exists ch rest,
     thumbFilename c (mediaFilename now1 f) tf = String ch rest /\
     (is_digit ch = true \/ ch = "-"%char)).
Proof.
  intros _.
  destruct (number_head now1) as (ch & rest & E & Hch).
  split; [|split; [|split]].
  - unfold mediaFilename.
    now rewrite no_slash_app, Number_toString_no_slash, path_extname_no_slash.
  - destruct c.
    + rewrite first_copy_thumbFilename.
      now rewrite !no_slash_app, Number_toString_no_slash,
        !path_extname_no_slash.
    + rewrite (proj2 (second_copy_thumbFilename now1 f tf)).
      now rewrite no_slash_app, Number_toString_no_slash,
        path_extname_no_slash.
  - unfold mediaFilename. rewrite E. simpl. eauto.
  - destruct c.
    + rewrite first_copy_thumbFilename, E. simpl. eauto.
    + rewrite (proj2 (second_copy_thumbFilename now1 f tf)), E. simpl. eauto.
Qed.

Lemma stored_names_no_slash_witness :
  no_slash (mediaFilename 1700 (mkUploadedFile "../../etc/x.mp4" "video/mp4"
                                  "3f2a")) = true /\
  no_slash (thumbFilename FirstCopy
              (mediaFilename 1700 (mkUploadedFile "../../etc/x.mp4"
                                     "video/mp4" "3f2a"))
              picture) = true /\
  (exists ch rest,
     mediaFilename 1700 (mkUploadedFile "../../etc/x.mp4" "video/mp4" "3f2a")
     = String ch rest /\
     (is_digit ch = true \/ ch = "-"%char)) /\
  (exists ch rest,
     thumbFilename FirstCopy
       (mediaFilename 1700 (mkUploadedFile "../../etc/x.mp4" "video/mp4"
                              "3f2a"))
       picture = String ch rest /\
     (is_digit ch = true \/ ch = "-"%char)).
Proof.
  apply (stored_names_no_slash FirstCopy 1700
           (mkUploadedFile "../../etc/x.mp4" "video/mp4" "3f2a") picture).
  reflexivity.
Defined.

(** X10. In the second copy of the upload handler the base name of the
    media file is the reading of the clock, whatever extension the media
    file has: the thumbnail is named by that reading and the extension
    of the thumbnail's original name. *)
Theorem second_copy_thumbnail_named_by_time (now1 : Z)
  (f tf : UploadedFile) :
  time_value now1 = true ->
  path_parse_name (mediaFilename now1 f) = Number_toString now1 /\
  thumbFilename SecondCopy (mediaFilename now1 f) tf
  = Number_toString now1 +:+ path_extname (originalname tf).
Proof.
  intros _. split.
  - apply mediaFilename_base.
  - apply second_copy_thumbFilename.
Qed.

Lemma second_copy_thumbnail_named_by_time_witness :
  path_parse_name (mediaFilename 1700 clip) = Number_toString 1700 /\
  thumbFilename SecondCopy (mediaFilename 1700 clip) picture
  = Number_toString 1700 +:+ path_extname (originalname picture).
Proof.
  apply (second_copy_thumbnail_named_by_time 1700 clip picture).
  reflexivity.
Defined.

(** ** Uploading, then listing and searching *)

Lemma new_entry_kind (c : copy) (req : UploadRequest) (f : UploadedFile)
  (now1 now2 : Z) :
  kind_of (new_entry c req f now1 now2) = mediaType f.
Proof. reflexivity. Qed.

Lemma new_entry_uploadedAt (c : copy) (req : UploadRequest)
  (f : UploadedFile) (now1 now2 : Z) :
  uploadedAt_of (new_entry c req f now1 now2) = now2.
Proof. reflexivity. Qed.

Lemma records_snoc (records : list json) (r : json) :
  forallb media_record records = true ->
  media_record r = true ->
  forallb media_record (records ++ [r]) = true.
Proof.
  intros H Hr. rewrite forallb_app, H. cbn [forallb]. now rewrite Hr.
Qed.

(** The store after an upload that answers, on a store of media records:
    media records again, the new one last. *)
Lemma upload_store_records (c : copy) (req : UploadRequest)
  (f : UploadedFile) (now1 now2 : Z) (w w' : World) (resp : response)
  (records : list json) :
  time_value now2 = true ->
  media req = Some f ->
  collection w = Ok (JArr records) ->
  forallb media_record records = true ->
  upload c req now1 now2 w = (Ok resp, w') ->
  collection w' = Ok (JArr (records ++ [new_entry c req f now1 now2])) /\
  forallb media_record (records ++ [new_entry c req f now1 now2]) = true.
Proof.
  intros Hnow Hm Hc Hrec Hrun.
  destruct (upload_appends _ _ _ _ _ _ _ _ Hnow Hm Hrun)
    as (records' & Hc0 & Hc').
  rewrite Hc in Hc0. injection Hc0 as <-.
  split; [exact Hc'|]. apply records_snoc; [exact Hrec|].
  apply new_entry_record.
Qed.

(** X11. A file whose content type does not begin with [video] (a song,
    an image) is listed under [audios] once uploaded, is not in the
    listing of [videos], and is found by no search. *)
Theorem upload_then_listing_audios (c : copy) (req : UploadRequest)
  (f : UploadedFile) (now1 now2 : Z) (w w' : World) (resp : response)
  (records : list json) :
  time_value now2 = true ->
  media req = Some f ->
  ~ (exists rest, mimetype f = "video" +:+ rest) ->
  collection w = Ok (JArr records) ->
  forallb media_record records = true ->
  upload c req now1 now2 w = (Ok resp, w') ->
  (exists audios,
     listing "audios" w' = (Ok (mkResponse 200 (Json (JArr audios))), w') /\
     In (new_entry c req f now1 now2) audios) /\
  (exists videos,
     listing "videos" w' = (Ok (mkResponse 200 (Json (JArr videos))), w') /\
     ~ In (new_entry c req f now1 now2) videos) /\
  (forall q, normalized q <> "" ->
     exists results,
       search q w' = (Ok (mkResponse 200 (Json (JArr results))), w') /\
       ~ In (new_entry c req f now1 now2) results).
Proof.
  intros Hnow Hm Hvideo Hc Hrec Hrun.
  destruct (upload_store_records _ _ _ _ _ _ _ _ _ Hnow Hm Hc Hrec Hrun)
    as (Hc' & Hall).
  set (entry := new_entry c req f now1 now2) in *.
  assert (Hkind : kind_of entry = "audios").
  { unfold entry. rewrite new_entry_kind.
    now apply (proj1 (proj2 (mediaType_kind f))). }
  split; [|split].
  - eexists. split; [apply listing_valid_type; eauto|].
    eapply Permutation_in; [symmetry; apply sort_newer_perm|].
    apply filter_In. split; [apply in_app_iff; right; now left|].
    unfold of_kind. now rewrite Hkind.
  - eexists. split; [apply listing_valid_type; eauto|].
    intros Hin.
    eapply Permutation_in in Hin; [|apply sort_newer_perm].
    apply filter_In in Hin as [_ Hin].
    unfold of_kind in Hin. rewrite Hkind in Hin. discriminate Hin.
  - intros q Hq. eexists. split; [apply search_records; eauto|].
    intros Hin. apply filter_In in Hin as [_ Hin].
    apply found_spec in Hin as [Hin _]. rewrite Hkind in Hin.
    discriminate Hin.
Qed.

Lemma song_upload_runs :
  upload FirstCopy song_request 1700 1701 song_staged_world
  = (Ok upload_successful,
     snd (upload FirstCopy song_request 1700 1701 song_staged_world)).
Proof. vm_compute. reflexivity. Qed.

Lemma upload_then_listing_audios_witness :
  (exists audios,
     listing "audios"
       (snd (upload FirstCopy song_request 1700 1701 song_staged_world))
     = (Ok (mkResponse 200 (Json (JArr audios))),
        snd (upload FirstCopy song_request 1700 1701 song_staged_world)) /\
     In (new_entry FirstCopy song_request song 1700 1701) audios) /\
  (exists videos,
     listing "videos"
       (snd (upload FirstCopy song_request 1700 1701 song_staged_world))
     = (Ok (mkResponse 200 (Json (JArr videos))),
        snd (upload FirstCopy song_request 1700 1701 song_staged_world)) /\
     ~ In (new_entry FirstCopy song_request song 1700 1701) videos) /\
  (forall q, normalized q <> "" ->
     exists results,
       search q
         (snd (upload FirstCopy song_request 1700 1701 song_staged_world))
       = (Ok (mkResponse 200 (Json (JArr results))),
          snd (upload FirstCopy song_request 1700 1701 song_staged_world)) /\
       ~ In (new_entry FirstCopy song_request song 1700 1701) results).
Proof.
  apply (upload_then_listing_audios FirstCopy song_request song 1700 1701
           song_staged_world _ upload_successful []).
  - reflexivity.
  - reflexivity.
  - intros [rest H]. discriminate H.
  - reflexivity.
  - reflexivity.
  - apply song_upload_runs.
Defined.

(** X12. An uploaded video is found by its title and by its uploader:
    after the upload, every search whose query (lower-cased and trimmed)
    is not empty and occurs, up to case, in the title or in the uploader
    name of the new record returns that record. *)
Theorem upload_then_search (c : copy) (req : UploadRequest)
  (f : UploadedFile) (now1 now2 : Z) (w w' : World) (resp : response)
  (records : list json) (q : option string) :
  time_value now2 = true ->
  media req = Some f ->
  (exists rest, mimetype f = "video" +:+ rest) ->
  collection w = Ok (JArr records) ->
  forallb media_record records = true ->
  upload c req now1 now2 w = (Ok resp, w') ->
  normalized q <> "" ->
  contains_ci (or_default (videoName req) (originalname f)) (normalized q) \/
  contains_ci (or_default (username req) "Unknown") (normalized q) ->
  exists results,
    search q w' = (Ok (mkResponse 200 (Json (JArr results))), w') /\
    In (new_entry c req f now1 now2) results.
Proof.
  intros Hnow Hm Hvideo Hc Hrec Hrun Hq Hhit.
  destruct (upload_store_records _ _ _ _ _ _ _ _ _ Hnow Hm Hc Hrec Hrun)
    as (Hc' & Hall).
  eexists. split; [apply search_records; eauto|].
  apply filter_In. split; [apply in_app_iff; right; now left|].
  apply found_spec. split.
  - rewrite new_entry_kind. now apply (proj1 (mediaType_kind f)).
  - exact Hhit.
Qed.

Lemma upload_then_search_witness :
  exists results,
    search (Some " SUNSET ")
      (snd (upload SecondCopy clip_request 1700 1701 staged_world))
    = (Ok (mkResponse 200 (Json (JArr results))),
       snd (upload SecondCopy clip_request 1700 1701 staged_world)) /\
    In (new_entry SecondCopy clip_request clip 1700 1701) results.
Proof.
  apply (upload_then_search SecondCopy clip_request clip 1700 1701
           staged_world _ upload_successful [] (Some " SUNSET ")).
  - reflexivity.
  - reflexivity.
  - exists "/mp4". reflexivity.
  - reflexivity.
  - reflexivity.
  - apply clip_upload_runs.
  - discriminate.
  - left. exists "", "Sunset", " Drive". split; reflexivity.
Defined.

(** X13. Search stays within the listing of videos: on a store of media
    records, every record a search returns is in the listing of
    [videos]. *)
Theorem search_within_listing (q : option string) (w : World)
  (records : list json) :
  normalized q <> "" ->
  collection w = Ok (JArr records) ->
  forallb media_record records = true ->
  exists results videos,
    search q w = (Ok (mkResponse 200 (Json (JArr results))), w) /\
    listing "videos" w = (Ok (mkResponse 200 (Json (JArr videos))), w) /\
    forall r, In r results -> In r videos.
Proof.
  intros Hq Hc Hrec. eexists _, _.
  split; [apply search_records; eauto|].
  split; [apply listing_valid_type; eauto|].
  intros r Hr. apply filter_In in Hr as [Hin Hr].
  eapply Permutation_in; [symmetry; apply sort_newer_perm|].
  apply filter_In. split; [exact Hin|].
  apply found_spec in Hr as [Hk _]. unfold of_kind. now rewrite Hk.
Qed.

Lemma search_within_listing_witness :
  exists results videos,
    search (Some "drive") library_world
    = (Ok (mkResponse 200 (Json (JArr results))), library_world) /\
    listing "videos" library_world
    = (Ok (mkResponse 200 (Json (JArr videos))), library_world) /\
    forall r, In r results -> In r videos.
Proof.
  apply (search_within_listing (Some "drive") library_world library).
  - discriminate.
  - apply library_stored.
  - reflexivity.
Defined.

(** ** The order of the listing *)

Lemma insert_newer_front (x y : json) (l : list json) :
  uploadedAt_of x < uploadedAt_of y ->
  insert_newer x (y :: l) = y :: insert_newer x l.
Proof.
  intros H. cbn [insert_newer].
  destruct (Z.ltb_spec 0 (uploadedAt_of y - uploadedAt_of x)); [reflexivity|].
  lia.
Qed.

Lemma sort_newer_newest (l : list json) (e : json) :
  (forall r, In r l -> uploadedAt_of r < uploadedAt_of e) ->
  exists rest, sort_newer (l ++ [e]) = e :: rest.
Proof.
  induction l as [|x l IH]; intros H.
  - exists []. reflexivity.
  - destruct IH as [rest E]; [intros r Hr; apply H; now right|].
    cbn [app sort_newer fold_right]. fold (sort_newer (l ++ [e])).
    rewrite E. rewrite insert_newer_front by (apply H; now left).
    eauto.
Qed.

Lemma filter_snoc {A} (p : A -> bool) (l : list A) (x : A) :
  p x = true -> List.filter p (l ++ [x]) = List.filter p l ++ [x].
Proof. intros H. rewrite List.filter_app. simpl. now rewrite H. Qed.

(** X14. The newest upload is listed first: when the new record's upload
    time is later than that of every record in the store, the listing of
    its kind begins with the new record. *)
Theorem newest_upload_listed_first (c : copy) (req : UploadRequest)
  (f : UploadedFile) (now1 now2 : Z) (w w' : World) (resp : response)
  (records : list json) :
  time_value now2 = true ->
  media req = Some f ->
  collection w = Ok (JArr records) ->
  forallb media_record records = true ->
  (forall r, In r records -> uploadedAt_of r < now2) ->
  upload c req now1 now2 w = (Ok resp, w') ->
  exists rest,
    listing (mediaType f) w'
    = (Ok (mkResponse 200
             (Json (JArr (new_entry c req f now1 now2 :: rest)))), w').
Proof.
  intros Hnow Hm Hc Hrec Hlate Hrun.
  destruct (upload_store_records _ _ _ _ _ _ _ _ _ Hnow Hm Hc Hrec Hrun)
    as (Hc' & Hall).
  set (entry := new_entry c req f now1 now2) in *.
  assert (Hkind : of_kind (mediaType f) entry = true).
  { unfold of_kind, entry. rewrite new_entry_kind. apply String.eqb_refl. }
  destruct (sort_newer_newest
              (List.filter (of_kind (mediaType f)) records) entry)
    as [rest E].
  { intros r Hr. apply filter_In in Hr as [Hr _].
    unfold entry. rewrite new_entry_uploadedAt. now apply Hlate. }
  exists rest. rewrite <- E, <- (filter_snoc _ _ _ Hkind).
  apply listing_valid_type; auto.
  destruct (mediaType_kind f) as (_ & _ & Hk). exact Hk.
Qed.

(** The clip, uploaded at 1701 into the library whose records were
    uploaded at 100, 300, 150 and 200, is listed before the three videos
    of the library. *)
Lemma newest_upload_listed_first_witness :
  exists rest,
    listing (mediaType clip)
      (snd (upload SecondCopy clip_request 1700 1701 library_staged_world))
    = (Ok (mkResponse 200
             (Json (JArr (new_entry SecondCopy clip_request clip 1700 1701
                            :: rest)))),
       snd (upload SecondCopy clip_request 1700 1701 library_staged_world)).
Proof.
  apply (newest_upload_listed_first SecondCopy clip_request clip 1700 1701
           library_staged_world _ upload_successful library).
  - reflexivity.
  - reflexivity.
  - exact library_stored_staged.
  - reflexivity.
  - intros r [<- | [<- | [<- | [<- | []]]]]; vm_compute; reflexivity.
  - apply clip_upload_into_library.
Defined.

Lemma uploaded_at_insert (t : Z) (x : json) (l : list json) :
  uploaded_at t (insert_newer x l) = uploaded_at t (x :: l).
Proof.
  unfold uploaded_at. induction l as [|y l IH]; [reflexivity|].
  cbn [insert_newer].
  destruct (Z.ltb_spec 0 (uploadedAt_of y - uploadedAt_of x)) as [H | H];
    [|reflexivity].
  cbn [List.filter] in *. rewrite IH.
  destruct (Z.eqb_spec (uploadedAt_of x) t) as [Ex | Ex];
    [|reflexivity].
  destruct (Z.eqb_spec (uploadedAt_of y) t) as [Ey | Ey];
    [lia | reflexivity].
Qed.

Lemma uploaded_at_sort (t : Z) (l : list json) :
  uploaded_at t (sort_newer l) = uploaded_at t l.
Proof.
  induction l as [|x l IH]; [reflexivity|].
  cbn [sort_newer fold_right]. fold (sort_newer l).
  rewrite uploaded_at_insert. unfold uploaded_at in *.
  cbn [List.filter]. now rewrite IH.
Qed.

(** X15. The listing keeps the order of the store among records of the
    same upload time, as the stable [Array.prototype.sort] of ECMAScript
    2019 (Node 11 and later) does with a comparator that looks at the
    times alone: for every time [t], the records of the listing uploaded
    at [t] are those of the store of the listed kind, in the order of the
    store. *)
Theorem listing_keeps_order_of_ties (type : string) (w : World)
  (records : list json) (t : Z) :
  type = "videos" \/ type = "audios" ->
  collection w = Ok (JArr records) ->
  forallb media_record records = true ->
  exists mediaList,
    listing type w = (Ok (mkResponse 200 (Json (JArr mediaList))), w) /\
    uploaded_at t mediaList
    = uploaded_at t (List.filter (of_kind type) records).
Proof.
  intros Htype Hc Hrec. eexists.
  split; [apply listing_valid_type; eauto|].
  apply uploaded_at_sort.
Qed.

Lemma tied_library_stored : collection tied_world = Ok (JArr tied_library).
Proof. vm_compute. reflexivity. Qed.

(** Two videos uploaded at 200, with a later one between them in the
    store: the listing has them in the order of the store. *)
Lemma listing_keeps_order_of_ties_witness :
  exists mediaList,
    listing "videos" tied_world
    = (Ok (mkResponse 200 (Json (JArr mediaList))), tied_world) /\
    map title_of mediaList = ["Night Walk"; "Sunset Drive"; "Morning Run"] /\
    uploaded_at 200 mediaList
    = [metadataEntry "200.mp4" "Sunset Drive" "Ana" "videos" JNull 200;
       metadataEntry "200.mov" "Morning Run" "Ben" "videos" JNull 200].
Proof.
  destruct (listing_keeps_order_of_ties "videos" tied_world tied_library 200
              (or_introl eq_refl) tied_library_stored eq_refl)
    as (mediaList & Hrun & Hties).
  exists mediaList. split; [exact Hrun|]. split; [|exact Hties].
  assert (E : fst (listing "videos" tied_world)
              = Ok (mkResponse 200 (Json (JArr mediaList))))
    by now rewrite Hrun.
  vm_compute in E. injection E as <-. reflexivity.
Defined.

(** ** Items of the store that are not media records *)

Lemma filter_items_throws (f : json -> result bool) (l : list json)
  (y : json) :
  (forall x, f x <> Beyond) ->
  (forall x e, f x = Throw e -> e = TypeError) ->
  In y l ->
  f y = Throw TypeError ->
  filter_items f l = Throw TypeError.
Proof.
  intros Hb He Hin Hy. induction l as [|x l IH]; [destruct Hin|].
  cbn [filter_items]. destruct (f x) as [keep|e|] eqn:Ex.
  - destruct Hin as [-> | Hin]; [congruence|].
    cbn [rbind]. now rewrite (IH Hin).
  - cbn [rbind]. now rewrite (He _ _ Ex).
  - now destruct (Hb x).
Qed.

Lemma kind_test_ends (type : string) (x : json) :
  rbind (prop x "type") (fun t => Ok (is_string t type)) <> Beyond /\
  (forall e, rbind (prop x "type") (fun t => Ok (is_string t type))
             = Throw e -> e = TypeError).
Proof.
  destruct x; cbn; split; try discriminate; intros e [= <-]; reflexivity.
Qed.

Lemma matches_ends (query : string) (x : json) :
  matches query x <> Beyond /\
  (forall e, matches query x = Throw e -> e = TypeError).
Proof.
  unfold matches.
  destruct x as [| b | n | s | items | ms]; cbn;
    try (split; [discriminate | intros e [= <-]; reflexivity]).
  destruct (is_string (assoc "type" ms) "videos");
    [|split; [discriminate | intros e [=]]].
  destruct (assoc "videoName" ms) as [[| | | t | |]|]; cbn;
    try (split; [discriminate | intros e [= <-]; reflexivity]).
  destruct (includes (toLowerCase t) query);
    [split; [discriminate | intros e [=]]|].
  destruct (assoc "username" ms) as [[| | | u | |]|]; cbn;
    split; (discriminate || (intros e [= <-]; reflexivity) || intros e [=]).
Qed.

Lemma search_throws (q : option string) (w : World) (items : list json)
  (y : json) :
  normalized q <> "" ->
  collection w = Ok (JArr items) ->
  In y items ->
  matches (normalized q) y = Throw TypeError ->
  search q w = (Throw TypeError, w).
Proof.
  intros Hq Hc Hin Hy. unfold search. fold (normalized q).
  destruct (normalized q) as [|ch t] eqn:E; [now destruct Hq|].
  cbn [truthy negb].
  unfold bind at 1. rewrite readMetadata_run, Hc.
  unfold bind at 1. unfold lift. cbn [Array_filter].
  rewrite (filter_items_throws _ items y); auto.
  - intros x. apply matches_ends.
  - intros x. apply matches_ends.
Qed.

(** X16. One [null] among the items of the store breaks every read: the
    listing of a valid type and every search with a query that is not
    blank throw a TypeError, wherever the [null] stands and whatever the
    other items are. *)
Theorem null_item_breaks_reads (w : World) (items : list json) :
  collection w = Ok (JArr items) ->
  In JNull items ->
  (forall type, type = "videos" \/ type = "audios" ->
                listing type w = (Throw TypeError, w)) /\
  (forall q, normalized q <> "" -> search q w = (Throw TypeError, w)).
Proof.
  intros Hc Hin. split.
  - intros type Htype. unfold listing.
    assert (E : negb ((type =? "videos")%string || (type =? "audios")%string)
                = false)
      by (destruct Htype as [-> | ->]; reflexivity).
    rewrite E. unfold bind at 1. rewrite readMetadata_run, Hc.
    unfold bind at 1. unfold lift. cbn [Array_filter].
    rewrite (filter_items_throws _ items JNull); auto.
    + intros x. apply kind_test_ends.
    + intros x. apply kind_test_ends.
  - intros q Hq. now apply (search_throws q w items JNull).
Qed.

Lemma null_item_breaks_reads_witness :
  (forall type, type = "videos" \/ type = "audios" ->
                listing type null_item_world
                = (Throw TypeError, null_item_world)) /\
  (forall q, normalized q <> "" ->
             search q null_item_world = (Throw TypeError, null_item_world)).
Proof.
  apply (null_item_breaks_reads null_item_world [JNull]).
  - reflexivity.
  - now left.
Defined.

(** X17. One video record without a title breaks every search: when an
    item of the store has the kind [videos] and no string as its title,
    every search with a query that is not blank throws a TypeError. *)
Theorem untitled_video_breaks_search (q : option string) (w : World)
  (items : list json) (r : json) :
  collection w = Ok (JArr items) ->
  In r items ->
  kind_of r = "videos" ->
  is_text (field "videoName" r) = false ->
  normalized q <> "" ->
  search q w = (Throw TypeError, w).
Proof.
  intros Hc Hin Hkind Htitle Hq.
  apply (search_throws q w items r); auto.
  unfold kind_of, field in Hkind. unfold field in Htitle. unfold matches.
  destruct r as [| b | n | s | l | ms]; try discriminate Hkind.
  cbn [prop rbind].
  destruct (assoc "type" ms) as [[| | | t | |]|]; try discriminate Hkind.
  cbn [text_of] in Hkind. subst t. cbn [is_string String.eqb Ascii.eqb Bool.eqb].
  cbn.
  destruct (assoc "videoName" ms) as [[| | | t | |]|];
    try discriminate Htitle; reflexivity.
Qed.

Lemma untitled_video_breaks_search_witness :
  search (Some "drive") untitled_store_world
  = (Throw TypeError, untitled_store_world).
Proof.
  apply (untitled_video_breaks_search (Some "drive") untitled_store_world
           [JObj [("type", JStr "videos")]]
           (JObj [("type", JStr "videos")])).
  - vm_compute. reflexivity.
  - now left.
  - reflexivity.
  - reflexivity.
  - discriminate.
Defined.

(** ** Two uploads at one reading of the clock *)

Lemma mediaPath_same (now1 : Z) (f g : UploadedFile) :
  mediaType f = mediaType g ->
  path_extname (originalname f) = path_extname (originalname g) ->
  mediaFilename now1 f = mediaFilename now1 g /\
  mediaPath now1 f = mediaPath now1 g.
Proof.
  intros Ht He. unfold mediaPath, mediaFilename. now rewrite Ht, He.
Qed.

(** X19. The file name made from the clock is not unique: two uploads
    at the same reading of the clock, of files of the same kind and
    extension, are stored under one name.  After both have answered, the
    file under that name is the second upload's, and the store ends with
    two records that give that same file name. *)
Theorem same_time_uploads_collide (c : copy) (req1 req2 : UploadRequest)
  (f1 f2 : UploadedFile) (now1 t1 t2 : Z) (w w1 w2 : World)
  (resp1 resp2 : response) (staged2 : node) :
  time_value t1 = true ->
  time_value t2 = true ->
  media req1 = Some f1 ->
  media req2 = Some f2 ->
  mediaType f1 = mediaType f2 ->
  path_extname (originalname f1) = path_extname (originalname f2) ->
  upload c req1 now1 t1 w = (Ok resp1, w1) ->
  fs w1 !! path f2 = Some staged2 ->
  upload c req2 now1 t2 w1 = (Ok resp2, w2) ->
  fs w2 !! mediaPath now1 f1 = Some staged2 /\
  exists records,
    collection w2
    = Ok (JArr (records ++ [new_entry c req1 f1 now1 t1;
                            new_entry c req2 f2 now1 t2])) /\
    filename_of (new_entry c req1 f1 now1 t1)
    = filename_of (new_entry c req2 f2 now1 t2).
Proof.
  intros Ht1 Ht2 Hm1 Hm2 Hkind Hext Hrun1 Hs2 Hrun2.
  destruct (mediaPath_same now1 f1 f2 Hkind Hext) as [Hname Hpath].
  split.
  - rewrite Hpath.
    apply (upload_media_moved _ _ _ _ _ _ _ _ _ Hm2 Hs2 Hrun2).
  - destruct (upload_appends _ _ _ _ _ _ _ _ Ht1 Hm1 Hrun1)
      as (records & _ & Hc1).
    destruct (upload_appends _ _ _ _ _ _ _ _ Ht2 Hm2 Hrun2)
      as (records1 & Hc1' & Hc2).
    rewrite Hc1 in Hc1'. injection Hc1' as <-.
    exists records. split.
    + rewrite Hc2, <- app_assoc. reflexivity.
    + exact Hname.
Qed.

Lemma same_time_uploads_collide_witness :
  fs (snd (upload FirstCopy trailer_request 1700 1702
             (snd (upload FirstCopy clip_alone 1700 1701 two_staged_world))))
    !! mediaPath 1700 clip = Some (File "trailer bytes") /\
  exists records,
    collection
      (snd (upload FirstCopy trailer_request 1700 1702
              (snd (upload FirstCopy clip_alone 1700 1701 two_staged_world))))
    = Ok (JArr (records ++ [new_entry FirstCopy clip_alone clip 1700 1701;
                            new_entry FirstCopy trailer_request trailer
                              1700 1702])) /\
    filename_of (new_entry FirstCopy clip_alone clip 1700 1701)
    = filename_of (new_entry FirstCopy trailer_request trailer 1700 1702).
Proof.
  apply (same_time_uploads_collide FirstCopy clip_alone trailer_request
           clip trailer 1700 1701 1702 two_staged_world
           (snd (upload FirstCopy clip_alone 1700 1701 two_staged_world))
           _ upload_successful upload_successful (File "trailer bytes")).
  - reflexivity.
  - reflexivity.
  - reflexivity.
  - reflexivity.
  - reflexivity.
  - reflexivity.
  - vm_compute. reflexivity.
  - vm_compute. reflexivity.
  - vm_compute. reflexivity.
Defined.

(** ** The store as uploads keep it *)

Lemma new_entry_valid_kind (c : copy) (req : UploadRequest)
  (f : UploadedFile) (now1 now2 : Z) :
  valid_kind (new_entry c req f now1 now2) = true.
Proof.
  unfold valid_kind, of_kind. rewrite new_entry_kind.
  destruct (mediaType_kind f) as (_ & _ & [-> | ->]); reflexivity.
Qed.

Lemma upload_keeps_store (c : copy) (req : UploadRequest) (now1 now2 : Z)
  (w w' : World) (resp : response) :
  time_value now2 = true ->
  well_kept w ->
  upload c req now1 now2 w = (Ok resp, w') ->
  well_kept w'.
Proof.
  intros Hnow (records & Hc & Hrec & Hkind) Hrun.
  destruct (media req) as [f|] eqn:Hm.
  - destruct (upload_store_records _ _ _ _ _ _ _ _ _ Hnow Hm Hc Hrec Hrun)
      as (Hc' & Hall).
    exists (records ++ [new_entry c req f now1 now2]).
    split; [exact Hc'|]. split; [exact Hall|].
    rewrite forallb_app, Hkind. cbn [forallb].
    now rewrite new_entry_valid_kind.
  - rewrite (upload_no_media _ _ _ _ _ Hm) in Hrun.
    injection Hrun as _ <-. exists records. auto.
Qed.

(** On a request whose text fields are strings the handler on any
    request is the handler on strings. *)
Lemma POST_upload_strings (c : copy) (req : UploadRequest) (now1 now2 : Z)
  (w : World) :
  POST_upload c (raw req) now1 now2 w = upload c req now1 now2 w.
Proof.
  unfold POST_upload, upload, raw.
  cbn [files_media files_thumbnail body_videoName body_username].
  destruct (media req) as [f|]; [|reflexivity].
  destruct (videoName req) as [[|ch s]|], (username req) as [[|ch' s']|];
    reflexivity.
Qed.

(** On a query that is a string, or absent, the search on any query is
    the search on strings. *)
Lemma GET_search_strings (q : option string) (w : World) :
  GET_search (option_map JStr q) w = search q w.
Proof. destruct q as [[|ch s]|]; reflexivity. Qed.

(** X20. Uploads of plain forms keep the store in order.  A world
    without a metadata document has a well-kept store (an array of media
    records, each of the kind [videos] or [audios]); every upload that
    answers, and whose title and uploader name were each sent once at
    most (which makes them strings), leaves a well-kept store well kept;
    and on a well-kept store every listing answers, and every search
    whose query is a string or absent answers, without a throw and
    leaving the world as it is. *)
Theorem uploads_keep_store :
  (forall w, fs w !! metadataFile = None -> well_kept w) /\
  (forall c req now1 now2 w w' resp,
     time_value now2 = true ->
     well_kept w ->
     POST_upload c (raw req) now1 now2 w = (Ok resp, w') ->
     well_kept w') /\
  (forall type w, well_kept w ->
     exists resp, listing type w = (Ok resp, w) /\
                  (status resp = 200%nat \/ status resp = 400%nat)) /\
  (forall (q : option string) w, well_kept w ->
     exists results,
       GET_search (option_map JStr q) w
       = (Ok (mkResponse 200 (Json (JArr results))), w)).
Proof.
  split; [|split; [|split]].
  - intros w Hnone. exists []. unfold collection, document_at.
    rewrite Hnone. auto.
  - intros c req now1 now2 w w' resp Hnow Hkept.
    rewrite POST_upload_strings. now apply upload_keeps_store.
  - intros type w (records & Hc & Hrec & _).
    destruct (String.eqb_spec type "videos") as [-> | Hv].
    { eexists. split; [apply listing_valid_type; eauto|]. now left. }
    destruct (String.eqb_spec type "audios") as [-> | Ha].
    { eexists. split; [apply listing_valid_type; eauto|]. now left. }
    eexists. split; [now apply listing_invalid_type|]. now right.
  - intros q w (records & Hc & Hrec & _). rewrite GET_search_strings.
    destruct (string_dec (normalized q) "") as [E | E].
    + exists []. now apply search_empty_query.
    + eexists. apply search_records; eauto.
Qed.

Lemma uploads_keep_store_witness :
  well_kept
    (snd (POST_upload SecondCopy (raw clip_request) 1700 1701
            library_staged_world)).
Proof.
  apply (proj1 (proj2 uploads_keep_store) SecondCopy clip_request 1700 1701
           library_staged_world _ upload_successful).
  - reflexivity.
  - exists library. split; [exact library_stored_staged|].
    split; reflexivity.
  - vm_compute. reflexivity.
Defined.

(** A title sent twice is an array; the upload answers and stores it as
    the title, the store is well kept no more, and the searches throw: on
    the array when it is the title of a record, and on an array that is
    the query. *)
Example repeated_field_breaks_store :
  let twice :=
    mkRawUploadRequest (Some clip) None
      (Some (JArr [JStr "Sunset"; JStr "Drive"])) None in
  let w' := snd (POST_upload SecondCopy twice 1700 1701 staged_world) in
  fst (POST_upload SecondCopy twice 1700 1701 staged_world)
  = Ok upload_successful /\
  collection w'
  = Ok (JArr [metadataEntry_of "1700.mp4"
                (JArr [JStr "Sunset"; JStr "Drive"]) (JStr "Unknown")
                "videos" JNull 1701]) /\
  fst (search (Some "drive") w') = Throw TypeError /\
  fst (GET_search (Some (JArr [JStr "a"; JStr "b"])) staged_world)
  = Throw TypeError.
Proof. repeat split; vm_compute; reflexivity. Qed.

Lemma kinds_apart (r : json) :
  of_kind "videos" r = true -> of_kind "audios" r = false.
Proof.
  unfold of_kind. intros H%String.eqb_eq. now rewrite H.
Qed.

Lemma filter_partition (l : list json) :
  forallb valid_kind l = true ->
  Permutation (List.filter (of_kind "videos") l ++
               List.filter (of_kind "audios") l) l.
Proof.
  induction l as [|x l IH]; [reflexivity|].
  cbn [forallb List.filter]. intros H. apply andb_prop in H as [Hx Hl].
  specialize (IH Hl). unfold valid_kind in Hx.
  destruct (of_kind "videos" x) eqn:Ev.
  - rewrite (kinds_apart x Ev). cbn [app]. now constructor.
  - cbn [orb] in Hx. rewrite Hx.
    rewrite <- Permutation_middle. now constructor.
Qed.

(** X21. On a well-kept store the two listings share out the store:
    every record is in the listing of [videos] or in the listing of
    [audios], and in one of them only; together the two listings are the
    records of the store, each as often as the store has it. *)
Theorem listings_share_out_store (w : World) :
  well_kept w ->
  exists records videos audios,
    collection w = Ok (JArr records) /\
    listing "videos" w = (Ok (mkResponse 200 (Json (JArr videos))), w) /\
    listing "audios" w = (Ok (mkResponse 200 (Json (JArr audios))), w) /\
    Permutation (videos ++ audios) records /\
    (forall r, In r videos -> ~ In r audios).
Proof.
  intros (records & Hc & Hrec & Hkind).
  exists records. eexists _, _.
  split; [exact Hc|].
  split; [apply listing_valid_type; eauto|].
  split; [apply listing_valid_type; eauto|].
  split.
  - rewrite !sort_newer_perm. now apply filter_partition.
  - intros r Hv Ha.
    eapply Permutation_in in Hv; [|apply sort_newer_perm].
    eapply Permutation_in in Ha; [|apply sort_newer_perm].
    apply filter_In in Hv as [_ Hv]. apply filter_In in Ha as [_ Ha].
    rewrite (kinds_apart r Hv) in Ha. discriminate Ha.
Qed.

Lemma library_well_kept : well_kept library_world.
Proof.
  exists library. split; [apply library_stored|]. split; reflexivity.
Qed.

Lemma listings_share_out_store_witness :
  exists records videos audios,
    collection library_world = Ok (JArr records) /\
    listing "videos" library_world
    = (Ok (mkResponse 200 (Json (JArr videos))), library_world) /\
    listing "audios" library_world
    = (Ok (mkResponse 200 (Json (JArr audios))), library_world) /\
    Permutation (videos ++ audios) records /\
    (forall r, In r videos -> ~ In r audios).
Proof.
  apply (listings_share_out_store library_world). apply library_well_kept.
Defined.
